(** * Spine Database API: a shallow embedding and its properties

  Part I embeds the parts of [spinedb_api] the properties are about, one
  module per source file.  Part II states and proves the properties.

  Conventions of the embedding:
  - a Python value that can be a dictionary key or a set element is a
    [value]; dictionaries are [gmap]s, sets are [gset]s, lists are lists;
  - a function that can raise returns a [result]; code that also changes
    the mapping object is a function from the state to a result and the
    new state;
  - an f-string is kept as the list of its literal and interpolated parts
    ([message]), so that what an error reports can be read off it;
  - query results are lists of rows, in the order the engine produced
    them. *)

From Stdlib Require Import ZArith List Permutation Sorted Lia.
From stdpp Require Import base gmap strings list sets pretty list_numbers.

(** * Part I: the embedding *)

(** ** Python values *)

(** Hashable Python values that occur as ids, names and column values.
  [Anyone] is the wildcard sentinel of [helpers] (not among the sources
  here); it is kept as a value of its own. *)
Inductive value :=
| VNone
| VInt (z : Z)
| VStr (s : string)
| Anyone.

#[global] Instance value_eq_dec : EqDecision value.
Proof. solve_decision. Defined.

#[global] Instance value_countable : Countable value.
Proof.
refine (inj_countable'
  (λ v, match v with
        | VNone => inl (inl ()) | Anyone => inl (inr ())
        | VInt z => inr (inl z) | VStr s => inr (inr s)
        end)
  (λ x, match x with
        | inl (inl _) => VNone | inl (inr _) => Anyone
        | inr (inl z) => VInt z | inr (inr s) => VStr s
        end) _).
by intros [].
Defined.

(** [isinstance(v, str)] and [isinstance(v, int)] as partial projections. *)
Definition as_str (v : value) : option string :=
match v with VStr s => Some s | _ => None end.

Definition as_int (v : value) : option Z :=
match v with VInt z => Some z | _ => None end.

(** ** Exceptions *)

Module exception.

(** The parts of an f-string; [OrigArgs] stands for the arguments of the
    engine's own error, [e.orig.args]. *)
Inductive fmt :=
| Lit (s : string)
| Str (s : string)
| Int (z : Z)
| StrTuple (l : list string)
| IntTuple (l : list Z)
| StrList (l : list string)
| OrigArgs.

Definition message := list fmt.

Inductive exn :=
| SpineDBAPIError (msg : message)
| SpineIntegrityError (msg : message) (id : option Z)
| SpineTableNotFoundError (table : list string) (url : string)
| KeyError
| TypeError
| AttributeError
| StatementError
| MultipleResultsFound.

Inductive result (A : Type) :=
| Ok (a : A)
| Raise (e : exn).
Arguments Ok {A} a.
Arguments Raise {A} e.

Definition is_integrity_error {A} (r : result A) : bool :=
  match r with Raise (SpineIntegrityError _ _) => true | _ => false end.

Definition is_ok {A} (r : result A) : bool :=
  match r with Ok _ => true | _ => false end.

End exception.
Import exception.

(** ** db_mapping_base.py: construction of the mapping *)

Module db_mapping_base.

(** [self.table_to_class], in the order the dictionary is written. *)
Definition table_to_class : list (string * string) :=
  [ ("alternative", "Alternative");
    ("scenario", "Scenario");
    ("scenario_alternative", "ScenarioAlternative");
    ("commit", "Commit");
    ("entity_class", "EntityClass");
    ("entity_class_type", "EntityClassType");
    ("entity", "Entity");
    ("entity_type", "EntityType");
    ("object", "Object");
    ("object_class", "ObjectClass");
    ("relationship_class", "RelationshipClass");
    ("relationship", "Relationship");
    ("relationship_entity", "RelationshipEntity");
    ("relationship_entity_class", "RelationshipEntityClass");
    ("entity_group", "EntityGroup");
    ("parameter_definition", "ParameterDefinition");
    ("parameter_value", "ParameterValue");
    ("parameter_tag", "ParameterTag");
    ("parameter_definition_tag", "ParameterDefinitionTag");
    ("parameter_value_list", "ParameterValueList");
    ("tool", "Tool");
    ("feature", "Feature");
    ("tool_feature", "ToolFeature");
    ("tool_feature_method", "ToolFeatureMethod");
    ("metadata", "Metadata");
    ("parameter_value_metadata", "ParameterValueMetadata");
    ("entity_metadata", "EntityMetadata") ].

Section create_mapping.
(** What automap reflects for a table; its content plays no role. *)
Context {mapped : Type}.

(** One turn of the loop of [_create_mapping]: [getattr(Base.classes,
    tablename)] either gives the class, which is stored under
    [classname], or raises, and the table name is appended to
    [not_found]. *)
Definition _create_mapping_step (classes : gmap string mapped)
    (acc : gmap string mapped * list string) (tc : string * string)
    : gmap string mapped * list string :=
  match classes !! tc.1 with
  | Some class_ => (<[tc.2 := class_]> acc.1, acc.2)
  | None => (acc.1, acc.2 ++ [tc.1])
  end.

(** [_create_mapping]: [classes] is [Base.classes] after reflection,
    [attrs] the attributes of the mapping keyed by class name. *)
Definition _create_mapping (classes : gmap string mapped) (db_url : string)
    (attrs : gmap string mapped) : result (gmap string mapped) :=
  let acc := foldl (_create_mapping_step classes) (attrs, []) table_to_class in
  match acc.2 with
  | [] => Ok acc.1
  | not_found => Raise (SpineTableNotFoundError not_found db_url)
  end.
End create_mapping.

(** *** Rows of the tables and subqueries the filters read *)

Record alternative_row := {
  alternative_id : Z;
  alternative_name : string }.

Record scenario_row := {
  scenario_id : Z;
  scenario_name : string }.

Record scenario_alternative_row := {
  sa_id : Z;
  sa_scenario_id : Z;
  sa_alternative_id : Z;
  sa_rank : Z }.

(** A row of a parameter value subquery.  [pv_labels] holds the labelled
    columns a query adds after the columns of [parameter_value_sq]. *)
Record parameter_value_row := {
  pv_id : Z;
  pv_parameter_definition_id : Z;
  pv_entity_class_id : Z;
  pv_entity_id : Z;
  pv_value : string;
  pv_alternative_id : Z;
  pv_labels : list (string * nat) }.

#[global] Instance parameter_value_row_eq_dec : EqDecision parameter_value_row.
Proof. solve_decision. Defined.

#[global] Instance scenario_alternative_row_eq_dec : EqDecision scenario_alternative_row.
Proof. solve_decision. Defined.

(** The filter expressions [in_] returns: [true()], [false()], or
    [column.in_(SELECT id_for_in FROM ids_for_in WHERE clause_id = n)]. *)
Inductive clause :=
| sql_true
| sql_false
| in_ids_for_in (clause_id : nat).

(** Parameter value subqueries: the one in place before any filter, and
    the two filtering ones of [alternative_value_filter]. *)
Inductive subquery :=
| parameter_value_sq_default
| scenario_filtered_sq (original : subquery) (scenario : value)
| alternative_filtered_sq (original : subquery) (cond : clause).

(** The part of a [DatabaseMappingBase] the filters use: the rows of the
    subqueries of four tables, the temporary table [ids_for_in] and the
    counter of the clauses that use it. *)
Record db_map := {
  alternative_sq : list alternative_row;
  scenario_sq : list scenario_row;
  scenario_alternative_sq : list scenario_alternative_row;
  parameter_value_rows : list parameter_value_row;
  ids_for_in : list (nat * value);
  _ids_for_in_clause_id : nat }.

(** Code that reads and updates the mapping and may raise. *)
Definition M (A : Type) : Type := db_map → result A * db_map.

Definition ret {A} (a : A) : M A := λ db, (Ok a, db).
Definition raise {A} (e : exn) : M A := λ db, (Raise e, db).
Definition bind {A B} (m : M A) (k : A → M B) : M B :=
  λ db, match m db with
        | (Ok a, db') => k a db'
        | (Raise e, db') => (Raise e, db')
        end.
Definition get : M db_map := λ db, (Ok db, db).

Notation "'do' x <- m ; k" := (bind m (λ x, k))
  (at level 10, x name, m at level 100, k at level 200).

(** [in_(column, ids)]. *)
Definition in_ (ids : list value) : M clause :=
  λ db,
    if bool_decide (Anyone ∈ ids) then (Ok sql_true, db)
    else match ids with
         | [] => (Ok sql_false, db)
         | _ =>
           let clause_id := S (_ids_for_in_clause_id db) in
           (Ok (in_ids_for_in clause_id),
            {| alternative_sq := alternative_sq db;
               scenario_sq := scenario_sq db;
               scenario_alternative_sq := scenario_alternative_sq db;
               parameter_value_rows := parameter_value_rows db;
               ids_for_in := ids_for_in db ++ map (λ id_, (clause_id, id_)) ids;
               _ids_for_in_clause_id := clause_id |})
         end.

(** *** What the engine answers *)

(** Whether a filter expression holds of a column value. *)
Definition holds (db : db_map) (cond : clause) (v : value) : bool :=
  match cond with
  | sql_true => true
  | sql_false => false
  | in_ids_for_in n =>
    bool_decide (v ∈ map snd (List.filter (λ r, Nat.eqb r.1 n) (ids_for_in db)))
  end.

(** [.scalar()]: the first column of the only row, [None] without rows. *)
Definition scalar {A} (l : list A) : result (option A) :=
  match l with
  | [] => Ok None
  | [x] => Ok (Some x)
  | _ => Raise MultipleResultsFound
  end.

(** The window of the scenario filter, read off
    [_make_scenario_filtered_parameter_value_sq]: the parameter values
    joined with the scenario alternatives of the scenario on
    [alternative_id]. *)
Definition partition_key (v : parameter_value_row) : Z * Z :=
  (pv_parameter_definition_id v, pv_entity_id v).

Definition in_scenario (scenario : value) (v : parameter_value_row)
    (a : scenario_alternative_row) : bool :=
  bool_decide (pv_alternative_id v = sa_alternative_id a)
  && bool_decide (VInt (sa_scenario_id a) = scenario).

Definition scenario_join (pv : list parameter_value_row)
    (sa : list scenario_alternative_row) (scenario : value)
    : list (parameter_value_row * scenario_alternative_row) :=
  flat_map (λ v, map (pair v) (List.filter (in_scenario scenario v) sa)) pv.

(** [order_by=desc(rank)]: insertion sort, highest rank first. *)
Fixpoint insert_by_rank (r : parameter_value_row * scenario_alternative_row)
    (l : list (parameter_value_row * scenario_alternative_row)) :=
  match l with
  | [] => [r]
  | h :: t =>
    if (sa_rank h.2 <? sa_rank r.2)%Z then r :: h :: t
    else h :: insert_by_rank r t
  end.

Definition order_by_rank_desc
    (l : list (parameter_value_row * scenario_alternative_row)) :=
  foldr insert_by_rank [] l.

(** [row_number() over (partition_by ...)] on ordered rows: a row gets one
    more than the number of rows of its partition before it. *)
Fixpoint row_number (seen : list (Z * Z))
    (l : list (parameter_value_row * scenario_alternative_row))
    : list (parameter_value_row * nat) :=
  match l with
  | [] => []
  | r :: t =>
    (r.1, S (length (List.filter (λ k, bool_decide (k = partition_key r.1)) seen)))
      :: row_number (partition_key r.1 :: seen) t
  end.

Definition labelled (name : string) (vn : parameter_value_row * nat)
    : parameter_value_row :=
  {| pv_id := pv_id vn.1;
     pv_parameter_definition_id := pv_parameter_definition_id vn.1;
     pv_entity_class_id := pv_entity_class_id vn.1;
     pv_entity_id := pv_entity_id vn.1;
     pv_value := pv_value vn.1;
     pv_alternative_id := pv_alternative_id vn.1;
     pv_labels := pv_labels vn.1 ++ [(name, vn.2)] |}.

Definition ext_parameter_value_sq (pv : list parameter_value_row)
    (sa : list scenario_alternative_row) (scenario : value)
    : list (parameter_value_row * nat) :=
  row_number [] (order_by_rank_desc (scenario_join pv sa scenario)).

(** [db_map.query(sq).all()]. *)
Fixpoint all (db : db_map) (sq : subquery) : list parameter_value_row :=
  match sq with
  | parameter_value_sq_default => parameter_value_rows db
  | scenario_filtered_sq original scenario =>
    map (labelled "max_rank_row_number")
      (List.filter (λ vn, Nat.eqb vn.2 1)
         (ext_parameter_value_sq (all db original) (scenario_alternative_sq db) scenario))
  | alternative_filtered_sq original cond =>
    List.filter (λ v, holds db cond (VInt (pv_alternative_id v))) (all db original)
  end.

(** The required tables that [classes] lacks, in the order of
    [table_to_class]. *)
Definition missing_tables {mapped} (classes : gmap string mapped) : list string :=
  List.filter (λ t, bool_decide (classes !! t = None)) (table_to_class.*1).

End db_mapping_base.

(** ** alternative_value_filter.py *)

Module alternative_value_filter.
Import db_mapping_base.

Record _ScenarioFilterState := {
  scenario_original_parameter_value_sq : subquery;
  scenario : value }.

Record _AlternativeFilterState := {
  alternative_original_parameter_value_sq : subquery;
  alternatives : option (list value) }.

(** [_ScenarioFilterState._scenario_id]. *)
Definition _scenario_id (scenario : value) : M value :=
  do db <- get;
  match scenario with
  | VStr name =>
    match scalar (map scenario_id
                    (List.filter (λ r, bool_decide (scenario_name r = name)) (scenario_sq db))) with
    | Raise e => raise e
    | Ok None => raise (SpineDBAPIError [Lit "Scenario '"; Str name; Lit "' not found"])
    | Ok (Some scenario_id) => ret (VInt scenario_id)
    end
  | _ =>
    match scalar (map scenario_id
                    (List.filter (λ r, bool_decide (VInt (scenario_id r) = scenario)) (scenario_sq db))) with
    | Raise e => raise e
    | Ok None =>
      raise (SpineDBAPIError
               [Lit "Scenario id ";
                match scenario with VInt z => Int z | _ => Lit "None" end;
                Lit " not found"])
    | Ok (Some _) => ret scenario
    end
  end.

(** [_ScenarioFilterState.__init__]; [original] is [db_map.parameter_value_sq]. *)
Definition new_ScenarioFilterState (original : subquery) (scenario : value)
    : M _ScenarioFilterState :=
  do scenario_id <- _scenario_id scenario;
  ret {| scenario_original_parameter_value_sq := original; scenario := scenario_id |}.

(** [_AlternativeFilterState._alternative_ids]. *)
Definition _alternative_ids (alternatives : list value) : M (list value) :=
  let alternative_names := omap as_str alternatives in
  do cond <- in_ (map VStr alternative_names);
  do db <- get;
  let ids_from_db :=
    List.filter (λ r, holds db cond (VStr (alternative_name r))) (alternative_sq db) in
  let names_in_db := map alternative_name ids_from_db in
  if negb (Nat.eqb (length alternative_names) (length names_in_db)) then
    let missing_names :=
      List.filter (λ name, negb (bool_decide (name ∈ names_in_db))) alternative_names in
    raise (SpineDBAPIError [Lit "Alternative(s) "; StrTuple missing_names; Lit " not found"])
  else
    let ids := map alternative_id ids_from_db in
    let alternative_ids := omap as_int alternatives in
    do cond <- in_ (map VInt alternative_ids);
    do db <- get;
    let ids_from_db :=
      List.filter (λ r, holds db cond (VInt (alternative_id r))) (alternative_sq db) in
    let ids_in_db := map alternative_id ids_from_db in
    if negb (Nat.eqb (length alternative_ids) (length ids_from_db)) then
      let missing_ids :=
        List.filter (λ i, negb (bool_decide (i ∈ ids_in_db))) alternative_ids in
      raise (SpineDBAPIError [Lit "Alternative id(s) "; IntTuple missing_ids; Lit " not found"])
    else
      ret (map VInt (ids ++ ids_in_db)).

(** [_AlternativeFilterState.__init__]. *)
Definition new_AlternativeFilterState (original : subquery)
    (alternatives : option (list value)) : M _AlternativeFilterState :=
  match alternatives with
  | Some l =>
    do ids <- _alternative_ids l;
    ret {| alternative_original_parameter_value_sq := original; alternatives := Some ids |}
  | None =>
    ret {| alternative_original_parameter_value_sq := original; alternatives := None |}
  end.

Definition _make_scenario_filtered_parameter_value_sq
    (state : _ScenarioFilterState) : M subquery :=
  ret (scenario_filtered_sq (scenario_original_parameter_value_sq state) (scenario state)).

(** [in_] of [None] raises: [Anyone in None] is a [TypeError]. *)
Definition _make_alternative_filtered_parameter_value_sq
    (state : _AlternativeFilterState) : M subquery :=
  let subquery := alternative_original_parameter_value_sq state in
  match alternatives state with
  | None => raise TypeError
  | Some ids =>
    do cond <- in_ ids;
    ret (alternative_filtered_sq subquery cond)
  end.

(** The state of the scenario filter made over [original], the subquery
    that [_make_scenario_filtered_parameter_value_sq] builds from it, and
    its rows.  What the property [parameter_value_sq] of a mapping gives
    once the filter is applied is in [subquery_cache] below. *)
Definition scenario_filtered_view (original : subquery) (scenario : value)
    : M (list parameter_value_row) :=
  do state <- new_ScenarioFilterState original scenario;
  do sq <- _make_scenario_filtered_parameter_value_sq state;
  do db <- get;
  ret (all db sq).

(** The state of the alternative filter made over [original], the
    subquery that [_make_alternative_filtered_parameter_value_sq] builds
    from it, and its rows. *)
Definition alternative_filtered_view (original : subquery)
    (alternatives : option (list value)) : M (list parameter_value_row) :=
  do state <- new_AlternativeFilterState original alternatives;
  do sq <- _make_alternative_filtered_parameter_value_sq state;
  do db <- get;
  ret (all db sq).

End alternative_value_filter.

(** ** check_functions.py *)

Module check_functions.

(** An object class item as the check reads it: the keys ["name"] and
    ["type_id"], each present or not. *)
Record object_class_item := {
  oc_name : option string;
  oc_type_id : option Z }.

(** [check_object_class(item, current_items, object_class_type)];
    [current_items] maps the names of the object classes in the database to
    their ids. *)
Definition check_object_class (item : object_class_item)
    (current_items : gmap string Z) (object_class_type : Z) : result unit :=
  match oc_name item with
  | None =>
    Raise (SpineIntegrityError
      [Lit "Python KeyError: There is no dictionary key for the object class name. Probably a bug, please report."]
      None)
  | Some name =>
    if bool_decide (name = "") then
      Raise (SpineIntegrityError
        [Lit "Object class name is an empty string and therefore not valid"] None)
    else if match oc_type_id item with
            | Some type_id => negb (bool_decide (type_id = object_class_type))
            | None => false
            end then
      (* the argument [id=current_items[name]] is evaluated first *)
      match current_items !! name with
      | None => Raise KeyError
      | Some id =>
        Raise (SpineIntegrityError
          [Lit "Object class '"; Str name; Lit "' does not have a type_id of an object class."]
          (Some id))
      end
    else
      match current_items !! name with
      | Some id =>
        Raise (SpineIntegrityError
          [Lit "There can't be more than one object class called '"; Str name; Lit "'."]
          (Some id))
      | None => Ok ()
      end
  end.

(** A wide relationship item: the keys the check reads. *)
Record wide_relationship_item := {
  rel_name : option string;
  rel_class_id : option Z;
  rel_type_id : option Z;
  rel_object_id_list : option (list Z) }.

(** The wide relationship class items and the object items of the
    database, as the caller hands them over keyed by id. *)
Record wide_relationship_class_item := {
  rc_name : string;
  rc_object_class_id_list : list Z }.

Record object_item := {
  obj_class_id : Z;
  obj_name : string }.

(** [",".join(str(x) for x in l)]. *)
Fixpoint join_comma (l : list string) : string :=
  match l with
  | [] => ""
  | [x] => x
  | x :: t => x +:+ "," +:+ join_comma t
  end.

(** [[objects[id][key] for id in object_id_list]]: [None] when some id is
    not a key of [objects]. *)
Definition objects_column {A} (objects : gmap Z object_item)
    (column : object_item → A) (object_id_list : list Z) : option (list A) :=
  mapM (λ id, column <$> objects !! id) object_id_list.

(** [check_wide_relationship]. *)
Definition check_wide_relationship (wide_item : wide_relationship_item)
    (current_items_by_name : gmap (Z * string) Z)
    (current_items_by_obj_lst : gmap (Z * string) Z)
    (relationship_classes : gmap Z wide_relationship_class_item)
    (objects : gmap Z object_item)
    (relationship_entity_type : Z) : result unit :=
  match rel_name wide_item with
  | None =>
    Raise (SpineIntegrityError
      [Lit "Python KeyError: There is no dictionary key for the relationship name. Probably a bug, please report."]
      None)
  | Some name =>
  if bool_decide (name = "") then
    Raise (SpineIntegrityError
      [Lit "Relationship name is an empty string, which is not valid"] None)
  else
  match rel_class_id wide_item with
  | None =>
    Raise (SpineIntegrityError
      [Lit "Python KeyError: There is no dictionary key for the relationship class id of relationship '";
       Str name; Lit "'. Probably a bug, please report"] None)
  | Some class_id =>
  if match rel_type_id wide_item with
     | Some type_id => negb (bool_decide (type_id = relationship_entity_type))
     | None => false
     end then
    (* the argument [id=current_items_by_name[class_id, name]] is evaluated first *)
    match current_items_by_name !! (class_id, name) with
    | None => Raise KeyError
    | Some id =>
      Raise (SpineIntegrityError
        [Lit "Relationship '"; Str name; Lit "' does not have entity type of a relationship."]
        (Some id))
    end
  else
  match current_items_by_name !! (class_id, name) with
  | Some id =>
    Raise (SpineIntegrityError
      [Lit "There's already a relationship called '"; Str name; Lit "' in the same class."]
      (Some id))
  | None =>
  match relationship_classes !! class_id with
  | None =>
    Raise (SpineIntegrityError
      [Lit "There is no object class id list for relationship '"; Str name; Lit "'"] None)
  | Some relationship_class =>
  let object_class_id_list := rc_object_class_id_list relationship_class in
  match rel_object_id_list wide_item with
  | None =>
    Raise (SpineIntegrityError
      [Lit "There is no object id list for relationship '"; Str name; Lit "'"] None)
  | Some object_id_list =>
  match objects_column objects obj_class_id object_id_list with
  | None =>
    Raise (SpineIntegrityError
      [Lit "Some of the objects in relationship '"; Str name; Lit "' are invalid."] None)
  | Some given_object_class_id_list =>
  if negb (bool_decide (given_object_class_id_list = object_class_id_list)) then
    match objects_column objects obj_name object_id_list with
    | None => Raise KeyError
    | Some object_name_list =>
      let relationship_class_name := rc_name relationship_class in
      Raise (SpineIntegrityError
        [Lit "Incorrect objects '"; StrList object_name_list;
         Lit "' for relationship class '"; Str relationship_class_name; Lit "'."] None)
    end
  else
  let join_object_id_list := join_comma (map pretty object_id_list) in
  match current_items_by_obj_lst !! (class_id, join_object_id_list) with
  | Some id =>
    match objects_column objects obj_name object_id_list with
    | None => Raise KeyError
    | Some object_name_list =>
      let relationship_class_name := rc_name relationship_class in
      Raise (SpineIntegrityError
        [Lit "There's already a relationship between objects "; StrList object_name_list;
         Lit " in class "; Str relationship_class_name; Lit "."] (Some id))
    end
  | None => Ok ()
  end
  end
  end end end end end.

End check_functions.

(** ** db_mapping_commit_mixin.py *)

Module db_mapping_commit_mixin.

Record commit_row := {
  commit_id : Z;
  commit_user : string;
  commit_date : Z;
  commit_comment : string }.

(** The primary key the engine gives an inserted row: one more than the
    largest id of the table. *)
Definition inserted_primary_key (rows : list commit_row) : Z :=
  (foldr Z.max 0 (map commit_id rows) + 1)%Z.

Section mixin.
(** Statements and their parameter sets are opaque; the database records
    what is executed, in order. *)
Context {stmt item : Type}.

Record database := {
  commit : list commit_row;
  executed : list (stmt * list item) }.

(** A mapping with the mixin: [stored] is what the database holds
    committed, [connection] what the connection sees (with the changes of
    an open transaction); [_transaction] is [None] or the transaction, of
    which only [is_active] matters; [_commit_id] is unset until the first
    transaction starts. *)
Record mapping := {
  username : string;
  stored : database;
  connection : database;
  _transaction : option bool;
  _commit_id : option Z }.

(** [__init__] over a database. *)
Definition new (user : string) (db : database) : mapping :=
  {| username := user; stored := db; connection := db;
     _transaction := None; _commit_id := None |}.

Definition has_pending_changes (m : mapping) : bool :=
  match _transaction m with
  | Some is_active => is_active
  | None => false
  end.

Definition _start_new_transaction (date : Z) (m : mapping) : mapping :=
  let user := username m in
  let id := inserted_primary_key (commit (connection m)) in
  let ins := {| commit_id := id; commit_user := user; commit_date := date;
                commit_comment := "" |} in
  {| username := username m;
     stored := stored m;
     connection := {| commit := commit (connection m) ++ [ins];
                      executed := executed (connection m) |};
     _transaction := Some true;
     _commit_id := Some id |}.

Definition execute (s : stmt) (items : list item) (m : mapping) : mapping :=
  {| username := username m;
     stored := stored m;
     connection := {| commit := commit (connection m);
                      executed := executed (connection m) ++ [(s, items)] |};
     _transaction := _transaction m;
     _commit_id := _commit_id m |}.

Definition _checked_execute (s : stmt) (items : list item) (date : Z)
    (m : mapping) : mapping :=
  match items with
  | [] => m
  | _ =>
    let m := if has_pending_changes m then m else _start_new_transaction date m in
    execute s items m
  end.

(** [commit.update().where(commit.c.id == id).values(...)]. *)
Definition update_commit (id : Z) (user : string) (date : Z) (comment : string)
    (rows : list commit_row) : list commit_row :=
  map (λ r, if bool_decide (commit_id r = id)
            then {| commit_id := commit_id r; commit_user := user;
                    commit_date := date; commit_comment := comment |}
            else r) rows.

Definition commit_session (comment : string) (date : Z) (m : mapping)
    : result unit * mapping :=
  if negb (has_pending_changes m) then
    (Raise (SpineDBAPIError [Lit "Nothing to commit."]), m)
  else
    match _commit_id m with
    | None => (Raise AttributeError, m)
    | Some id =>
      let user := username m in
      let db := {| commit := update_commit id user date comment (commit (connection m));
                   executed := executed (connection m) |} in
      (Ok (), {| username := username m; stored := db; connection := db;
                 _transaction := Some false; _commit_id := _commit_id m |})
    end.

Definition rollback_session (m : mapping) : result unit * mapping :=
  if negb (has_pending_changes m) then
    (Raise (SpineDBAPIError [Lit "Nothing to rollback."]), m)
  else
    (Ok (), {| username := username m; stored := stored m; connection := stored m;
               _transaction := Some false; _commit_id := _commit_id m |}).

(** The calls a client makes on the mapping, and a session as their
    sequence; a call that raises leaves the mapping as it found it. *)
Inductive call :=
| Checked_execute (s : stmt) (items : list item) (date : Z)
| Commit_session (comment : string) (date : Z)
| Rollback_session.

Definition step (m : mapping) (c : call) : mapping :=
  match c with
  | Checked_execute s items date => _checked_execute s items date m
  | Commit_session comment date => (commit_session comment date m).2
  | Rollback_session => (rollback_session m).2
  end.

Definition run (m : mapping) (calls : list call) : mapping := foldl step m calls.

(** Whether a write is pending after a sequence of calls: some call since
    the last commit or rollback wrote at least one item. *)
Definition writes_pending_step (pending : bool) (c : call) : bool :=
  match c with
  | Checked_execute _ items _ => pending || negb (bool_decide (length items = 0))
  | Commit_session _ _ => false
  | Rollback_session => false
  end.

Definition writes_pending (calls : list call) : bool :=
  foldl writes_pending_step false calls.

End mixin.

Arguments database : clear implicits.
Arguments mapping : clear implicits.
Arguments call : clear implicits.

End db_mapping_commit_mixin.

(** ** diff_db_mapping.py *)

Module diff_db_mapping.

(** An item: a dictionary from column names to values. *)
Abbreviation item := (gmap string value).

(** [self.table_ids] of [DatabaseMappingBase]. *)
Definition table_ids : gmap string string :=
  list_to_map
    [ ("relationship_entity_class", "entity_class_id");
      ("object_class", "entity_class_id");
      ("relationship_class", "entity_class_id");
      ("object", "entity_id");
      ("relationship", "entity_id");
      ("relationship_entity", "entity_id") ].

(** The dictionary at the head of [_update_items]. *)
Definition real_tablenames : gmap string string :=
  list_to_map
    [ ("object_class", "entity_class");
      ("relationship_class", "entity_class");
      ("object", "entity");
      ("relationship", "entity") ].

(** The staging state of a [DiffDatabaseMapping]: the tracked id sets and
    the rows of the diff tables, all keyed by table name (a table without
    an entry has the empty set, or no rows), and whether a transaction is
    open. *)
Record diff_db_map := {
  added_item_id : gmap string (gset value);
  updated_item_id : gmap string (gset value);
  dirty_item_id : gmap string (gset value);
  diff_tables : gmap string (list item);
  has_pending_changes : bool }.

Definition set_diff_table (tablename : string) (rows : list item)
    (st : diff_db_map) : diff_db_map :=
  {| added_item_id := added_item_id st;
     updated_item_id := updated_item_id st;
     dirty_item_id := dirty_item_id st;
     diff_tables := <[tablename := rows]> (diff_tables st);
     has_pending_changes := true |}.

(** *** The statements of [_do_update_items], as the engine runs them *)

(** Whether an item binds every parameter of the statement. *)
Definition binds (keys : list string) (it : item) : bool :=
  forallb (λ k, bool_decide (is_Some (it !! k))) keys.

(** The [where] clauses: the row equals the item on every primary key
    column (a null equals nothing). *)
Definition matches (pk : list string) (it row : item) : bool :=
  forallb (λ k, match row !! k, it !! k with
                | Some a, Some b => bool_decide (a = b) && negb (bool_decide (a = VNone))
                | _, _ => false
                end) pk.

(** [values({key: bindparam(key) for key in cols})] on a matching row. *)
Definition update_row (pk : list string) (cols : gset string) (it row : item) : item :=
  if matches pk it row then filter (λ kv, kv.1 ∈ cols) it ∪ row else row.

(** The update, run once per item. *)
Definition execute_update (pk : list string) (cols : gset string)
    (items : list item) (rows : list item) : result (list item) :=
  if forallb (binds (pk ++ elements cols)) items then
    Ok (foldl (λ rows it, map (update_row pk cols it) rows) rows items)
  else Raise StatementError.

(** The insert: the items become rows. *)
Definition execute_insert (items : list item) (rows : list item) : list item :=
  rows ++ items.

Section mapping.
(** Methods of the mixins and the base class that are not among the
    sources: [_items_with_type_id], [_get_primary_key], and the column
    names of a diff table. *)
Variable _items_with_type_id : string → list item → list item.
Variable _get_primary_key : string → list string.
Variable columns : string → gset string.

Definition id_field (tablename : string) : string :=
  default "id" (table_ids !! tablename).

(** The loop of [_get_items_for_update_and_insert]; [in_diff] is
    [self.added_item_id[tablename] | self.updated_item_id[tablename]]. *)
Fixpoint _get_items_loop (in_diff : gset value) (id_field : string)
    (checked_items : list item)
    (acc : list item * list item * gset value * gset value)
    : result (list item * list item * gset value * gset value) :=
  match checked_items with
  | [] => Ok acc
  | it :: rest =>
    match it !! id_field with
    | None => Raise KeyError
    | Some id_ =>
      let '(items_for_update, items_for_insert, dirty_ids, updated_ids) := acc in
      let updated_ids := updated_ids ∪ {[id_]} in
      if bool_decide (id_ ∈ in_diff) then
        _get_items_loop in_diff id_field rest
          (items_for_update ++ [it], items_for_insert, dirty_ids, updated_ids)
      else
        _get_items_loop in_diff id_field rest
          (items_for_update, items_for_insert ++ [it], dirty_ids ∪ {[id_]}, updated_ids)
    end
  end.

Definition _get_items_for_update_and_insert (st : diff_db_map)
    (tablename : string) (checked_items : list item)
    : result (list item * list item * gset value * gset value) :=
  _get_items_loop
    ((added_item_id st !!! tablename) ∪ (updated_item_id st !!! tablename))
    (id_field tablename) checked_items ([], [], ∅, ∅).

(** [_checked_execute] of an update or an insert on a diff table: nothing
    happens without items. *)
Definition _do_update_items (tablename : string)
    (items_for_update items_for_insert : list item) (st : diff_db_map)
    : result diff_db_map :=
  let updated :=
    match items_for_update with
    | [] => Ok st
    | first :: _ =>
      let pk := _get_primary_key tablename in
      let cols := columns tablename ∩ dom first in
      match execute_update pk cols items_for_update (diff_tables st !!! tablename) with
      | Ok rows => Ok (set_diff_table tablename rows st)
      | Raise e => Raise e
      end
    end in
  match updated with
  | Raise e => Raise e
  | Ok st =>
    match items_for_insert with
    | [] => Ok st
    | _ => Ok (set_diff_table tablename
                 (execute_insert items_for_insert (diff_tables st !!! tablename)) st)
    end
  end.

(** Modelled from the spec: [_mark_as_dirty] belongs to the diff mapping
    base class, which is not among the sources; by the staging layer's
    description the dirty set of a table collects the ids whose original
    rows are superseded, so the ids are added to it. *)
Definition _mark_as_dirty (tablename : string) (ids : gset value)
    (st : diff_db_map) : diff_db_map :=
  {| added_item_id := added_item_id st;
     updated_item_id := updated_item_id st;
     dirty_item_id :=
       <[tablename := (dirty_item_id st !!! tablename) ∪ ids]> (dirty_item_id st);
     diff_tables := diff_tables st;
     has_pending_changes := has_pending_changes st |}.

(** [self.updated_item_id[tablename].update(ids)]. *)
Definition update_updated_item_id (tablename : string) (ids : gset value)
    (st : diff_db_map) : diff_db_map :=
  {| added_item_id := added_item_id st;
     updated_item_id :=
       <[tablename := (updated_item_id st !!! tablename) ∪ ids]> (updated_item_id st);
     dirty_item_id := dirty_item_id st;
     diff_tables := diff_tables st;
     has_pending_changes := has_pending_changes st |}.

(** [_update_items]; an exception leaves the state as it was. *)
Definition _update_items (tablename : string) (items : list item)
    (st : diff_db_map) : result (gset value) * diff_db_map :=
  let real_tablename := default tablename (real_tablenames !! tablename) in
  let items := _items_with_type_id tablename items in
  match _get_items_for_update_and_insert st real_tablename items with
  | Raise e => (Raise e, st)
  | Ok (items_for_update, items_for_insert, dirty_ids, updated_ids) =>
    match _do_update_items real_tablename items_for_update items_for_insert st with
    | Raise e => (Raise e, st)
    | Ok st =>
      let st := _mark_as_dirty real_tablename dirty_ids st in
      let st := update_updated_item_id real_tablename dirty_ids st in
      (Ok updated_ids, st)
    end
  end.

End mapping.

End diff_db_mapping.

(** ** _add_diff_database_mapping.py *)

Module add_diff_database_mapping.

(** The row of the [next_id] table; of its counters only the one of the
    object classes is kept, null or a number. *)
Record next_id_row := {
  next_id_user : string;
  next_id_date : Z;
  object_class_id : option Z }.

Record object_class_row := {
  id : Z;
  name : string }.

Record tables := {
  next_id : list next_id_row;
  object_class : list object_class_row;
  diff_object_class : list (gmap string value) }.

(** The mapping: [stored] is what the database holds committed,
    [session] what the session sees; [flushes] and [writes] count the
    attempts made so far at the two operations that can fail. *)
Record mapping := {
  username : string;
  stored : tables;
  session : tables;
  new_item_id : gmap string (gset Z);
  flushes : nat;
  writes : nat }.

(** The truth value of a nullable number. *)
Definition truthy (x : option Z) : bool :=
  match x with
  | Some z => negb (bool_decide (z = 0%Z))
  | None => false
  end.

(** [func.max(ObjectClass.id)]: null over no rows. *)
Definition max_id (rows : list object_class_row) : option Z :=
  match rows with
  | [] => None
  | r :: rest => Some (foldr Z.max (id r) (map id rest))
  end.

Section allocator.
(** The engine decides whether the n-th flush, and the n-th insert and
    commit, succeed. *)
Variable flush_ok : nat → bool.
Variable write_ok : nat → bool.

Definition with_session (t : tables) (flushes' writes' : nat) (m : mapping) : mapping :=
  {| username := username m; stored := stored m; session := t;
     new_item_id := new_item_id m; flushes := flushes'; writes := writes' |}.

Definition next_id_with_lock (date : Z) (m : mapping) : result next_id_row * mapping :=
  match next_id (session m) with
  | _ :: _ :: _ => (Raise MultipleResultsFound, m)
  | rows =>
    let next_id :=
      match rows with
      | row :: _ =>
        {| next_id_user := username m; next_id_date := date;
           object_class_id := object_class_id row |}
      | [] =>
        {| next_id_user := username m; next_id_date := date;
           object_class_id := None |}
      end in
    if flush_ok (flushes m) then
      (Ok next_id,
       with_session {| next_id := [next_id];
                       object_class := object_class (session m);
                       diff_object_class := diff_object_class (session m) |}
         (S (flushes m)) (writes m) m)
    else
      (* session.rollback() *)
      (Raise (SpineDBAPIError [Lit "Unable to get next id: "; OrigArgs]),
       with_session (stored m) (S (flushes m)) (writes m) m)
  end.

Definition _add_object_classes (kwargs_list : list (gmap string value)) (date : Z)
    (m : mapping) : result (gset Z) * mapping :=
  match next_id_with_lock date m with
  | (Raise e, m) => (Raise e, m)
  | (Ok next_id, m) =>
    let id :=
      if truthy (object_class_id next_id) then default 0%Z (object_class_id next_id)
      else
        let max_id := max_id (object_class (session m)) in
        if truthy max_id then (default 0 max_id + 1)%Z else 1%Z in
    let id_list : gset Z := list_to_set (seqZ id (Z.of_nat (length kwargs_list))) in
    let item_list := imap (λ i kwargs, <["id" := VInt (id + Z.of_nat i)%Z]> kwargs) kwargs_list in
    let id := (id + Z.of_nat (length kwargs_list))%Z in
    if write_ok (writes m) then
      let t := {| next_id :=
                    [{| next_id_user := next_id_user next_id;
                        next_id_date := next_id_date next_id;
                        object_class_id := Some id |}];
                  object_class := object_class (session m);
                  diff_object_class := diff_object_class (session m) ++ item_list |} in
      (Ok id_list,
       {| username := username m; stored := t; session := t;
          new_item_id :=
            <["object_class" := (new_item_id m !!! "object_class") ∪ id_list]> (new_item_id m);
          flushes := flushes m; writes := S (writes m) |})
    else
      (Raise (SpineDBAPIError [Lit "DBAPIError while inserting object classes: "; OrigArgs]),
       with_session (stored m) (flushes m) (S (writes m)) m)
  end.

End allocator.

(** The counter the database holds for the object classes. *)
Definition persisted_counter (m : mapping) : option Z :=
  match next_id (stored m) with
  | row :: _ => object_class_id row
  | [] => None
  end.


End add_diff_database_mapping.

(** * Part II: properties *)

(** ** Construction of the mapping *)

Section create_mapping_properties.
Import db_mapping_base.
Context {mapped : Type}.
Implicit Types (classes attrs : gmap string mapped).

Lemma create_mapping_fold classes (l : list (string * string)) attrs not_found :
  (foldl (_create_mapping_step classes) (attrs, not_found) l).2
  = not_found ++ List.filter (λ t, bool_decide (classes !! t = None)) (l.*1).
Proof.
  revert attrs not_found.
  induction l as [|[t c] l IH]; intros attrs not_found; simpl.
  - by rewrite app_nil_r.
  - unfold _create_mapping_step at 2; simpl.
    destruct (classes !! t) as [x|] eqn:E; simpl.
    + by rewrite IH.
    + rewrite IH. by rewrite <- app_assoc.
Qed.

Lemma table_to_class_NoDup : NoDup (table_to_class.*1).
Proof. apply (bool_decide_unpack _). vm_compute. exact I. Qed.

Lemma filter_NoDup {A} (f : A → bool) (l : list A) : NoDup l → NoDup (List.filter f l).
Proof.
  induction 1 as [|x l Hx Hl IH]; simpl; [constructor|].
  destruct (f x); [|done].
  constructor; [|done].
  rewrite list_elem_of_In, filter_In, <- list_elem_of_In. tauto.
Qed.

(** C8: over a schema that lacks required tables, [_create_mapping] raises
    one [SpineTableNotFoundError], and the error carries every missing table,
    once each, not only the first one met. *)
Theorem create_mapping_names_every_missing_table classes db_url attrs :
  (∃ t, t ∈ table_to_class.*1 ∧ classes !! t = None) →
  _create_mapping classes db_url attrs
    = Raise (SpineTableNotFoundError (missing_tables classes) db_url)
  ∧ (∀ t, t ∈ table_to_class.*1 → classes !! t = None → t ∈ missing_tables classes)
  ∧ NoDup (missing_tables classes).
Proof.
  intros (t & Ht & Hnone).
  pose proof table_to_class_NoDup as Hnodup.
  unfold _create_mapping, missing_tables.
  rewrite create_mapping_fold.
  revert Ht Hnodup. generalize table_to_class. intros tables Ht Hnodup.
  change ([] ++ ?l) with l.
  assert (Hall : ∀ t, t ∈ tables.*1 → classes !! t = None →
                      t ∈ List.filter (λ t, bool_decide (classes !! t = None)) (tables.*1)).
  { intros t' Hin Hn.
    rewrite list_elem_of_In, filter_In, <- list_elem_of_In.
    split; [exact Hin|]. by apply bool_decide_eq_true_2. }
  split; [|split; [exact Hall|]].
  - specialize (Hall t Ht Hnone).
    destruct (List.filter _ _) as [|x l]; [|reflexivity].
    by apply elem_of_nil in Hall.
  - by apply filter_NoDup.
Qed.

End create_mapping_properties.

(** A schema with every required table but [scenario] and [tool]. *)
Definition stale_schema : gmap string unit :=
  delete "tool" (delete "scenario" (list_to_map ((λ tc, (tc.1, ())) <$> db_mapping_base.table_to_class))).

Lemma create_mapping_names_every_missing_table_witness :
  (∃ t, t ∈ db_mapping_base.table_to_class.*1 ∧ stale_schema !! t = None)
  ∧ db_mapping_base._create_mapping stale_schema "sqlite://" ∅
    = Raise (SpineTableNotFoundError ["scenario"; "tool"] "sqlite://").
Proof.
  assert (H : ∃ t, t ∈ db_mapping_base.table_to_class.*1 ∧ stale_schema !! t = None).
  { exists "tool". split; [|reflexivity].
    apply (bool_decide_unpack _). vm_compute. exact I. }
  split; [exact H|].
  destruct (create_mapping_names_every_missing_table stale_schema "sqlite://" ∅ H)
    as [E _].
  rewrite E. reflexivity.
Defined.

(** ** The integrity checks *)

Section check_properties.
Import check_functions.

(** C10, amended: an object class item with a non-empty name that is not
    among the existing object classes and with a [type_id] other than the
    object class type makes [check_object_class] end in a [KeyError]: the
    integrity error of that branch is never built, because its argument
    [current_items[name]] is looked up first. *)
Theorem check_object_class_wrong_type_key_error
    (item : object_class_item) (current_items : gmap string Z)
    (object_class_type : Z) (name : string) (type_id : Z) :
  oc_name item = Some name →
  name ≠ "" →
  oc_type_id item = Some type_id →
  type_id ≠ object_class_type →
  current_items !! name = None →
  check_object_class item current_items object_class_type = Raise KeyError.
Proof.
  intros Hname Hne Htype Hty Hcur.
  unfold check_object_class.
  rewrite Hname, Htype, Hcur.
  rewrite (bool_decide_eq_false_2 _ Hne), (bool_decide_eq_false_2 _ Hty).
  reflexivity.
Qed.

(** Whenever the name is there and is new, and the [type_id] is absent or
    right, the item is accepted. *)
Lemma check_object_class_accepts
    (item : object_class_item) (current_items : gmap string Z)
    (object_class_type : Z) (name : string) :
  oc_name item = Some name →
  name ≠ "" →
  (oc_type_id item = None ∨ oc_type_id item = Some object_class_type) →
  current_items !! name = None →
  check_object_class item current_items object_class_type = Ok ().
Proof.
  intros Hname Hne Htype Hcur.
  unfold check_object_class.
  rewrite Hname, Hcur, (bool_decide_eq_false_2 _ Hne).
  destruct Htype as [-> | ->]; [reflexivity|].
  by rewrite bool_decide_eq_true_2.
Qed.

End check_properties.

(** An object class item with a foreign [type_id] and the empty name. *)
Definition unnamed_foreign_class : check_functions.object_class_item :=
  {| check_functions.oc_name := Some ""; check_functions.oc_type_id := Some 2%Z |}.

(** An object class item with a foreign [type_id] and a new name. *)
Definition foreign_class : check_functions.object_class_item :=
  {| check_functions.oc_name := Some "fish"; check_functions.oc_type_id := Some 2%Z |}.

Lemma check_object_class_wrong_type_key_error_witness :
  check_functions.check_object_class foreign_class ∅ 1 = Raise KeyError.
Proof.
  apply (check_object_class_wrong_type_key_error foreign_class ∅ 1 "fish" 2);
    [reflexivity | discriminate | reflexivity | lia | reflexivity].
Defined.

(** C10 as stated fails on the empty name: the name is not among the
    existing classes and the [type_id] is foreign, yet the call ends in the
    integrity error of the empty-name guard, not in a [KeyError]. *)
Lemma check_object_class_empty_name_counterexample :
  check_functions.oc_name unnamed_foreign_class = Some ""
  ∧ check_functions.oc_type_id unnamed_foreign_class = Some 2%Z
  ∧ 2%Z ≠ 1%Z
  ∧ (∅ : gmap string Z) !! "" = None
  ∧ check_functions.check_object_class unnamed_foreign_class ∅ 1
    = Raise (SpineIntegrityError
        [Lit "Object class name is an empty string and therefore not valid"] None)
  ∧ check_functions.check_object_class unnamed_foreign_class ∅ 1 ≠ Raise KeyError.
Proof.
  repeat split; try reflexivity; try lia; discriminate.
Qed.

Section check_wide_relationship_properties.
Import check_functions.

Implicit Types (wide_item : wide_relationship_item)
  (relationship_classes : gmap Z wide_relationship_class_item)
  (objects : gmap Z object_item).

(** The names of the objects are found whenever their classes are. *)
Lemma objects_column_some {A B} objects (f : object_item → A) (g : object_item → B)
    (ids : list Z) (l : list A) :
  objects_column objects f ids = Some l → is_Some (objects_column objects g ids).
Proof.
  unfold objects_column. revert l.
  induction ids as [|i ids IH]; intros l H; [by eexists|].
  cbn in H |- *.
  destruct (objects !! i) as [o|]; cbn in H |- *; [|done].
  destruct (mapM (λ id, f <$> objects !! id) ids) as [l'|] eqn:E; cbn in H; [|done].
  destruct (IH l' eq_refl) as [l'' ->]. by eexists.
Qed.

(** A relationship item whose objects' classes differ from the member
    classes of its relationship class is never accepted. *)
Lemma check_wide_relationship_mismatch_rejected
    wide_item by_name by_obj_lst relationship_classes objects entity_type
    class_id relationship_class object_id_list given :
  rel_class_id wide_item = Some class_id →
  relationship_classes !! class_id = Some relationship_class →
  rel_object_id_list wide_item = Some object_id_list →
  objects_column objects obj_class_id object_id_list = Some given →
  given ≠ rc_object_class_id_list relationship_class →
  check_wide_relationship wide_item by_name by_obj_lst relationship_classes
    objects entity_type ≠ Ok ().
Proof.
  intros Hclass Hrc Hids Hgiven Hne.
  destruct (objects_column_some objects obj_class_id obj_name _ _ Hgiven) as [names Hnames].
  unfold check_wide_relationship.
  rewrite Hclass, Hrc, Hids, Hgiven, Hnames.
  rewrite (bool_decide_eq_false_2 _ Hne). simpl.
  repeat case_match; discriminate.
Qed.

(** With the [type_id] absent or right, the rejection is an integrity
    error. *)
Lemma check_wide_relationship_mismatch_integrity_error
    wide_item by_name by_obj_lst relationship_classes objects entity_type
    class_id relationship_class object_id_list given :
  rel_class_id wide_item = Some class_id →
  relationship_classes !! class_id = Some relationship_class →
  rel_object_id_list wide_item = Some object_id_list →
  objects_column objects obj_class_id object_id_list = Some given →
  given ≠ rc_object_class_id_list relationship_class →
  (rel_type_id wide_item = None ∨ rel_type_id wide_item = Some entity_type) →
  is_integrity_error
    (check_wide_relationship wide_item by_name by_obj_lst relationship_classes
       objects entity_type) = true.
Proof.
  intros Hclass Hrc Hids Hgiven Hne Htype.
  destruct (objects_column_some objects obj_class_id obj_name _ _ Hgiven) as [names Hnames].
  unfold check_wide_relationship.
  rewrite Hclass, Hrc, Hids, Hgiven, Hnames.
  rewrite (bool_decide_eq_false_2 _ Hne). simpl.
  destruct Htype as [-> | ->].
  - repeat case_match; reflexivity.
  - rewrite bool_decide_eq_true_2 by done. simpl.
    repeat case_match; reflexivity.
Qed.

End check_wide_relationship_properties.

(** A relationship between a fish and a dog, its objects given in the
    wrong order and its [type_id] not the one of relationships. *)
Definition pluto_nemo : check_functions.wide_relationship_item :=
  {| check_functions.rel_name := Some "pluto_nemo";
     check_functions.rel_class_id := Some 3%Z;
     check_functions.rel_type_id := Some 99%Z;
     check_functions.rel_object_id_list := Some [11; 10]%Z |}.

Definition fish_dog_classes : gmap Z check_functions.wide_relationship_class_item :=
  {[ 3%Z := {| check_functions.rc_name := "fish__dog";
               check_functions.rc_object_class_id_list := [1; 2]%Z |} ]}.

Definition fish_dog_objects : gmap Z check_functions.object_item :=
  {[ 10%Z := {| check_functions.obj_class_id := 1%Z; check_functions.obj_name := "nemo" |};
     11%Z := {| check_functions.obj_class_id := 2%Z; check_functions.obj_name := "pluto" |} ]}.

(** C2 at the failing input: the objects' classes are [2; 1] where the
    relationship class has [1; 2], and the check ends in a [KeyError], which
    is not an integrity error. *)
Theorem check_wide_relationship_reordered_key_error :
  check_functions.objects_column fish_dog_objects check_functions.obj_class_id [11; 10]%Z
    = Some [2; 1]%Z
  ∧ check_functions.check_wide_relationship pluto_nemo ∅ ∅ fish_dog_classes
      fish_dog_objects 2 = Raise KeyError
  ∧ is_integrity_error
      (check_functions.check_wide_relationship pluto_nemo ∅ ∅ fish_dog_classes
         fish_dog_objects 2) = false.
Proof. repeat split; vm_compute; reflexivity. Qed.

(** ** The alternative and scenario filters *)

Section alternative_filter_properties.
Import db_mapping_base alternative_value_filter.

Lemma filter_none {A} (l : list A) : List.filter (λ _, false) l = [].
Proof. by induction l. Qed.

Lemma in_nil (db : db_map) : in_ [] db = (Ok sql_false, db).
Proof.
  unfold in_. by rewrite bool_decide_eq_false_2 by apply not_elem_of_nil.
Qed.

(** X25: with the empty list of alternatives, [in_] gives the filter that
    holds of nothing, and the subquery that the maker of the alternative
    filter builds has no row, whatever the database holds and whatever
    subquery was in place. *)
Theorem alternative_filter_of_no_alternatives_is_empty
    (db : db_map) (original : subquery) :
  in_ [] db = (Ok sql_false, db)
  ∧ (∀ v, holds db sql_false v = false)
  ∧ alternative_filtered_view original (Some []) db = (Ok [], db).
Proof.
  split; [apply in_nil|]. split; [done|].
  unfold alternative_filtered_view, new_AlternativeFilterState, _alternative_ids,
    _make_alternative_filtered_parameter_value_sq, bind, ret, get.
  cbn [omap list_omap map]. rewrite in_nil.
  rewrite filter_none. cbn [map length Nat.eqb negb app alternatives
    alternative_original_parameter_value_sq].
  rewrite in_nil. rewrite filter_none. cbn [map length Nat.eqb negb app alternatives
    alternative_original_parameter_value_sq].
  rewrite in_nil. cbn [all holds]. by rewrite filter_none.
Qed.

End alternative_filter_properties.

(** *** Facts on lists used below *)

Section list_facts.
Context {A B : Type}.

Lemma filter_elem_of (f : A → bool) (l : list A) (x : A) :
  x ∈ List.filter f l ↔ x ∈ l ∧ f x = true.
Proof. rewrite !list_elem_of_In. apply filter_In. Qed.

Lemma map_elem_of (f : A → B) (l : list A) (y : B) :
  y ∈ map f l ↔ ∃ x, f x = y ∧ x ∈ l.
Proof.
  rewrite list_elem_of_In, in_map_iff.
  by setoid_rewrite list_elem_of_In.
Qed.

Lemma map_filter_NoDup (key : A → B) (f : A → bool) (l : list A) :
  NoDup (map key l) → NoDup (map key (List.filter f l)).
Proof.
  induction l as [|a l IH]; simpl; intros H; [done|].
  apply NoDup_cons in H as [H1 H2].
  destruct (f a); simpl; [|by apply IH].
  apply NoDup_cons. split; [|by apply IH].
  intros (x & Hx & Hin)%map_elem_of. apply H1.
  apply map_elem_of. exists x. split; [done|].
  by apply filter_elem_of in Hin as [? _].
Qed.

Context `{EqDecision B}.

(** Looking up the wanted keys in rows with distinct keys: a wanted key
    that no row has makes the rows found fewer than the keys wanted. *)
Lemma found_fewer (key : A → B) (rows : list A) (wanted : list B) (x : B) :
  NoDup (map key rows) →
  x ∈ wanted →
  x ∉ map key rows →
  length (List.filter (λ r, bool_decide (key r ∈ wanted)) rows) < length wanted.
Proof.
  intros Hnd Hx Hnot.
  set (found := List.filter _ rows).
  assert (Hsub : x :: map key found ⊆+ wanted).
  { apply NoDup_submseteq.
    - apply NoDup_cons. split; [|by apply map_filter_NoDup].
      intros (r & Hr & Hin)%map_elem_of. apply Hnot.
      apply map_elem_of. exists r. split; [done|].
      by apply filter_elem_of in Hin as [? _].
    - intros y [->|Hy]%elem_of_cons; [done|].
      apply map_elem_of in Hy as (r & <- & Hin).
      apply filter_elem_of in Hin as [_ Hin]. by apply bool_decide_eq_true in Hin. }
  apply submseteq_length in Hsub. simpl in Hsub.
  rewrite length_map in Hsub. lia.
Qed.

(** And when the wanted keys are distinct and all there, as many rows are
    found as keys are wanted. *)
Lemma found_all (key : A → B) (rows : list A) (wanted : list B) :
  NoDup (map key rows) →
  NoDup wanted →
  (∀ x, x ∈ wanted → x ∈ map key rows) →
  length (List.filter (λ r, bool_decide (key r ∈ wanted)) rows) = length wanted.
Proof.
  intros Hnd Hw Hall.
  set (found := List.filter _ rows).
  assert (H1 : map key found ⊆+ wanted).
  { apply NoDup_submseteq; [by apply map_filter_NoDup|].
    intros y (r & <- & Hin)%map_elem_of.
    apply filter_elem_of in Hin as [_ Hin]. by apply bool_decide_eq_true in Hin. }
  assert (H2 : wanted ⊆+ map key found).
  { apply NoDup_submseteq; [done|].
    intros y Hy. pose proof (Hall y Hy) as Hr.
    apply map_elem_of in Hr as (r & <- & Hin).
    apply map_elem_of. exists r. split; [done|].
    apply filter_elem_of. split; [done|]. by apply bool_decide_eq_true. }
  apply submseteq_length in H1. apply submseteq_length in H2.
  rewrite length_map in H1, H2. lia.
Qed.

End list_facts.

(** *** Resolution of the alternatives *)

(** The names and ids an error message lists. *)
Definition reported_names (e : exn) : list string :=
  match e with
  | SpineDBAPIError msg =>
    flat_map (λ part, match part with StrTuple l => l | _ => [] end) msg
  | _ => []
  end.

Definition reported_ids (e : exn) : list Z :=
  match e with
  | SpineDBAPIError msg =>
    flat_map (λ part, match part with IntTuple l => l | _ => [] end) msg
  | _ => []
  end.

(** The names, and the ids, of a list of alternatives that the database
    does not have. *)
Definition unresolved_names (db : db_mapping_base.db_map) (alternatives : list value)
    : list string :=
  List.filter
    (λ name, negb (bool_decide
       (name ∈ map db_mapping_base.alternative_name (db_mapping_base.alternative_sq db))))
    (omap as_str alternatives).

Definition unresolved_ids (db : db_mapping_base.db_map) (alternatives : list value)
    : list Z :=
  List.filter
    (λ i, negb (bool_decide
       (i ∈ map db_mapping_base.alternative_id (db_mapping_base.alternative_sq db))))
    (omap as_int alternatives).

(** The rows of [ids_for_in] belong to clauses already counted. *)
Definition ids_for_in_fresh (db : db_mapping_base.db_map) : Prop :=
  ∀ r, r ∈ db_mapping_base.ids_for_in db →
       r.1 ≤ db_mapping_base._ids_for_in_clause_id db.

Section alternative_ids_properties.
Import db_mapping_base alternative_value_filter.

Lemma filter_all {A} (f : A → bool) (l : list A) :
  (∀ x, x ∈ l → f x = true) → List.filter f l = l.
Proof.
  induction l as [|a l IH]; intros H; simpl; [done|].
  rewrite (H a) by apply list_elem_of_here.
  f_equal. apply IH. intros x Hx. apply H. by apply list_elem_of_further.
Qed.

Lemma filter_nothing {A} (f : A → bool) (l : list A) :
  (∀ x, x ∈ l → f x = false) → List.filter f l = [].
Proof.
  induction l as [|a l IH]; intros H; simpl; [done|].
  rewrite (H a) by apply list_elem_of_here.
  apply IH. intros x Hx. apply H. by apply list_elem_of_further.
Qed.

(** What [in_] gives without the wildcard among the ids: a filter that holds
    of exactly the ids, with the tables untouched. *)
Lemma in__spec (db : db_map) (ids : list value) :
  Anyone ∉ ids →
  ids_for_in_fresh db →
  ∃ cond db',
    in_ ids db = (Ok cond, db')
    ∧ ids_for_in_fresh db'
    ∧ alternative_sq db' = alternative_sq db
    ∧ ∀ v, holds db' cond v = bool_decide (v ∈ ids).
Proof.
  intros Hany Hfresh. unfold in_.
  rewrite (bool_decide_eq_false_2 _ Hany).
  destruct ids as [|i ids].
  - exists sql_false, db. split; [done|]. split; [done|]. split; [done|].
    intros v. symmetry. apply bool_decide_eq_false_2, not_elem_of_nil.
  - eexists _, _. split; [reflexivity|].
    set (n := S (_ids_for_in_clause_id db)).
    set (new := map (λ id_, (n, id_)) (i :: ids)).
    assert (Hold : List.filter (λ r : nat * value, Nat.eqb r.1 n) (ids_for_in db) = []).
    { apply filter_nothing. intros r Hr. apply Hfresh in Hr.
      apply Nat.eqb_neq. unfold n. lia. }
    assert (Hnew : List.filter (λ r : nat * value, Nat.eqb r.1 n) new = new).
    { apply filter_all. intros r (x & <- & _)%map_elem_of. apply Nat.eqb_refl. }
    split; [|split; [done|]].
    + intros r. simpl. intros [Hr|Hr]%elem_of_app.
      * apply Hfresh in Hr. lia.
      * apply map_elem_of in Hr as (x & <- & _). simpl. lia.
    + intros v. unfold holds. cbn [ids_for_in].
      rewrite List.filter_app, Hold, Hnew. cbn [app].
      unfold new. rewrite map_map. cbn [snd]. by rewrite map_id.
Qed.

Lemma omap_as_str_no_Anyone (l : list string) : Anyone ∉ map VStr l.
Proof. by intros (x & ? & _)%map_elem_of. Qed.

Lemma omap_as_int_no_Anyone (l : list Z) : Anyone ∉ map VInt l.
Proof. by intros (x & ? & _)%map_elem_of. Qed.

Lemma elem_of_map_VStr (x : string) (l : list string) : VStr x ∈ map VStr l ↔ x ∈ l.
Proof.
  rewrite map_elem_of. split; [by intros (y & [= ->] & ?)|]. intros; by exists x.
Qed.

Lemma elem_of_map_VInt (x : Z) (l : list Z) : VInt x ∈ map VInt l ↔ x ∈ l.
Proof.
  rewrite map_elem_of. split; [by intros (y & [= ->] & ?)|]. intros; by exists x.
Qed.

Lemma NoDup_map_inj {A B C} (f : B → C) (g : A → B) (l : list A) :
  Inj (=) (=) f → NoDup (map g l) → NoDup (map (λ x, f (g x)) l).
Proof.
  intros Hinj H. rewrite <- (map_map g f).
  change (NoDup (f <$> map g l)). by apply NoDup_fmap_2.
Qed.

End alternative_ids_properties.

Section lookup_report.
Context {A B : Type} `{EqDecision B}.

(** The rows found for the wanted keys, and the keys reported missing, as
    both filters of [_alternative_ids] compute them. *)
Lemma lookup_report (key : A → B) (rows : list A) (wanted : list B) (p : A → bool) :
  (∀ r, p r = bool_decide (key r ∈ wanted)) →
  NoDup (map key rows) →
  let found := List.filter p rows in
  let missing := List.filter (λ k, negb (bool_decide (k ∈ map key found))) wanted in
  missing = List.filter (λ k, negb (bool_decide (k ∈ map key rows))) wanted
  ∧ (missing ≠ [] → length wanted ≠ length found)
  ∧ (missing = [] → NoDup wanted → length wanted = length found).
Proof.
  intros Hp Hnd found missing.
  assert (Hfound : found = List.filter (λ r, bool_decide (key r ∈ wanted)) rows).
  { apply filter_ext. intros r. apply Hp. }
  assert (Hmissing : missing
            = List.filter (λ k, negb (bool_decide (k ∈ map key rows))) wanted).
  { apply filter_ext_in. intros k Hk%list_elem_of_In. f_equal.
    apply bool_decide_ext. rewrite !map_elem_of. split.
    - intros (r & Hr & Hin). exists r. split; [done|].
      unfold found in Hin. by apply filter_elem_of in Hin as [? _].
    - intros (r & Hr & Hin). exists r. split; [done|].
      apply filter_elem_of. split; [done|]. rewrite Hp, Hr.
      by apply bool_decide_eq_true. }
  split; [exact Hmissing|].
  clearbody missing found. subst missing. split.
  - intros Hne.
    destruct (List.filter _ wanted) as [|x l] eqn:E; [done|].
    assert (Hx : x ∈ List.filter (λ k, negb (bool_decide (k ∈ map key rows))) wanted)
      by (rewrite E; apply list_elem_of_here).
    apply filter_elem_of in Hx as [Hx Hnot].
    apply negb_true_iff, bool_decide_eq_false in Hnot.
    pose proof (found_fewer key rows wanted x Hnd Hx Hnot) as Hlt.
    rewrite Hfound. lia.
  - intros Hnil Hw. rewrite Hfound. symmetry. apply found_all; [done..|].
    intros x Hx. destruct (decide (x ∈ map key rows)) as [|Hnot]; [done|].
    assert (Hin : x ∈ List.filter (λ k, negb (bool_decide (k ∈ map key rows))) wanted).
    { apply filter_elem_of. split; [done|].
      by apply negb_true_iff, bool_decide_eq_false. }
    rewrite Hnil in Hin. by apply elem_of_nil in Hin.
Qed.

End lookup_report.

Section alternative_filter_errors.
Import db_mapping_base alternative_value_filter.

(** C4, amended: over a database whose alternatives have distinct names and
    distinct ids, applying the alternative filter to a list with an
    unresolved name raises one error, which lists every unresolved name of
    the list and no id; when every name resolves and no name is repeated,
    a list with an unresolved id raises one error, which lists every
    unresolved id. *)
Theorem alternative_filter_reports_unresolved
    (db : db_map) (original : subquery) (alternatives : list value) :
  ids_for_in_fresh db →
  NoDup (map alternative_name (alternative_sq db)) →
  NoDup (map alternative_id (alternative_sq db)) →
  (unresolved_names db alternatives ≠ [] →
   (alternative_filtered_view original (Some alternatives) db).1
   = Raise (SpineDBAPIError
       [Lit "Alternative(s) "; StrTuple (unresolved_names db alternatives);
        Lit " not found"]))
  ∧ (unresolved_names db alternatives = [] →
     NoDup (omap as_str alternatives) →
     unresolved_ids db alternatives ≠ [] →
     (alternative_filtered_view original (Some alternatives) db).1
     = Raise (SpineDBAPIError
         [Lit "Alternative id(s) "; IntTuple (unresolved_ids db alternatives);
          Lit " not found"])).
Proof.
  intros Hfresh Hnames Hids.
  unfold alternative_filtered_view, new_AlternativeFilterState, _alternative_ids,
    unresolved_names, unresolved_ids.
  set (names := omap as_str alternatives).
  set (ids := omap as_int alternatives).
  destruct (in__spec db (map VStr names) (omap_as_str_no_Anyone _) Hfresh)
    as (cond1 & db1 & Hin1 & Hfresh1 & Halt1 & Hholds1).
  destruct (lookup_report alternative_name (alternative_sq db) names
              (λ r, holds db1 cond1 (VStr (alternative_name r)))) as (Hm1 & Hne1 & Heq1).
  { intros r. rewrite Hholds1. apply bool_decide_ext, elem_of_map_VStr. }
  { exact Hnames. }
  split.
  - intros Hne. rewrite <- Hm1 in Hne. apply Hne1 in Hne.
    unfold bind, get, raise, ret. rewrite Hin1. cbv beta iota. rewrite Halt1.
    rewrite length_map, (proj2 (Nat.eqb_neq _ _) Hne). cbn [negb fst].
    by rewrite Hm1.
  - intros Hnil Hnd Hne. rewrite <- Hm1 in Hnil. specialize (Heq1 Hnil Hnd).
    destruct (in__spec db1 (map VInt ids) (omap_as_int_no_Anyone _) Hfresh1)
      as (cond2 & db2 & Hin2 & Hfresh2 & Halt2 & Hholds2).
    destruct (lookup_report alternative_id (alternative_sq db) ids
                (λ r, holds db2 cond2 (VInt (alternative_id r)))) as (Hm2 & Hne2 & _).
    { intros r. rewrite Hholds2. apply bool_decide_ext, elem_of_map_VInt. }
    { exact Hids. }
    rewrite <- Hm2 in Hne. apply Hne2 in Hne.
    unfold bind, get, raise, ret. rewrite Hin1. cbv beta iota. rewrite Halt1.
    rewrite length_map, (proj2 (Nat.eqb_eq _ _) Heq1). cbn [negb].
    rewrite Hin2. cbv beta iota. rewrite Halt2, Halt1.
    rewrite (proj2 (Nat.eqb_neq _ _) Hne). cbn [negb fst].
    by rewrite Hm2.
Qed.

End alternative_filter_errors.

(** A database with the alternatives [Base] and [high]. *)
Definition two_alternatives : db_mapping_base.db_map :=
  {| db_mapping_base.alternative_sq :=
       [ {| db_mapping_base.alternative_id := 1; db_mapping_base.alternative_name := "Base" |};
         {| db_mapping_base.alternative_id := 2; db_mapping_base.alternative_name := "high" |} ];
     db_mapping_base.scenario_sq := [];
     db_mapping_base.scenario_alternative_sq := [];
     db_mapping_base.parameter_value_rows := [];
     db_mapping_base.ids_for_in := [];
     db_mapping_base._ids_for_in_clause_id := 0 |}.

Lemma alternative_filter_reports_unresolved_witness :
  (alternative_value_filter.alternative_filtered_view
     db_mapping_base.parameter_value_sq_default
     (Some [VStr "ghost"; VStr "Base"; VInt 7; VStr "spook"]) two_alternatives).1
  = Raise (SpineDBAPIError
      [Lit "Alternative(s) "; StrTuple ["ghost"; "spook"]; Lit " not found"])
  ∧ (alternative_value_filter.alternative_filtered_view
       db_mapping_base.parameter_value_sq_default
       (Some [VStr "Base"; VInt 7; VInt 1; VInt 9]) two_alternatives).1
    = Raise (SpineDBAPIError
        [Lit "Alternative id(s) "; IntTuple [7; 9]%Z; Lit " not found"]).
Proof.
  assert (Hfresh : ids_for_in_fresh two_alternatives).
  { intros r Hr. by apply elem_of_nil in Hr. }
  assert (Hnames : NoDup (map db_mapping_base.alternative_name
                            (db_mapping_base.alternative_sq two_alternatives))).
  { apply (bool_decide_unpack _). vm_compute. exact I. }
  assert (Hids : NoDup (map db_mapping_base.alternative_id
                          (db_mapping_base.alternative_sq two_alternatives))).
  { apply (bool_decide_unpack _). vm_compute. exact I. }
  split.
  - apply (alternative_filter_reports_unresolved two_alternatives
             db_mapping_base.parameter_value_sq_default
             [VStr "ghost"; VStr "Base"; VInt 7; VStr "spook"] Hfresh Hnames Hids).
    discriminate.
  - apply (alternative_filter_reports_unresolved two_alternatives
             db_mapping_base.parameter_value_sq_default
             [VStr "Base"; VInt 7; VInt 1; VInt 9] Hfresh Hnames Hids).
    + reflexivity.
    + apply (bool_decide_unpack _). vm_compute. exact I.
    + discriminate.
Defined.

(** C4 as stated fails when a name and an id are both unresolved: the one
    error raised lists the name [ghost] and says nothing of the id 7. *)
Lemma alternative_filter_mixed_counterexample :
  unresolved_names two_alternatives [VStr "ghost"; VInt 7] = ["ghost"]
  ∧ unresolved_ids two_alternatives [VStr "ghost"; VInt 7] = [7%Z]
  ∧ (alternative_value_filter.alternative_filtered_view
       db_mapping_base.parameter_value_sq_default
       (Some [VStr "ghost"; VInt 7]) two_alternatives).1
    = Raise (SpineDBAPIError
        [Lit "Alternative(s) "; StrTuple ["ghost"]; Lit " not found"])
  ∧ reported_ids (SpineDBAPIError
        [Lit "Alternative(s) "; StrTuple ["ghost"]; Lit " not found"]) = [].
Proof. repeat split; vm_compute; reflexivity. Qed.

(** *** The scenario filter *)

Section scenario_filter_properties.
Import db_mapping_base alternative_value_filter.

Abbreviation joined := (parameter_value_row * scenario_alternative_row)%type.

(** Highest rank first. *)
Definition rank_desc (x y : joined) : Prop := (sa_rank y.2 ≤ sa_rank x.2)%Z.

Lemma insert_by_rank_Permutation (r : joined) (l : list joined) :
  Permutation (insert_by_rank r l) (r :: l).
Proof.
  induction l as [|h t IH]; simpl; [done|].
  destruct (sa_rank h.2 <? sa_rank r.2)%Z; [done|].
  rewrite IH. apply perm_swap.
Qed.

Lemma order_by_rank_desc_Permutation (l : list joined) :
  Permutation (order_by_rank_desc l) l.
Proof.
  induction l as [|r l IH]; simpl; [done|].
  rewrite insert_by_rank_Permutation. by constructor.
Qed.

Lemma order_by_rank_desc_elem_of (l : list joined) (x : joined) :
  x ∈ order_by_rank_desc l ↔ x ∈ l.
Proof. by rewrite order_by_rank_desc_Permutation. Qed.

Lemma insert_by_rank_sorted (r : joined) (l : list joined) :
  StronglySorted rank_desc l → StronglySorted rank_desc (insert_by_rank r l).
Proof.
  induction 1 as [|h t Hs IH Hall]; simpl.
  - repeat constructor.
  - destruct (Z.ltb_spec (sa_rank h.2) (sa_rank r.2)) as [Hlt|Hge].
    + constructor; [by constructor|].
      constructor; [unfold rank_desc; lia|].
      eapply Forall_impl; [exact Hall|].
      intros y Hy. unfold rank_desc in *. lia.
    + constructor; [exact IH|].
      apply Forall_forall. intros y Hy.
      rewrite insert_by_rank_Permutation in Hy.
      apply elem_of_cons in Hy as [->|Hy]; [exact Hge|].
      rewrite Forall_forall in Hall. by apply Hall.
Qed.

Lemma order_by_rank_desc_sorted (l : list joined) :
  StronglySorted rank_desc (order_by_rank_desc l).
Proof.
  induction l as [|r l IH]; simpl; [constructor|].
  by apply insert_by_rank_sorted.
Qed.

(** In rows ordered by rank, a row ranks at least as high as those after it. *)
Lemma sorted_app_inv (l1 l2 : list joined) (x y : joined) :
  StronglySorted rank_desc (l1 ++ x :: l2) → y ∈ l2 → rank_desc x y.
Proof.
  induction l1 as [|h l1 IH]; simpl; intros Hs Hy.
  - apply StronglySorted_inv in Hs as [_ Hall].
    rewrite Forall_forall in Hall. by apply Hall.
  - apply StronglySorted_inv in Hs as [Hs _]. by apply IH.
Qed.

(** The rows numbered 1 are the first rows of their partitions. *)
Fixpoint firsts (seen : list (Z * Z)) (l : list joined) : list parameter_value_row :=
  match l with
  | [] => []
  | r :: t =>
    if bool_decide (partition_key r.1 ∈ seen)
    then firsts (partition_key r.1 :: seen) t
    else r.1 :: firsts (partition_key r.1 :: seen) t
  end.

Lemma count_seen (k : Z * Z) (seen : list (Z * Z)) :
  Nat.eqb (S (length (List.filter (λ k', bool_decide (k' = k)) seen))) 1
  = negb (bool_decide (k ∈ seen)).
Proof.
  destruct (List.filter _ seen) as [|h l] eqn:E; cbn [length Nat.eqb].
  - symmetry. apply negb_true_iff, bool_decide_eq_false_2. intros Hk.
    assert (Hin : k ∈ List.filter (λ k', bool_decide (k' = k)) seen).
    { apply filter_elem_of. split; [done|]. by apply bool_decide_eq_true_2. }
    rewrite E in Hin. by apply elem_of_nil in Hin.
  - symmetry. apply negb_false_iff, bool_decide_eq_true_2.
    assert (Hin : h ∈ List.filter (λ k', bool_decide (k' = k)) seen)
      by (rewrite E; apply list_elem_of_here).
    apply filter_elem_of in Hin as [Hin Hh].
    by apply bool_decide_eq_true in Hh as <-.
Qed.

Lemma row_number_firsts (seen : list (Z * Z)) (l : list joined) :
  List.filter (λ vn : parameter_value_row * nat, Nat.eqb vn.2 1) (row_number seen l)
  = map (λ v, (v, 1)) (firsts seen l).
Proof.
  revert seen. induction l as [|r t IH]; intros seen; [done|].
  cbn [row_number List.filter firsts snd].
  pose proof (count_seen (partition_key r.1) seen) as Hc.
  destruct (Nat.eqb _ 1) eqn:E; symmetry in Hc.
  - apply negb_true_iff in Hc. rewrite Hc. apply Nat.eqb_eq in E.
    cbn [map]. by rewrite E, IH.
  - apply negb_false_iff in Hc. rewrite Hc. apply IH.
Qed.

Definition of_pair (k : Z * Z) (v : parameter_value_row) : bool :=
  bool_decide (partition_key v = k).

Lemma firsts_seen (k : Z * Z) (seen : list (Z * Z)) (l : list joined) :
  k ∈ seen → List.filter (of_pair k) (firsts seen l) = [].
Proof.
  revert seen. induction l as [|r t IH]; intros seen Hk; [done|].
  assert (Hk' : k ∈ partition_key r.1 :: seen) by by apply list_elem_of_further.
  cbn [firsts]. case_bool_decide as Hr; [by apply IH|].
  cbn [List.filter]. unfold of_pair at 1.
  rewrite bool_decide_eq_false_2; [by apply IH|].
  by intros <-.
Qed.

Lemma firsts_none (k : Z * Z) (seen : list (Z * Z)) (l : list joined) :
  (∀ x, x ∈ l → partition_key x.1 ≠ k) →
  List.filter (of_pair k) (firsts seen l) = [].
Proof.
  revert seen. induction l as [|r t IH]; intros seen Hl; [done|].
  assert (Ht : ∀ x, x ∈ t → partition_key x.1 ≠ k).
  { intros x Hx. apply Hl. by apply list_elem_of_further. }
  cbn [firsts]. case_bool_decide; [by apply IH|].
  cbn [List.filter]. unfold of_pair at 1.
  rewrite bool_decide_eq_false_2; [by apply IH|].
  apply Hl, list_elem_of_here.
Qed.

Lemma firsts_first (k : Z * Z) (seen : list (Z * Z)) (l1 l2 : list joined) (x : joined) :
  k ∉ seen →
  (∀ y, y ∈ l1 → partition_key y.1 ≠ k) →
  partition_key x.1 = k →
  List.filter (of_pair k) (firsts seen (l1 ++ x :: l2)) = [x.1].
Proof.
  revert seen. induction l1 as [|r t IH]; intros seen Hk Hl1 Hx.
  - cbn [app firsts]. rewrite Hx. rewrite (bool_decide_eq_false_2 _ Hk).
    cbn [List.filter]. unfold of_pair at 1. rewrite bool_decide_eq_true_2 by done.
    f_equal. apply firsts_seen, list_elem_of_here.
  - assert (Hr : partition_key r.1 ≠ k) by apply Hl1, list_elem_of_here.
    assert (Hk' : k ∉ partition_key r.1 :: seen).
    { rewrite elem_of_cons. intros [Heq|Hin]; [by apply Hr|by apply Hk]. }
    assert (Ht : ∀ y, y ∈ t → partition_key y.1 ≠ k).
    { intros y Hy. apply Hl1. by apply list_elem_of_further. }
    rewrite <- app_comm_cons. cbn [firsts]. case_bool_decide; [by apply IH|].
    cbn [List.filter]. unfold of_pair at 1.
    rewrite (bool_decide_eq_false_2 _ Hr). by apply IH.
Qed.

(** A list with a row of a partition splits at the first such row. *)
Lemma first_of_pair (k : Z * Z) (l : list joined) :
  (∃ x, x ∈ l ∧ partition_key x.1 = k) →
  ∃ l1 x l2, l = l1 ++ x :: l2 ∧ partition_key x.1 = k
             ∧ ∀ y, y ∈ l1 → partition_key y.1 ≠ k.
Proof.
  induction l as [|h t IH]; intros (x & Hx & Hk).
  - by apply elem_of_nil in Hx.
  - destruct (decide (partition_key h.1 = k)) as [Hh|Hh].
    + exists [], h, t. split; [done|]. split; [done|].
      intros y Hy. by apply elem_of_nil in Hy.
    + apply elem_of_cons in Hx as [->|Hx]; [done|].
      destruct IH as (l1 & x' & l2 & -> & Hx' & Hl1); [by exists x|].
      exists (h :: l1), x', l2. split; [done|]. split; [done|].
      intros y [->|Hy]%elem_of_cons; [done|by apply Hl1].
Qed.

Lemma NoDup_map_inv {A B} (f : A → B) (l : list A) (x y : A) :
  NoDup (map f l) → x ∈ l → y ∈ l → f x = f y → x = y.
Proof.
  induction l as [|h t IH]; simpl; intros Hnd Hx Hy Hf.
  - by apply elem_of_nil in Hx.
  - apply NoDup_cons in Hnd as [Hh Hnd].
    apply elem_of_cons in Hx as [->|Hx]; apply elem_of_cons in Hy as [->|Hy];
      [done| | |by apply IH].
    + exfalso. apply Hh. rewrite Hf. apply map_elem_of. by exists y.
    + exfalso. apply Hh. rewrite <- Hf. apply map_elem_of. by exists x.
Qed.

Lemma scenario_join_elem_of (pv : list parameter_value_row)
    (sa : list scenario_alternative_row) (S : Z)
    (v : parameter_value_row) (a : scenario_alternative_row) :
  (v, a) ∈ scenario_join pv sa (VInt S)
  ↔ v ∈ pv ∧ a ∈ sa ∧ sa_scenario_id a = S ∧ pv_alternative_id v = sa_alternative_id a.
Proof.
  unfold scenario_join. rewrite list_elem_of_In, in_flat_map. split.
  - intros (v' & Hv' & Hin). apply in_map_iff in Hin as (a' & [= -> ->] & Ha).
    apply filter_In in Ha as [Ha Hs]. unfold in_scenario in Hs.
    apply andb_true_iff in Hs as [H1 H2].
    apply bool_decide_eq_true in H1. apply bool_decide_eq_true in H2.
    rewrite !list_elem_of_In. by simplify_eq.
  - intros (Hv & Ha & Hs & Halt). exists v. rewrite <- list_elem_of_In. split; [done|].
    apply in_map, filter_In. rewrite <- list_elem_of_In. split; [done|].
    unfold in_scenario. apply andb_true_iff.
    split; apply bool_decide_eq_true_2; by subst.
Qed.

Lemma filter_map_labelled (name : string) (k : Z * Z) (l : list parameter_value_row) :
  List.filter (of_pair k) (map (λ v, labelled name (v, 1)) l)
  = map (λ v, labelled name (v, 1)) (List.filter (of_pair k) l).
Proof.
  induction l as [|v l IH]; [done|]. cbn [map List.filter].
  change (of_pair k (labelled name (v, 1))) with (of_pair k v).
  destruct (of_pair k v); cbn [map]; by rewrite IH.
Qed.

End scenario_filter_properties.

(** A parameter value [v] and a scenario alternative [a] of scenario [S]
    that belong together: [v] is a value of the alternative of [a]. *)
Definition candidate (db : db_mapping_base.db_map)
    (original : db_mapping_base.subquery) (S : Z)
    (v : db_mapping_base.parameter_value_row)
    (a : db_mapping_base.scenario_alternative_row) : Prop :=
  v ∈ db_mapping_base.all db original
  ∧ a ∈ db_mapping_base.scenario_alternative_sq db
  ∧ db_mapping_base.sa_scenario_id a = S
  ∧ db_mapping_base.pv_alternative_id v = db_mapping_base.sa_alternative_id a.

(** The scenario, given by name or by id, is the one scenario [S] of the
    database. *)
Definition resolves (db : db_mapping_base.db_map) (scenario : value) (S : Z) : Prop :=
  match scenario with
  | VStr name =>
    map db_mapping_base.scenario_id
      (List.filter (λ r, bool_decide (db_mapping_base.scenario_name r = name))
         (db_mapping_base.scenario_sq db)) = [S]
  | VInt z =>
    z = S ∧
    map db_mapping_base.scenario_id
      (List.filter (λ r, bool_decide (VInt (db_mapping_base.scenario_id r) = VInt z))
         (db_mapping_base.scenario_sq db)) = [S]
  | _ => False
  end.

(** The ranks of the alternatives of scenario [S] are pairwise different. *)
Definition unique_ranks (db : db_mapping_base.db_map) (S : Z) : Prop :=
  NoDup (map db_mapping_base.sa_rank
           (List.filter (λ a, bool_decide (db_mapping_base.sa_scenario_id a = S))
              (db_mapping_base.scenario_alternative_sq db))).

(** A parameter of an entity has at most one value per alternative. *)
Definition unique_values (db : db_mapping_base.db_map)
    (original : db_mapping_base.subquery) : Prop :=
  NoDup (map (λ v, (db_mapping_base.partition_key v, db_mapping_base.pv_alternative_id v))
           (db_mapping_base.all db original)).

Section scenario_filter_theorem.
Import db_mapping_base alternative_value_filter.

Lemma scenario_id_resolves (db : db_map) (scenario : value) (S : Z) :
  resolves db scenario S → _scenario_id scenario db = (Ok (VInt S), db).
Proof.
  unfold resolves, _scenario_id, bind, get.
  destruct scenario as [|z|name|]; try done.
  - intros [-> H]. cbv beta iota. by rewrite H.
  - intros H. cbv beta iota. by rewrite H.
Qed.

(** Two candidates with the same rank have the same scenario alternative;
    when they are values of one parameter and entity, and such values are
    unique per alternative, they are the same value as well. *)
Lemma candidate_inj (db : db_map) (original : subquery) (S : Z)
    (v v' : parameter_value_row) (a a' : scenario_alternative_row) :
  unique_ranks db S →
  candidate db original S v a →
  candidate db original S v' a' →
  sa_rank a' = sa_rank a →
  a' = a
  ∧ (unique_values db original → partition_key v' = partition_key v → v' = v).
Proof.
  intros Hranks (Hv & Ha & Hs & Halt) (Hv' & Ha' & Hs' & Halt') Hrank.
  assert (a' = a) as ->.
  { apply (NoDup_map_inv sa_rank _ _ _ Hranks); [| |done];
      apply filter_elem_of; (split; [done|by apply bool_decide_eq_true_2]). }
  split; [done|]. intros Hvalues Hkey.
  apply (NoDup_map_inv _ _ _ _ Hvalues); [done..|].
  by rewrite Hkey, Halt, Halt'.
Qed.

(** X24: the subquery that the maker of the scenario filter builds over an
    original subquery.  In a database where the ranks within scenario [S]
    are pairwise different, querying it gives, for every parameter
    definition [d] and entity [e] with a value in an alternative of [S],
    exactly one row: a value of [d] for [e] in the alternative that ranks
    highest in [S] among those with such a value; no other such alternative
    reaches its rank, and when a parameter of an entity has at most one value
    per alternative, the row is the only value of that rank.  For [d] and
    [e] without a value in an alternative of [S] it gives no row. *)
Theorem scenario_filter_keeps_highest_rank
    (db : db_map) (original : subquery) (scenario : value) (S : Z) :
  resolves db scenario S →
  unique_ranks db S →
  ∃ rows,
    scenario_filtered_view original scenario db = (Ok rows, db)
    ∧ ∀ d e : Z,
        ((∃ v a, candidate db original S v a
                 ∧ pv_parameter_definition_id v = d ∧ pv_entity_id v = e) →
         ∃ v a,
           candidate db original S v a
           ∧ pv_parameter_definition_id v = d ∧ pv_entity_id v = e
           ∧ List.filter
               (λ r, bool_decide (pv_parameter_definition_id r = d ∧ pv_entity_id r = e))
               rows
             = [labelled "max_rank_row_number" (v, 1)]
           ∧ ∀ v' a', candidate db original S v' a' →
               pv_parameter_definition_id v' = d → pv_entity_id v' = e →
               (sa_rank a' ≤ sa_rank a)%Z
               ∧ (sa_rank a' = sa_rank a →
                  a' = a
                  ∧ (NoDup (map (λ v, (pv_parameter_definition_id v, pv_entity_id v,
                                       pv_alternative_id v)) (all db original)) →
                     v' = v)))
        ∧ ((¬ ∃ v a, candidate db original S v a
                     ∧ pv_parameter_definition_id v = d ∧ pv_entity_id v = e) →
           List.filter
             (λ r, bool_decide (pv_parameter_definition_id r = d ∧ pv_entity_id r = e))
             rows = []).
Proof.
  intros Hres Hranks.
  unfold scenario_filtered_view, new_ScenarioFilterState,
    _make_scenario_filtered_parameter_value_sq, bind, ret, get.
  rewrite (scenario_id_resolves _ _ _ Hres). cbv beta iota.
  eexists. split; [reflexivity|].
  cbn [alternative_value_filter.scenario scenario_original_parameter_value_sq all].
  unfold ext_parameter_value_sq. rewrite row_number_firsts, map_map.
  set (pv := all db original). set (sa := scenario_alternative_sq db).
  set (sorted := order_by_rank_desc (scenario_join pv sa (VInt S))).
  assert (Hcand : ∀ v a, (v, a) ∈ sorted ↔ candidate db original S v a).
  { intros v a. unfold sorted. rewrite order_by_rank_desc_elem_of.
    apply scenario_join_elem_of. }
  intros d e.
  assert (Hkey : ∀ v, partition_key v = (d, e)
                      ↔ pv_parameter_definition_id v = d ∧ pv_entity_id v = e).
  { intros v. unfold partition_key. split; [by intros [= -> ->]|by intros [-> ->]]. }
  assert (Hpair : ∀ r, bool_decide (pv_parameter_definition_id r = d ∧ pv_entity_id r = e)
                       = of_pair (d, e) r).
  { intros r. unfold of_pair. apply bool_decide_ext. by rewrite Hkey. }
  rewrite (filter_ext _ _ Hpair), filter_map_labelled. split.
  - intros (v0 & a0 & Hc0 & Hk0%Hkey).
    destruct (first_of_pair (d, e) sorted) as (l1 & [v a] & l2 & Hsplit & Hk & Hl1).
    { exists (v0, a0). split; [by apply Hcand|done]. }
    assert (Hva : candidate db original S v a).
    { apply Hcand. rewrite Hsplit. apply elem_of_app. right. apply list_elem_of_here. }
    cbn [fst] in Hk.
    exists v, a. split; [done|]. split; [by apply Hkey|]. split; [by apply Hkey|]. split.
    { rewrite Hsplit, (firsts_first (d, e) [] l1 l2 (v, a)); [done| |done..].
      apply not_elem_of_nil. }
    intros v' a' Hc' Hd' He'.
    assert (Hk' : partition_key v' = (d, e)) by by apply Hkey.
    assert (Hle : (sa_rank a' ≤ sa_rank a)%Z).
    { apply Hcand in Hc'. rewrite Hsplit in Hc'.
      apply elem_of_app in Hc' as [Hin|Hin].
      - by apply Hl1 in Hin.
      - apply elem_of_cons in Hin as [[= -> ->]|Hin]; [done|].
        pose proof (order_by_rank_desc_sorted (scenario_join pv sa (VInt S))) as Hs.
        fold sorted in Hs. rewrite Hsplit in Hs.
        apply (sorted_app_inv l1 l2 (v, a) (v', a') Hs Hin). }
    split; [done|]. intros Heq.
    destruct (candidate_inj db original S v v' a a' Hranks Hva Hc' Heq) as [-> Hv].
    split; [done|]. intros Hvalues. apply Hv; [exact Hvalues|].
    by rewrite Hk, Hk'.
  - intros Hno. rewrite firsts_none; [done|].
    intros [v a] Hin Hk. apply Hno. exists v, a. split; [by apply Hcand|].
    by apply Hkey.
Qed.

End scenario_filter_theorem.

(** The example of the specification: scenario [S] ranks alternative [A1]
    (id 2) first and [A2] (id 3) second; parameter [p] (definition 1) of
    entity [e] (id 1) has the value 10 in [A1] and 20 in [A2]. *)
Definition scenario_example : db_mapping_base.db_map :=
  {| db_mapping_base.alternative_sq :=
       [ {| db_mapping_base.alternative_id := 1; db_mapping_base.alternative_name := "Base" |};
         {| db_mapping_base.alternative_id := 2; db_mapping_base.alternative_name := "A1" |};
         {| db_mapping_base.alternative_id := 3; db_mapping_base.alternative_name := "A2" |} ];
     db_mapping_base.scenario_sq :=
       [ {| db_mapping_base.scenario_id := 1; db_mapping_base.scenario_name := "S" |} ];
     db_mapping_base.scenario_alternative_sq :=
       [ {| db_mapping_base.sa_id := 1; db_mapping_base.sa_scenario_id := 1;
            db_mapping_base.sa_alternative_id := 2; db_mapping_base.sa_rank := 1 |};
         {| db_mapping_base.sa_id := 2; db_mapping_base.sa_scenario_id := 1;
            db_mapping_base.sa_alternative_id := 3; db_mapping_base.sa_rank := 2 |} ];
     db_mapping_base.parameter_value_rows :=
       [ {| db_mapping_base.pv_id := 1; db_mapping_base.pv_parameter_definition_id := 1;
            db_mapping_base.pv_entity_class_id := 1; db_mapping_base.pv_entity_id := 1;
            db_mapping_base.pv_value := "10"; db_mapping_base.pv_alternative_id := 2;
            db_mapping_base.pv_labels := [] |};
         {| db_mapping_base.pv_id := 2; db_mapping_base.pv_parameter_definition_id := 1;
            db_mapping_base.pv_entity_class_id := 1; db_mapping_base.pv_entity_id := 1;
            db_mapping_base.pv_value := "20"; db_mapping_base.pv_alternative_id := 3;
            db_mapping_base.pv_labels := [] |} ];
     db_mapping_base.ids_for_in := [];
     db_mapping_base._ids_for_in_clause_id := 0 |}.

(** Two entities: parameter [p] (definition 1) of entity 1 has the value 10
    in [A1] and 20 in [A2], and of entity 2 the value 30 in [A1] and 5 in
    [Base], which is no alternative of the scenario. *)
Definition two_entities_example : db_mapping_base.db_map :=
  {| db_mapping_base.alternative_sq := db_mapping_base.alternative_sq scenario_example;
     db_mapping_base.scenario_sq := db_mapping_base.scenario_sq scenario_example;
     db_mapping_base.scenario_alternative_sq :=
       db_mapping_base.scenario_alternative_sq scenario_example;
     db_mapping_base.parameter_value_rows :=
       db_mapping_base.parameter_value_rows scenario_example
       ++ [ {| db_mapping_base.pv_id := 3; db_mapping_base.pv_parameter_definition_id := 1;
               db_mapping_base.pv_entity_class_id := 1; db_mapping_base.pv_entity_id := 2;
               db_mapping_base.pv_value := "30"; db_mapping_base.pv_alternative_id := 2;
               db_mapping_base.pv_labels := [] |};
            {| db_mapping_base.pv_id := 4; db_mapping_base.pv_parameter_definition_id := 1;
               db_mapping_base.pv_entity_class_id := 1; db_mapping_base.pv_entity_id := 2;
               db_mapping_base.pv_value := "5"; db_mapping_base.pv_alternative_id := 1;
               db_mapping_base.pv_labels := [] |} ];
     db_mapping_base.ids_for_in := [];
     db_mapping_base._ids_for_in_clause_id := 0 |}.

(** Reading through the filter of [S] gives 20 for entity 1 and 30 for
    entity 2. *)
Lemma scenario_filter_keeps_highest_rank_witness :
  resolves two_entities_example (VStr "S") 1
  ∧ unique_ranks two_entities_example 1
  ∧ ∃ rows,
      alternative_value_filter.scenario_filtered_view
        db_mapping_base.parameter_value_sq_default (VStr "S") two_entities_example
      = (Ok rows, two_entities_example)
      ∧ map (λ r, (db_mapping_base.pv_entity_id r, db_mapping_base.pv_value r)) rows
        = [(1%Z, "20"); (2%Z, "30")].
Proof.
  assert (H1 : resolves two_entities_example (VStr "S") 1) by reflexivity.
  assert (H2 : unique_ranks two_entities_example 1).
  { apply (bool_decide_unpack _). vm_compute. exact I. }
  split; [exact H1|]. split; [exact H2|].
  destruct (scenario_filter_keeps_highest_rank two_entities_example
              db_mapping_base.parameter_value_sq_default (VStr "S") 1 H1 H2)
    as (rows & Hview & _).
  exists rows. split; [exact Hview|].
  vm_compute in Hview. injection Hview as <-. reflexivity.
Defined.

(** ** Commit and rollback *)

Section commit_properties.
Import db_mapping_commit_mixin.
Context {stmt item : Type}.
Implicit Types (m : mapping stmt item) (db : database stmt item)
  (calls : list (call stmt item)).

(** What holds of a mapping between calls: without pending changes the
    connection sees what is stored; with pending changes it sees, besides,
    the one commit row the transaction started with, which [_commit_id]
    names. *)
Definition consistent m : Prop :=
  if has_pending_changes m then
    ∃ date,
      _commit_id m = Some (inserted_primary_key (commit (stored m)))
      ∧ commit (connection m)
        = commit (stored m)
          ++ [{| commit_id := inserted_primary_key (commit (stored m));
                 commit_user := username m; commit_date := date;
                 commit_comment := "" |}]
  else connection m = stored m.

Lemma consistent_new user db : consistent (new user db).
Proof. reflexivity. Qed.

Lemma checked_execute_consistent m (s : stmt) (items : list item) (date : Z) :
  consistent m →
  consistent (_checked_execute s items date m)
  ∧ has_pending_changes (_checked_execute s items date m)
    = has_pending_changes m || negb (bool_decide (length items = 0))
  ∧ username (_checked_execute s items date m) = username m
  ∧ stored (_checked_execute s items date m) = stored m.
Proof.
  intros Hm. unfold _checked_execute. destruct items as [|i items].
  - by rewrite orb_false_r.
  - rewrite orb_true_r. unfold consistent in Hm.
    destruct (has_pending_changes m) eqn:Hp.
    + split; [|done]. unfold consistent.
      change (has_pending_changes (execute s (i :: items) m))
        with (has_pending_changes m).
      rewrite Hp. exact Hm.
    + split; [|done]. unfold consistent.
      change (has_pending_changes
                (execute s (i :: items) (_start_new_transaction date m))) with true.
      cbv beta iota. exists date. cbn. by rewrite Hm.
Qed.

Lemma commit_session_consistent m (comment : string) (date : Z) :
  consistent m →
  consistent (commit_session comment date m).2
  ∧ has_pending_changes (commit_session comment date m).2 = false
  ∧ username (commit_session comment date m).2 = username m
  ∧ (has_pending_changes m = false → (commit_session comment date m).2 = m).
Proof.
  intros Hm. unfold commit_session, consistent in *.
  destruct (has_pending_changes m) eqn:Hp; cbn [negb].
  - destruct Hm as (date0 & -> & Hc). by cbn.
  - cbn [snd]. by rewrite Hp.
Qed.

Lemma rollback_session_consistent m :
  consistent m →
  consistent (rollback_session m).2
  ∧ has_pending_changes (rollback_session m).2 = false
  ∧ username (rollback_session m).2 = username m
  ∧ stored (rollback_session m).2 = stored m.
Proof.
  intros Hm. unfold rollback_session, consistent in *.
  destruct (has_pending_changes m) eqn:Hp; cbn [negb].
  - by cbn.
  - cbn [snd]. by rewrite Hp.
Qed.

Lemma step_consistent m (c : call stmt item) :
  consistent m →
  consistent (step m c)
  ∧ has_pending_changes (step m c) = writes_pending_step (has_pending_changes m) c
  ∧ username (step m c) = username m.
Proof.
  intros Hm. destruct c as [s items date|comment date|]; cbn [step writes_pending_step].
  - by destruct (checked_execute_consistent m s items date Hm) as (? & ? & ? & ?).
  - by destruct (commit_session_consistent m comment date Hm) as (? & ? & ? & ?).
  - by destruct (rollback_session_consistent m Hm) as (? & ? & ? & ?).
Qed.

Lemma run_consistent m calls :
  consistent m →
  consistent (run m calls)
  ∧ has_pending_changes (run m calls)
    = foldl writes_pending_step (has_pending_changes m) calls
  ∧ username (run m calls) = username m.
Proof.
  revert m. induction calls as [|c calls IH]; intros m Hm; [done|].
  destruct (step_consistent m c Hm) as (Hc & Hp & Hu).
  destruct (IH _ Hc) as (Hc' & Hp' & Hu').
  cbn [run foldl] in *. rewrite <- Hp, <- Hu. by repeat split.
Qed.

(** The engine's new primary key is above every id of the table. *)
Lemma inserted_primary_key_fresh (rows : list commit_row) (r : commit_row) :
  r ∈ rows → (commit_id r < inserted_primary_key rows)%Z.
Proof.
  unfold inserted_primary_key.
  induction rows as [|h t IH]; intros Hr; [by apply elem_of_nil in Hr|].
  cbn [map foldr]. apply elem_of_cons in Hr as [->|Hr]; [lia|].
  specialize (IH Hr). lia.
Qed.

(** The update of [commit_session] touches the row of the transaction
    only. *)
Lemma update_commit_last (rows : list commit_row) (user user' : string)
    (date date' : Z) (comment comment' : string) :
  update_commit (inserted_primary_key rows) user' date' comment'
    (rows ++ [{| commit_id := inserted_primary_key rows; commit_user := user;
                 commit_date := date; commit_comment := comment |}])
  = rows ++ [{| commit_id := inserted_primary_key rows; commit_user := user';
                commit_date := date'; commit_comment := comment' |}].
Proof.
  unfold update_commit. rewrite map_app. f_equal.
  - rewrite <- (map_id rows) at 2. apply map_ext_in.
    intros r Hr%list_elem_of_In. apply inserted_primary_key_fresh in Hr.
    rewrite bool_decide_eq_false_2; [done|lia].
  - cbn. by rewrite bool_decide_eq_true_2.
Qed.

End commit_properties.

Section commit_theorems.
Import db_mapping_commit_mixin.
Context {stmt item : Type}.
Implicit Types (db : database stmt item) (calls : list (call stmt item)).

(** The state of the mapping when changes are pending: the transaction is
    active and the connection holds the commit row it started with. *)
Lemma pending_state user db calls :
  writes_pending calls = true →
  ∃ date0,
    _transaction (run (new user db) calls) = Some true
    ∧ username (run (new user db) calls) = user
    ∧ _commit_id (run (new user db) calls)
      = Some (inserted_primary_key (commit (stored (run (new user db) calls))))
    ∧ commit (connection (run (new user db) calls))
      = commit (stored (run (new user db) calls))
        ++ [{| commit_id := inserted_primary_key (commit (stored (run (new user db) calls)));
               commit_user := user; commit_date := date0; commit_comment := "" |}].
Proof.
  intros Hp.
  destruct (run_consistent (new user db) calls (consistent_new user db))
    as (Hc & Hpend & Hu).
  change (foldl writes_pending_step (has_pending_changes (new user db)) calls)
    with (writes_pending calls) in Hpend.
  rewrite Hp in Hpend. unfold consistent in Hc. rewrite Hpend in Hc.
  destruct Hc as (date0 & Hid & Hcommit). exists date0.
  cbn [username new] in Hu. rewrite Hu in Hcommit.
  split; [|done].
  unfold has_pending_changes in Hpend.
  by destruct (_transaction _) as [[]|].
Qed.

(** What [commit_session] does with changes pending. *)
Lemma commit_session_pending (user : string) db calls (comment : string) (date : Z) :
  writes_pending calls = true →
  ∃ committed,
    commit committed
      = commit (stored (run (new user db) calls))
        ++ [{| commit_id :=
                 inserted_primary_key (commit (stored (run (new user db) calls)));
               commit_user := user; commit_date := date;
               commit_comment := comment |}]
    ∧ executed committed = executed (connection (run (new user db) calls))
    ∧ commit_session comment date (run (new user db) calls)
      = (Ok (),
         {| username := user; stored := committed; connection := committed;
            _transaction := Some false;
            _commit_id := _commit_id (run (new user db) calls) |}).
Proof.
  intros Hp.
  destruct (run_consistent (new user db) calls (consistent_new user db))
    as (_ & Hpend & _).
  change (foldl writes_pending_step (has_pending_changes (new user db)) calls)
    with (writes_pending calls) in Hpend.
  destruct (pending_state user db calls Hp) as (date0 & Ht & Hu & Hid & Hc).
  set (m := run (new user db) calls) in *.
  eexists {| commit := _; executed := _ |}. split; [|split]; [| |].
  2: reflexivity.
  2: { unfold commit_session. rewrite Hpend, Hp. cbn [negb].
       rewrite Hid, Hu, Hc. rewrite update_commit_last. reflexivity. }
  reflexivity.
Qed.

(** C5: after any sequence of calls on a new mapping, [commit_session]
    raises "Nothing to commit." exactly when no write is pending; with a
    write pending it gives the commit row of the transaction the user, the
    date of the call and the comment, and commits: what the connection sees,
    with that row, is then what is stored.  [rollback_session] raises
    "Nothing to rollback." exactly when no write is pending, and otherwise
    rolls the transaction back: the connection sees what was stored. *)
Theorem commit_and_rollback_raise_iff_nothing_pending
    (user : string) db calls (comment : string) (date : Z) :
  ((commit_session comment date (run (new user db) calls)).1
     = Raise (SpineDBAPIError [Lit "Nothing to commit."])
   ↔ writes_pending calls = false)
  ∧ (writes_pending calls = true →
     ∃ committed,
       commit committed
         = commit (stored (run (new user db) calls))
           ++ [{| commit_id :=
                    inserted_primary_key (commit (stored (run (new user db) calls)));
                  commit_user := user; commit_date := date;
                  commit_comment := comment |}]
       ∧ executed committed = executed (connection (run (new user db) calls))
       ∧ commit_session comment date (run (new user db) calls)
         = (Ok (),
            {| username := user; stored := committed; connection := committed;
               _transaction := Some false;
               _commit_id := _commit_id (run (new user db) calls) |}))
  ∧ ((rollback_session (run (new user db) calls)).1
       = Raise (SpineDBAPIError [Lit "Nothing to rollback."])
     ↔ writes_pending calls = false)
  ∧ (writes_pending calls = true →
     rollback_session (run (new user db) calls)
     = (Ok (),
        {| username := user;
           stored := stored (run (new user db) calls);
           connection := stored (run (new user db) calls);
           _transaction := Some false;
           _commit_id := _commit_id (run (new user db) calls) |})).
Proof.
  destruct (run_consistent (new user db) calls (consistent_new user db))
    as (_ & Hpend & _).
  change (foldl writes_pending_step (has_pending_changes (new user db)) calls)
    with (writes_pending calls) in Hpend.
  set (m := run (new user db) calls) in *.
  pose proof (commit_session_pending user db calls comment date) as Hcommit.
  fold m in Hcommit.
  assert (Hrollback : writes_pending calls = true →
            rollback_session m
            = (Ok (),
               {| username := user; stored := stored m; connection := stored m;
                  _transaction := Some false; _commit_id := _commit_id m |})).
  { intros Hp. destruct (pending_state user db calls Hp) as (date0 & Ht & Hu & Hid & Hc).
    fold m in Hu. unfold rollback_session. rewrite Hpend, Hp. cbn [negb].
    by rewrite Hu. }
  split; [|split; [exact Hcommit|split; [|exact Hrollback]]].
  - destruct (writes_pending calls) eqn:Hp.
    + destruct (Hcommit eq_refl) as (c & _ & _ & ->). by split.
    + unfold commit_session. rewrite Hpend. by split.
  - destruct (writes_pending calls) eqn:Hp.
    + rewrite (Hrollback eq_refl). by split.
    + unfold rollback_session. rewrite Hpend. by split.
Qed.

(** The writes of a session as calls. *)
Definition as_call (w : stmt * list item * Z) : call stmt item :=
  Checked_execute w.1.1 w.1.2 w.2.

Lemma writes_pending_app calls calls' :
  writes_pending calls = false →
  writes_pending (calls ++ calls') = writes_pending calls'.
Proof.
  unfold writes_pending. rewrite foldl_app. by intros ->.
Qed.

Lemma writes_pending_writes (ws : list (stmt * list item * Z)) (b : bool) :
  foldl writes_pending_step b (map as_call ws)
  = b || existsb (λ w, negb (bool_decide (length w.1.2 = 0))) ws.
Proof.
  revert b. induction ws as [|w ws IH]; intros b; cbn [map foldl existsb].
  - by rewrite orb_false_r.
  - rewrite IH. cbn [as_call writes_pending_step]. by rewrite orb_assoc.
Qed.

Lemma run_app (m : mapping stmt item) calls calls' :
  run m (calls ++ calls') = run (run m calls) calls'.
Proof. apply foldl_app. Qed.

(** Writes leave what is stored as it is. *)
Lemma run_writes_stored (m : mapping stmt item) (ws : list (stmt * list item * Z)) :
  consistent m →
  consistent (run m (map as_call ws)) ∧ stored (run m (map as_call ws)) = stored m.
Proof.
  revert m. induction ws as [|w ws IH]; intros m Hm; [done|].
  cbn [map run foldl step as_call].
  destruct (checked_execute_consistent m w.1.1 w.1.2 w.2 Hm) as (Hc & _ & _ & Hs).
  destruct (IH _ Hc) as [Hc' Hs']. split; [exact Hc'|].
  unfold run in Hs'. by rewrite Hs', Hs.
Qed.

(** C6: a session is the writes between two commits or rollbacks.  However
    many writes it has, the connection never sees more than one commit row
    beyond the stored ones; and when at least one write has items,
    committing with a comment leaves the stored commit table with exactly
    one row more, which carries the comment. *)
Theorem one_commit_row_per_session
    (user : string) db (history : list (call stmt item))
    (ws : list (stmt * list item * Z)) (comment : string) (date : Z) :
  writes_pending history = false →
  (∃ w, w ∈ ws ∧ w.1.2 ≠ []) →
  commit (stored (commit_session comment date
                    (run (run (new user db) history) (map as_call ws))).2)
  = commit (stored (run (new user db) history))
    ++ [{| commit_id := inserted_primary_key (commit (stored (run (new user db) history)));
           commit_user := user; commit_date := date; commit_comment := comment |}]
  ∧ ∀ ws1 ws2, ws = ws1 ++ ws2 →
      length (commit (connection (run (run (new user db) history) (map as_call ws1))))
      ≤ S (length (commit (stored (run (new user db) history)))).
Proof.
  intros Hhist (w & Hw & Hne).
  destruct (run_consistent (new user db) history (consistent_new user db))
    as (Hc0 & _ & _).
  set (m0 := run (new user db) history) in *.
  split.
  - destruct (run_writes_stored m0 ws Hc0) as [_ Hs].
    assert (Hp : writes_pending (history ++ map as_call ws) = true).
    { rewrite (writes_pending_app _ _ Hhist). unfold writes_pending.
      rewrite writes_pending_writes. apply existsb_exists. exists w.
      split; [by apply list_elem_of_In|].
      apply negb_true_iff, bool_decide_eq_false_2. by destruct (w.1.2). }
    destruct (commit_session_pending user db _ comment date Hp)
      as (committed & Hcommit & _ & Heq).
    rewrite run_app in Hcommit, Heq. fold m0 in Hcommit, Heq.
    rewrite Heq. cbn [snd stored]. by rewrite Hcommit, Hs.
  - intros ws1 ws2 _.
    destruct (run_writes_stored m0 ws1 Hc0) as [Hc Hs].
    unfold consistent in Hc.
    destruct (has_pending_changes _).
    + destruct Hc as (date0 & _ & ->). rewrite Hs, length_app. cbn [length]. lia.
    + rewrite Hc, Hs. lia.
Qed.

End commit_theorems.

(** Three adds in one session over an empty database, then a commit. *)
Definition three_adds : list (string * list Z * Z) :=
  [ ("INSERT INTO object_class", [1; 2]%Z, 100%Z);
    ("INSERT INTO object", [3]%Z, 101%Z);
    ("INSERT INTO relationship", [4; 5; 6]%Z, 102%Z) ].

Lemma one_commit_row_per_session_witness :
  db_mapping_commit_mixin.commit
    (db_mapping_commit_mixin.stored
       (db_mapping_commit_mixin.commit_session "c" 200
          (db_mapping_commit_mixin.run
             (db_mapping_commit_mixin.run
                (db_mapping_commit_mixin.new "anon"
                   {| db_mapping_commit_mixin.commit := [];
                      db_mapping_commit_mixin.executed := [] |}) [])
             (map as_call three_adds))).2)
  = [ {| db_mapping_commit_mixin.commit_id := 1;
         db_mapping_commit_mixin.commit_user := "anon";
         db_mapping_commit_mixin.commit_date := 200;
         db_mapping_commit_mixin.commit_comment := "c" |} ].
Proof.
  refine (proj1 (one_commit_row_per_session "anon"
            {| db_mapping_commit_mixin.commit := [];
               db_mapping_commit_mixin.executed := [] |}
            [] three_adds "c" 200 eq_refl _)).
  exists ("INSERT INTO object", [3]%Z, 101%Z). split; [|discriminate].
  apply list_elem_of_further, list_elem_of_here.
Defined.

(** ** Updates in a staged session *)

(** The table an update of [tablename] is staged in and the column that
    holds the id there, written out from the dictionary at the head of
    [_update_items] and from [table_ids]. *)
Definition shadow_table (tablename : string) : string :=
  if bool_decide (tablename = "object_class")
     || bool_decide (tablename = "relationship_class") then "entity_class"
  else if bool_decide (tablename = "object")
          || bool_decide (tablename = "relationship") then "entity"
  else tablename.

Definition id_column (tablename : string) : string :=
  if bool_decide (tablename = "relationship_entity_class")
     || bool_decide (tablename = "object_class")
     || bool_decide (tablename = "relationship_class") then "entity_class_id"
  else if bool_decide (tablename = "object")
          || bool_decide (tablename = "relationship")
          || bool_decide (tablename = "relationship_entity") then "entity_id"
  else "id".

Section diff_update_rows.
Import diff_db_mapping.

Lemma real_tablename_shadow_table (tablename : string) :
  default tablename (real_tablenames !! tablename) = shadow_table tablename.
Proof.
  unfold real_tablenames, shadow_table. cbn [list_to_map foldr fst snd].
  repeat (case_bool_decide as H;
          [subst; reflexivity
          |rewrite (lookup_insert_ne _ _ _ _ (not_eq_sym H)); clear H]);
    cbn [orb]; by rewrite lookup_empty.
Qed.

Lemma id_field_id_column (tablename : string) :
  id_field tablename = id_column tablename.
Proof.
  unfold id_field, table_ids, id_column. cbn [list_to_map foldr fst snd].
  repeat (case_bool_decide as H;
          [subst; reflexivity
          |rewrite (lookup_insert_ne _ _ _ _ (not_eq_sym H)); clear H]);
    cbn [orb]; by rewrite lookup_empty.
Qed.

(** A row matches an item on the key [f] when both hold the same value
    there, which is not null. *)
Lemma matches_id (f : string) (it row : item) :
  matches [f] it row = true
  ↔ ∃ a, row !! f = Some a ∧ it !! f = Some a ∧ a ≠ VNone.
Proof.
  unfold matches. cbn [forallb]. rewrite andb_true_r.
  destruct (row !! f) as [a|], (it !! f) as [b|]; try (split; [done|by intros (? & ? & ? & ?)]).
  rewrite andb_true_iff, negb_true_iff, bool_decide_eq_true, bool_decide_eq_false.
  split.
  - intros [-> Ha]. by exists b.
  - intros (c & [= ->] & [= ->] & Hc). done.
Qed.

(** The columns of a row after the update with a matching item. *)
Lemma updated_columns (cols : gset string) (it row : item) (c : string) :
  (filter (λ kv : string * value, kv.1 ∈ cols) it ∪ row) !! c
  = if bool_decide (c ∈ cols)
    then match it !! c with Some v => Some v | None => row !! c end
    else row !! c.
Proof.
  case_bool_decide as Hc.
  - destruct (it !! c) as [v|] eqn:E.
    + apply lookup_union_Some_l, map_lookup_filter_Some. by split.
    + rewrite lookup_union_r; [done|]. apply map_lookup_filter_None. by left.
  - rewrite lookup_union_r; [done|]. apply map_lookup_filter_None. right.
    intros v _ Hin. by apply Hc.
Qed.

Lemma update_row_outside (pk : list string) (cols : gset string) (it row : item)
    (c : string) :
  c ∉ cols → update_row pk cols it row !! c = row !! c.
Proof.
  intros Hc. unfold update_row. destruct (matches pk it row); [|done].
  by rewrite updated_columns, bool_decide_eq_false_2.
Qed.

Lemma update_row_id (f : string) (cols : gset string) (it row : item) :
  update_row [f] cols it row !! f = row !! f.
Proof.
  unfold update_row. destruct (matches [f] it row) eqn:E; [|done].
  apply matches_id in E as (a & Hrow & Hit & _).
  rewrite updated_columns, Hit, Hrow. by case_bool_decide.
Qed.

Lemma update_row_other_id (f : string) (cols : gset string) (it row : item) :
  it !! f ≠ row !! f → update_row [f] cols it row = row.
Proof.
  intros Hne. unfold update_row. destruct (matches [f] it row) eqn:E; [|done].
  apply matches_id in E as (a & Hrow & Hit & _). congruence.
Qed.

(** The update statement, run for each of the items in turn on one row. *)
Lemma updates_keep_id (f : string) (cols : gset string) (upd : list item) (row : item) :
  foldl (λ row it, update_row [f] cols it row) row upd !! f = row !! f.
Proof.
  revert row. induction upd as [|it upd IH]; intros row; [done|].
  cbn [foldl]. by rewrite IH, update_row_id.
Qed.

Lemma updates_outside (f : string) (cols : gset string) (upd : list item) (row : item)
    (c : string) :
  c ∉ cols → foldl (λ row it, update_row [f] cols it row) row upd !! c = row !! c.
Proof.
  intros Hc. revert row. induction upd as [|it upd IH]; intros row; [done|].
  cbn [foldl]. by rewrite IH, update_row_outside.
Qed.

Lemma updates_other_ids (f : string) (cols : gset string) (upd : list item) (row : item) :
  (∀ it, it ∈ upd → it !! f ≠ row !! f) →
  foldl (λ row it, update_row [f] cols it row) row upd = row.
Proof.
  revert row. induction upd as [|it upd IH]; intros row H; [done|].
  cbn [foldl]. rewrite update_row_other_id by apply H, list_elem_of_here.
  apply IH. intros it' Hit'. by apply H, list_elem_of_further.
Qed.

(** The last item of the id of a row decides its columns. *)
Lemma updates_last (f : string) (cols : gset string) (l1 l2 : list item)
    (it row : item) (a : value) :
  row !! f = Some a → it !! f = Some a → a ≠ VNone →
  (∀ c, c ∈ cols → is_Some (it !! c)) →
  (∀ it', it' ∈ l2 → it' !! f ≠ Some a) →
  ∀ c, foldl (λ row it, update_row [f] cols it row) row (l1 ++ it :: l2) !! c
       = if bool_decide (c ∈ cols) then it !! c else row !! c.
Proof.
  intros Hrow Hit Ha Hcols Hl2 c. rewrite foldl_app. cbn [foldl].
  set (r1 := foldl _ row l1).
  assert (Hr1 : r1 !! f = Some a) by (unfold r1; by rewrite updates_keep_id).
  assert (Hm : matches [f] it r1 = true) by (apply matches_id; by exists a).
  rewrite updates_other_ids.
  - unfold update_row. rewrite Hm, updated_columns. case_bool_decide as Hc.
    + by destruct (Hcols c Hc) as [v ->].
    + unfold r1. by apply updates_outside.
  - intros it' Hit'. rewrite update_row_id, Hr1. by apply Hl2.
Qed.

Lemma binds_columns (pk : list string) (cols : gset string) (l : list item) (it : item)
    (c : string) :
  forallb (binds (pk ++ elements cols)) l = true →
  it ∈ l → c ∈ cols → is_Some (it !! c).
Proof.
  intros Hb Hit Hc. rewrite forallb_forall in Hb.
  apply list_elem_of_In, Hb in Hit. unfold binds in Hit.
  rewrite forallb_forall in Hit.
  assert (In c (pk ++ elements cols)) as Hin%Hit.
  { apply in_or_app. right. by apply list_elem_of_In, elem_of_elements. }
  by apply bool_decide_eq_true in Hin.
Qed.

End diff_update_rows.

Section diff_update_properties.
Import diff_db_mapping.
Variable _items_with_type_id : string → list item → list item.
Variable _get_primary_key : string → list string.
Variable columns : string → gset string.

(** Whether the id of an item is among the added or updated ids. *)
Definition is_staged (in_diff : gset value) (f : string) (it : item) : bool :=
  match it !! f with
  | Some id_ => bool_decide (id_ ∈ in_diff)
  | None => false
  end.

(** The ids of items. *)
Definition ids_of (f : string) (l : list item) : gset value :=
  list_to_set (omap (λ it : item, it !! f) l).

(** The columns the update statement sets: those of the diff table that
    the first item has. *)
Definition update_columns (tablename : string) (items_for_update : list item)
    : gset string :=
  match items_for_update with
  | first :: _ => columns tablename ∩ dom first
  | [] => ∅
  end.

Lemma ids_of_cons (f : string) (it : item) (l : list item) (id_ : value) :
  it !! f = Some id_ → ids_of f (it :: l) = {[id_]} ∪ ids_of f l.
Proof. intros H. unfold ids_of. cbn [omap list_omap]. by rewrite H. Qed.

Lemma get_items_loop_spec (in_diff : gset value) (f : string) (l : list item)
    (u i : list item) (d up : gset value) :
  Forall (λ it : item, is_Some (it !! f)) l →
  _get_items_loop in_diff f l (u, i, d, up)
  = Ok (u ++ List.filter (is_staged in_diff f) l,
        i ++ List.filter (λ it, negb (is_staged in_diff f it)) l,
        d ∪ ids_of f (List.filter (λ it, negb (is_staged in_diff f it)) l),
        up ∪ ids_of f l).
Proof.
  intros Hl. revert u i d up.
  induction Hl as [|it l [id_ Hid] Hl IH]; intros u i d up.
  - cbn. rewrite !app_nil_r. unfold ids_of. cbn.
    by rewrite !(right_id_L ∅ (∪)).
  - assert (Hs : is_staged in_diff f it = bool_decide (id_ ∈ in_diff)).
    { unfold is_staged. by rewrite Hid. }
    cbn [_get_items_loop List.filter]. rewrite Hid, !Hs.
    destruct (bool_decide (id_ ∈ in_diff)) eqn:E; cbn [negb].
    + rewrite IH. rewrite <- !app_assoc. cbn [app].
      rewrite (ids_of_cons f it l id_ Hid).
      f_equal. f_equal. by rewrite (assoc_L (∪)).
    + rewrite IH. rewrite <- !app_assoc. cbn [app].
      rewrite (ids_of_cons f it l id_ Hid).
      rewrite (ids_of_cons f it _ id_ Hid).
      f_equal. f_equal; [f_equal|]; by rewrite (assoc_L (∪)).
Qed.

Lemma execute_update_in_place (pk : list string) (cols : gset string)
    (items rows : list item) :
  forallb (binds (pk ++ elements cols)) items = true →
  execute_update pk cols items rows
  = Ok (map (λ row, foldl (λ row it, update_row pk cols it row) row items) rows).
Proof.
  intros Hb. unfold execute_update. rewrite Hb. f_equal.
  revert rows. clear Hb. induction items as [|it items IH]; intros rows; cbn [foldl].
  - by rewrite map_id.
  - rewrite IH, map_map. done.
Qed.

Lemma elem_of_ids_of (f : string) (l : list item) (id_ : value) :
  id_ ∈ ids_of f l ↔ ∃ it, it ∈ l ∧ it !! f = Some id_.
Proof.
  unfold ids_of. rewrite elem_of_list_to_set, list_elem_of_omap. naive_solver.
Qed.

(** The shadow rows after [_do_update_items]: the old rows, each changed
    where it stood by the items to update that match it, followed by the
    items to insert. *)
Lemma do_update_items_rows (tablename : string) (upd ins : list item)
    (st : diff_db_map) :
  forallb (binds (_get_primary_key tablename
                    ++ elements (update_columns tablename upd))) upd = true →
  ∃ st',
    _do_update_items _get_primary_key columns tablename upd ins st = Ok st'
    ∧ diff_tables st' !!! tablename
      = map (λ row, foldl (λ row it,
                 update_row (_get_primary_key tablename)
                   (update_columns tablename upd) it row) row upd)
          (diff_tables st !!! tablename) ++ ins
    ∧ added_item_id st' = added_item_id st
    ∧ updated_item_id st' = updated_item_id st
    ∧ dirty_item_id st' = dirty_item_id st.
Proof.
  intros Hb. unfold _do_update_items.
  destruct upd as [|first upd'].
  - cbn [foldl]. rewrite map_id. destruct ins as [|i ins'].
    + exists st. by rewrite app_nil_r.
    + eexists. split; [reflexivity|]. cbn [set_diff_table diff_tables
        added_item_id updated_item_id dirty_item_id].
      by rewrite lookup_total_insert_eq.
  - cbn [update_columns] in Hb |- *.
    rewrite (execute_update_in_place _ _ _ _ Hb).
    destruct ins as [|i ins'].
    + eexists. split; [reflexivity|]. cbn [set_diff_table diff_tables
        added_item_id updated_item_id dirty_item_id].
      by rewrite lookup_total_insert_eq, app_nil_r.
    + eexists. split; [reflexivity|]. cbn [set_diff_table diff_tables
        added_item_id updated_item_id dirty_item_id].
      by rewrite !lookup_total_insert_eq.
Qed.

End diff_update_properties.

Section diff_update_theorem.
Import diff_db_mapping.
Variable _items_with_type_id : string → list item → list item.
Variable _get_primary_key : string → list string.
Variable columns : string → gset string.

(** C3: [_update_items] over the items (with their type id) that all carry
    the id column.  The shadow table and the id column are those of the
    dictionaries of the source, written out.  An item whose id is among the
    added or updated ids goes to the update statement, and its id is not
    added to the dirty ids; every other item is appended as a new shadow
    row, after the existing ones, and its id is added to the dirty and to
    the updated ids.  The existing shadow rows keep their places.  On a
    table whose key is the id column they keep their ids, a row of an id
    that no item of the update statement has is left as it is, and a row of
    the id of such an item gets the item's values in the columns of the
    statement (the last item of that id deciding) and keeps its other
    columns. *)
Theorem update_items_updates_staged_inserts_others
    (tablename : string) (items : list item) (st : diff_db_map) :
  let T := shadow_table tablename in
  let f := id_column T in
  let items' := _items_with_type_id tablename items in
  let in_diff := (added_item_id st !!! T) ∪ (updated_item_id st !!! T) in
  let upd := List.filter (is_staged in_diff f) items' in
  let ins := List.filter (λ it, negb (is_staged in_diff f it)) items' in
  let pk := _get_primary_key T in
  let cols := update_columns columns T upd in
  let rows := diff_tables st !!! T in
  Forall (λ it : item, is_Some (it !! f)) items' →
  forallb (binds (pk ++ elements cols)) upd = true →
  ∃ st',
    _update_items _items_with_type_id _get_primary_key columns tablename items st
      = (Ok (ids_of f items'), st')
    ∧ diff_tables st' !!! T
      = map (λ row, foldl (λ row it, update_row pk cols it row) row upd) rows ++ ins
    ∧ dirty_item_id st' !!! T = (dirty_item_id st !!! T) ∪ ids_of f ins
    ∧ updated_item_id st' !!! T = (updated_item_id st !!! T) ∪ ids_of f ins
    ∧ added_item_id st' = added_item_id st
    ∧ (∀ it id_, it ∈ items' → it !! f = Some id_ →
        (id_ ∈ in_diff →
         it ∈ upd ∧ (it ∉ ins)
         ∧ (id_ ∈ dirty_item_id st' !!! T ↔ id_ ∈ dirty_item_id st !!! T))
        ∧ (id_ ∉ in_diff →
           it ∈ ins ∧ it ∈ diff_tables st' !!! T
           ∧ id_ ∈ dirty_item_id st' !!! T ∧ id_ ∈ updated_item_id st' !!! T))
    ∧ length (diff_tables st' !!! T) = length rows + length ins
    ∧ (∀ j it, ins !! j = Some it →
         (diff_tables st' !!! T) !! (length rows + j) = Some it)
    ∧ (pk = [f] →
       ∀ i row, rows !! i = Some row →
         ∃ row',
           (diff_tables st' !!! T) !! i = Some row'
           ∧ row' !! f = row !! f
           ∧ ((∀ it, it ∈ upd → it !! f ≠ row !! f) → row' = row)
           ∧ ∀ l1 it l2 id_,
               upd = l1 ++ it :: l2 →
               it !! f = Some id_ →
               (∀ it', it' ∈ l2 → it' !! f ≠ Some id_) →
               row !! f = Some id_ →
               id_ ≠ VNone →
               ∀ c, row' !! c = if bool_decide (c ∈ cols) then it !! c else row !! c).
Proof.
  intros T f items' in_diff upd ins pk cols rows Hids Hbinds.
  destruct (do_update_items_rows _get_primary_key columns T upd ins st Hbinds)
    as (st1 & Hdo & Hrows & Hadded & Hupdated & Hdirty).
  fold pk cols rows in Hrows.
  unfold _update_items, _get_items_for_update_and_insert.
  rewrite real_tablename_shadow_table. fold T. rewrite id_field_id_column. fold f.
  fold items'. fold in_diff.
  rewrite (get_items_loop_spec in_diff f items' [] [] ∅ ∅ Hids).
  cbn [app]. fold upd. fold ins. rewrite !(left_id_L ∅ (∪)).
  rewrite Hdo.
  eexists. split; [reflexivity|].
  cbn [update_updated_item_id _mark_as_dirty diff_tables dirty_item_id
       updated_item_id added_item_id].
  rewrite !lookup_total_insert_eq, Hdirty, Hupdated.
  split; [exact Hrows|]. split; [done|]. split; [done|]. split; [exact Hadded|].
  split; [|split; [by rewrite Hrows, length_app, length_map|split]].
  - intros it id_ Hit Hid.
    assert (Hs : is_staged in_diff f it = bool_decide (id_ ∈ in_diff)).
    { unfold is_staged. by rewrite Hid. }
    split.
    + intros Hin.
      assert (Hupd : it ∈ upd).
      { apply filter_elem_of. split; [done|]. rewrite Hs. by apply bool_decide_eq_true_2. }
      assert (Hnot : ∀ it', it' ∈ ins → it' !! f ≠ Some id_).
      { intros it' [_ Hn]%filter_elem_of Hid'. unfold is_staged in Hn.
        rewrite Hid' in Hn. by rewrite bool_decide_eq_true_2 in Hn. }
      split; [exact Hupd|]. split.
      * intros Hins. by apply (Hnot it Hins).
      * rewrite elem_of_union.
        rewrite (elem_of_ids_of _items_with_type_id _get_primary_key columns).
        split; [|by left].
        intros [?|(it' & Hit' & Hid')]; [done|]. by destruct (Hnot it' Hit').
    + intros Hnin.
      assert (Hins : it ∈ ins).
      { apply filter_elem_of. split; [done|]. rewrite Hs.
        by rewrite bool_decide_eq_false_2. }
      split; [exact Hins|]. split; [|split].
      * rewrite Hrows. apply elem_of_app. by right.
      * apply elem_of_union. right.
        apply (elem_of_ids_of _items_with_type_id _get_primary_key columns). by exists it.
      * apply elem_of_union. right.
        apply (elem_of_ids_of _items_with_type_id _get_primary_key columns). by exists it.
  - intros j it Hj. rewrite Hrows, lookup_app_r; rewrite length_map; [|lia].
    by replace (length rows + j - length rows) with j by lia.
  - intros Hpk i row Hi. rewrite Hpk in Hrows, Hbinds.
    exists (foldl (λ row it, update_row [f] cols it row) row upd).
    split; [|split; [|split]].
    + rewrite Hrows, lookup_app_l.
      * change (map ?g ?l) with (g <$> l). by rewrite list_lookup_fmap, Hi.
      * rewrite length_map. by eapply lookup_lt_Some.
    + apply updates_keep_id.
    + apply updates_other_ids.
    + intros l1 it l2 id_ Hsplit Hit Hl2 Hrow Hid c.
      assert (Hin : it ∈ upd).
      { rewrite Hsplit. apply elem_of_app. right. apply list_elem_of_here. }
      rewrite Hsplit at 1.
      apply (updates_last f cols l1 l2 it row id_); try done.
      intros c' Hc'. by apply (binds_columns [f] cols upd it c' Hbinds).
Qed.

End diff_update_theorem.

(** A staged session on the alternatives: alternative 2 was added in this
    session and has a shadow row; alternative 1 is in the original table
    only.  Both are updated. *)
Definition staged_alternatives : diff_db_mapping.diff_db_map :=
  {| diff_db_mapping.added_item_id := {[ "alternative" := {[ VInt 2 ]} ]};
     diff_db_mapping.updated_item_id := ∅;
     diff_db_mapping.dirty_item_id := ∅;
     diff_db_mapping.diff_tables :=
       {[ "alternative" := [ {[ "id" := VInt 2; "name" := VStr "high" ]} ] ]};
     diff_db_mapping.has_pending_changes := true |}.

Definition renamed_alternatives : list (gmap string value) :=
  [ {[ "id" := VInt 2; "name" := VStr "higher" ]};
    {[ "id" := VInt 1; "name" := VStr "base" ]} ].

(** A staged session on the object classes, whose shadow rows are those
    of [entity_class]: the classes 2 and 3 were added in this session and
    have shadow rows; class 1 is in the original table only.  The classes 2
    and 1 are renamed. *)
Definition staged_classes : diff_db_mapping.diff_db_map :=
  {| diff_db_mapping.added_item_id := {[ "entity_class" := {[ VInt 2; VInt 3 ]} ]};
     diff_db_mapping.updated_item_id := ∅;
     diff_db_mapping.dirty_item_id := ∅;
     diff_db_mapping.diff_tables :=
       {[ "entity_class" := [ {[ "id" := VInt 2; "name" := VStr "fish" ]};
                              {[ "id" := VInt 3; "name" := VStr "dog" ]} ] ]};
     diff_db_mapping.has_pending_changes := true |}.

Definition renamed_classes : list (gmap string value) :=
  [ {[ "id" := VInt 2; "name" := VStr "shark" ]};
    {[ "id" := VInt 1; "name" := VStr "cat" ]} ].

Lemma update_items_updates_staged_inserts_others_witness :
  ∃ st',
    diff_db_mapping._update_items (λ _ items, items) (λ _, ["id"])
      (λ _, {[ "id"; "name" ]}) "object_class" renamed_classes staged_classes
    = (Ok {[ VInt 1; VInt 2 ]}, st')
    ∧ diff_db_mapping.diff_tables st' !!! "entity_class"
      = [ {[ "id" := VInt 2; "name" := VStr "shark" ]};
          {[ "id" := VInt 3; "name" := VStr "dog" ]};
          {[ "id" := VInt 1; "name" := VStr "cat" ]} ]
    ∧ diff_db_mapping.dirty_item_id st' !!! "entity_class" = {[ VInt 1 ]}
    ∧ diff_db_mapping.updated_item_id st' !!! "entity_class" = {[ VInt 1 ]}
    ∧ ∃ row',
        (diff_db_mapping.diff_tables st' !!! "entity_class") !! 1%nat = Some row'
        ∧ row' = {[ "id" := VInt 3; "name" := VStr "dog" ]}.
Proof.
  destruct (update_items_updates_staged_inserts_others
              (λ _ items, items) (λ _, ["id"]) (λ _, {[ "id"; "name" ]})
              "object_class" renamed_classes staged_classes)
    as (st' & Heq & Hrows & Hdirty & Hupdated & _ & _ & _ & _ & Hrow).
  - repeat constructor; by eexists.
  - vm_compute. reflexivity.
  - exists st'. split; [|split; [|split; [|split]]].
    + rewrite Heq. reflexivity.
    + etrans; [exact Hrows|]. vm_compute. reflexivity.
    + etrans; [exact Hdirty|]. vm_compute. reflexivity.
    + etrans; [exact Hupdated|]. vm_compute. reflexivity.
    + destruct (Hrow eq_refl 1%nat {[ "id" := VInt 3; "name" := VStr "dog" ]} eq_refl)
        as (row' & Hat & _ & Hsame & _).
      exists row'. split; [exact Hat|]. apply Hsame.
      intros it Hit%list_elem_of_In. vm_compute in Hit.
      destruct Hit as [<-|[]]. vm_compute. discriminate.
Defined.

(** ** Allocation of ids *)

Section allocator_properties.
Import add_diff_database_mapping.
Variable flush_ok : nat → bool.
Variable write_ok : nat → bool.

(** The counter the session reads, and the id an allocation starts from:
    the counter when it has a value other than 0, else one more than the
    largest id of the table, or 1 for the empty table. *)
Definition session_counter (m : mapping) : option Z :=
  match next_id (session m) with
  | row :: _ => object_class_id row
  | [] => None
  end.

Definition after_max (rows : list object_class_row) : Z :=
  match max_id rows with
  | Some x => (x + 1)%Z
  | None => 1%Z
  end.

Definition start_id (m : mapping) : Z :=
  if truthy (session_counter m) then default 0%Z (session_counter m)
  else after_max (object_class (session m)).

Lemma fallback_after_max (rows : list object_class_row) :
  (if truthy (max_id rows) then (default 0 (max_id rows) + 1)%Z else 1%Z)
  = after_max rows.
Proof.
  unfold after_max, truthy. destruct (max_id rows) as [x|]; [|done].
  case_bool_decide; by subst.
Qed.


(** An allocation that the engine lets through. *)
Lemma add_object_classes_ok (kwargs_list : list (gmap string value)) (date : Z)
    (m : mapping) :
  length (next_id (session m)) ≤ 1 →
  flush_ok (flushes m) = true →
  write_ok (writes m) = true →
  ∃ m',
    _add_object_classes flush_ok write_ok kwargs_list date m
    = (Ok (list_to_set (seqZ (start_id m) (Z.of_nat (length kwargs_list)))), m')
    ∧ persisted_counter m' = Some (start_id m + Z.of_nat (length kwargs_list))%Z
    ∧ session_counter m' = Some (start_id m + Z.of_nat (length kwargs_list))%Z
    ∧ length (next_id (session m')) ≤ 1
    ∧ object_class (session m') = object_class (session m)
    ∧ flushes m' = S (flushes m)
    ∧ writes m' = S (writes m).
Proof.
  intros Hrows Hflush Hwrite.
  unfold _add_object_classes, next_id_with_lock, start_id, session_counter.
  destruct (next_id (session m)) as [|row [|row' rows]]; [| |cbn in Hrows; lia].
  - rewrite Hflush. cbn [with_session writes session object_class
      add_diff_database_mapping.object_class_id].
    rewrite Hwrite, fallback_after_max. cbn [truthy].
    eexists. split; [reflexivity|]. by cbn.
  - rewrite Hflush. cbn [with_session writes session object_class
      add_diff_database_mapping.object_class_id].
    rewrite Hwrite, fallback_after_max.
    eexists. split; [reflexivity|]. by cbn.
Qed.

(** An allocation whose flush fails. *)
Lemma add_object_classes_flush_fails (kwargs_list : list (gmap string value))
    (date : Z) (m : mapping) :
  length (next_id (session m)) ≤ 1 →
  flush_ok (flushes m) = false →
  _add_object_classes flush_ok write_ok kwargs_list date m
  = (Raise (SpineDBAPIError [Lit "Unable to get next id: "; OrigArgs]),
     {| username := username m; stored := stored m; session := stored m;
        new_item_id := new_item_id m; flushes := S (flushes m);
        writes := writes m |}).
Proof.
  intros Hrows Hflush.
  unfold _add_object_classes, next_id_with_lock.
  destruct (next_id (session m)) as [|row [|row' rows]]; [| |cbn in Hrows; lia];
    by rewrite Hflush.
Qed.



End allocator_properties.

(** A database with three object classes and no row in [next_id]; the
    engine lets everything through but the third flush. *)
Definition three_classes : add_diff_database_mapping.mapping :=
  let t :=
    {| add_diff_database_mapping.next_id := [];
       add_diff_database_mapping.object_class :=
         [ {| add_diff_database_mapping.id := 1; add_diff_database_mapping.name := "fish" |};
           {| add_diff_database_mapping.id := 2; add_diff_database_mapping.name := "dog" |};
           {| add_diff_database_mapping.id := 5; add_diff_database_mapping.name := "cat" |} ];
       add_diff_database_mapping.diff_object_class := [] |} in
  {| add_diff_database_mapping.username := "anon";
     add_diff_database_mapping.stored := t;
     add_diff_database_mapping.session := t;
     add_diff_database_mapping.new_item_id := ∅;
     add_diff_database_mapping.flushes := 0;
     add_diff_database_mapping.writes := 0 |}.

Definition third_flush_fails (n : nat) : bool := negb (Nat.eqb n 2).

Definition two_new_classes : list (gmap string value) :=
  [ {[ "name" := VStr "bird" ]}; {[ "name" := VStr "horse" ]} ].


(** The same relationship without a [type_id]: the wrong order of its
    objects is an integrity error. *)
Definition pluto_nemo_untyped : check_functions.wide_relationship_item :=
  {| check_functions.rel_name := Some "pluto_nemo";
     check_functions.rel_class_id := Some 3%Z;
     check_functions.rel_type_id := None;
     check_functions.rel_object_id_list := Some [11; 10]%Z |}.

Lemma check_wide_relationship_mismatch_integrity_error_witness :
  is_integrity_error
    (check_functions.check_wide_relationship pluto_nemo_untyped ∅ ∅
       fish_dog_classes fish_dog_objects 2) = true.
Proof.
  apply (check_wide_relationship_mismatch_integrity_error pluto_nemo_untyped ∅ ∅
           fish_dog_classes fish_dog_objects 2 3
           {| check_functions.rc_name := "fish__dog";
              check_functions.rc_object_class_id_list := [1; 2]%Z |}
           [11; 10]%Z [2; 1]%Z);
    [reflexivity | reflexivity | reflexivity | reflexivity | discriminate | by left].
Defined.

Lemma check_wide_relationship_mismatch_rejected_witness :
  check_functions.check_wide_relationship pluto_nemo ∅ ∅
    fish_dog_classes fish_dog_objects 2 ≠ Ok ()
  ∧ check_functions.check_wide_relationship pluto_nemo_untyped ∅ ∅
      fish_dog_classes fish_dog_objects 2 ≠ Ok ().
Proof.
  split.
  - apply (check_wide_relationship_mismatch_rejected pluto_nemo ∅ ∅
             fish_dog_classes fish_dog_objects 2 3
             {| check_functions.rc_name := "fish__dog";
                check_functions.rc_object_class_id_list := [1; 2]%Z |}
             [11; 10]%Z [2; 1]%Z);
      [reflexivity | reflexivity | reflexivity | reflexivity | discriminate].
  - apply (check_wide_relationship_mismatch_rejected pluto_nemo_untyped ∅ ∅
             fish_dog_classes fish_dog_objects 2 3
             {| check_functions.rc_name := "fish__dog";
                check_functions.rc_object_class_id_list := [1; 2]%Z |}
             [11; 10]%Z [2; 1]%Z);
      [reflexivity | reflexivity | reflexivity | reflexivity | discriminate].
Defined.

(** * Part III: further properties of the code *)

(** ** More on [in_] and the filters *)

(** The clause ids a subquery refers to have been handed out. *)
Definition clause_known (db : db_mapping_base.db_map) (cond : db_mapping_base.clause)
    : Prop :=
  match cond with
  | db_mapping_base.in_ids_for_in n => n ≤ db_mapping_base._ids_for_in_clause_id db
  | _ => True
  end.

Fixpoint clauses_known (db : db_mapping_base.db_map) (sq : db_mapping_base.subquery)
    : Prop :=
  match sq with
  | db_mapping_base.parameter_value_sq_default => True
  | db_mapping_base.scenario_filtered_sq original _ => clauses_known db original
  | db_mapping_base.alternative_filtered_sq original cond =>
    clauses_known db original ∧ clause_known db cond
  end.

(** [db'] is [db] after some calls of [in_]: the tables are the same, and
    the clauses handed out in [db] hold of the same values. *)
Definition extends (db db' : db_mapping_base.db_map) : Prop :=
  db_mapping_base.alternative_sq db' = db_mapping_base.alternative_sq db
  ∧ db_mapping_base.scenario_sq db' = db_mapping_base.scenario_sq db
  ∧ db_mapping_base.scenario_alternative_sq db' = db_mapping_base.scenario_alternative_sq db
  ∧ db_mapping_base.parameter_value_rows db' = db_mapping_base.parameter_value_rows db
  ∧ db_mapping_base._ids_for_in_clause_id db ≤ db_mapping_base._ids_for_in_clause_id db'
  ∧ ∀ n v, n ≤ db_mapping_base._ids_for_in_clause_id db →
      db_mapping_base.holds db' (db_mapping_base.in_ids_for_in n) v
      = db_mapping_base.holds db (db_mapping_base.in_ids_for_in n) v.

Section in_properties.
Import db_mapping_base alternative_value_filter.

Lemma extends_refl (db : db_map) : extends db db.
Proof. by repeat split. Qed.

Lemma extends_trans (db1 db2 db3 : db_map) :
  extends db1 db2 → extends db2 db3 → extends db1 db3.
Proof.
  intros (Ha & Hs & Hsa & Hp & Hc & Hh) (Ha' & Hs' & Hsa' & Hp' & Hc' & Hh').
  repeat split; try congruence; [lia|].
  intros n v Hn. rewrite Hh' by lia. by apply Hh.
Qed.

Lemma clause_known_extends (db db' : db_map) (cond : clause) :
  extends db db' → clause_known db cond → clause_known db' cond.
Proof.
  intros (_ & _ & _ & _ & Hc & _). destruct cond; cbn; [done..|lia].
Qed.

Lemma clauses_known_extends (db db' : db_map) (sq : subquery) :
  extends db db' → clauses_known db sq → clauses_known db' sq.
Proof.
  intros He. induction sq as [|o IH s|o IH c]; cbn; [done|done|].
  intros [Ho Hc]. split; [by apply IH|by eapply clause_known_extends].
Qed.

Lemma holds_extends (db db' : db_map) (cond : clause) (v : value) :
  extends db db' → clause_known db cond → holds db' cond v = holds db cond v.
Proof.
  intros (_ & _ & _ & _ & _ & Hh). destruct cond as [| |n]; [done..|].
  cbn [clause_known]. apply Hh.
Qed.

(** What a subquery gives does not change with later calls of [in_]. *)
Lemma all_extends (db db' : db_map) (sq : subquery) :
  extends db db' → clauses_known db sq → all db' sq = all db sq.
Proof.
  intros He. pose proof He as (_ & _ & Hsa & Hp & _).
  induction sq as [|o IH s|o IH c]; cbn [all clauses_known].
  - done.
  - intros Ho. by rewrite Hsa, IH.
  - intros [Ho Hc]. rewrite IH by done.
    apply filter_ext. intros v. by apply holds_extends.
Qed.

(** [in_] without the wildcard: the new clause holds of exactly the ids, it
    is known afterwards, and the mapping is extended. *)
Lemma in_frame (db : db_map) (ids : list value) :
  Anyone ∉ ids →
  ids_for_in_fresh db →
  ∃ cond db',
    in_ ids db = (Ok cond, db')
    ∧ ids_for_in_fresh db'
    ∧ extends db db'
    ∧ clause_known db' cond
    ∧ ∀ v, holds db' cond v = bool_decide (v ∈ ids).
Proof.
  intros Hany Hfresh. unfold in_.
  rewrite (bool_decide_eq_false_2 _ Hany).
  destruct ids as [|i ids].
  - exists sql_false, db. split; [done|]. split; [done|].
    split; [apply extends_refl|]. split; [done|].
    intros v. symmetry. apply bool_decide_eq_false_2, not_elem_of_nil.
  - eexists _, _. split; [reflexivity|].
    set (n := S (_ids_for_in_clause_id db)).
    set (new := map (λ id_, (n, id_)) (i :: ids)).
    assert (Hold : ∀ k, k ≤ _ids_for_in_clause_id db →
              List.filter (λ r : nat * value, Nat.eqb r.1 k) new = []).
    { intros k Hk. apply filter_nothing. intros r (x & <- & _)%map_elem_of.
      apply Nat.eqb_neq. cbn. unfold n. lia. }
    assert (Hnone : List.filter (λ r : nat * value, Nat.eqb r.1 n) (ids_for_in db) = []).
    { apply filter_nothing. intros r Hr. apply Hfresh in Hr.
      apply Nat.eqb_neq. unfold n. lia. }
    assert (Hnew : List.filter (λ r : nat * value, Nat.eqb r.1 n) new = new).
    { apply filter_all. intros r (x & <- & _)%map_elem_of. apply Nat.eqb_refl. }
    split; [|split; [|split]].
    + intros r. simpl. intros [Hr|Hr]%elem_of_app.
      * apply Hfresh in Hr. lia.
      * apply map_elem_of in Hr as (x & <- & _). simpl. lia.
    + unfold extends. cbn [alternative_sq scenario_sq scenario_alternative_sq
        parameter_value_rows _ids_for_in_clause_id].
      split; [done|]. split; [done|]. split; [done|]. split; [done|].
      split; [lia|].
      intros k v Hk. unfold holds. cbn [ids_for_in]. fold n. fold new.
      by rewrite List.filter_app, (Hold k Hk), app_nil_r.
    + cbn. lia.
    + intros v. unfold holds. cbn [ids_for_in].
      rewrite List.filter_app, Hnone, Hnew. cbn [app].
      unfold new. rewrite map_map. cbn [snd]. by rewrite map_id.
Qed.

(** X3: clauses built by successive calls of [in_] do not interfere: after
    a second call, the first clause still holds of exactly the ids it was
    built from, and the second of exactly its own. *)
Theorem in_isolates_clauses (db : db_map) (ids1 ids2 : list value) :
  Anyone ∉ ids1 →
  Anyone ∉ ids2 →
  ids_for_in_fresh db →
  ∃ cond1 db1 cond2 db2,
    in_ ids1 db = (Ok cond1, db1)
    ∧ in_ ids2 db1 = (Ok cond2, db2)
    ∧ ∀ v, holds db2 cond1 v = bool_decide (v ∈ ids1)
           ∧ holds db2 cond2 v = bool_decide (v ∈ ids2).
Proof.
  intros H1 H2 Hfresh.
  destruct (in_frame db ids1 H1 Hfresh) as (cond1 & db1 & E1 & Hf1 & He1 & Hk1 & Hh1).
  destruct (in_frame db1 ids2 H2 Hf1) as (cond2 & db2 & E2 & Hf2 & He2 & Hk2 & Hh2).
  exists cond1, db1, cond2, db2. split; [done|]. split; [done|].
  intros v. split; [|apply Hh2].
  rewrite (holds_extends db1 db2 cond1 v He2 Hk1). apply Hh1.
Qed.

End in_properties.

Lemma in_isolates_clauses_witness :
  ∃ cond1 db1 cond2 db2,
    db_mapping_base.in_ [VInt 1; VInt 2] two_alternatives = (Ok cond1, db1)
    ∧ db_mapping_base.in_ [VInt 2; VInt 3] db1 = (Ok cond2, db2)
    ∧ db_mapping_base.holds db2 cond1 (VInt 1) = true
    ∧ db_mapping_base.holds db2 cond1 (VInt 3) = false
    ∧ db_mapping_base.holds db2 cond2 (VInt 1) = false
    ∧ db_mapping_base.holds db2 cond2 (VInt 3) = true.
Proof.
  destruct (in_isolates_clauses two_alternatives [VInt 1; VInt 2] [VInt 2; VInt 3])
    as (cond1 & db1 & cond2 & db2 & E1 & E2 & H).
  - apply (bool_decide_unpack _). vm_compute. exact I.
  - apply (bool_decide_unpack _). vm_compute. exact I.
  - intros r Hr. by apply elem_of_nil in Hr.
  - exists cond1, db1, cond2, db2. split; [exact E1|]. split; [exact E2|].
    destruct (H (VInt 1)) as [-> ->]. destruct (H (VInt 3)) as [-> ->].
    repeat split; vm_compute; reflexivity.
Defined.

(** ** What the alternative filter keeps *)

(** Whether [a] is the id of an alternative of the database that the list
    names, by its name or by its id. *)
Definition listed (db : db_mapping_base.db_map) (alternatives : list value) (a : Z)
    : bool :=
  existsb
    (λ r, bool_decide (db_mapping_base.alternative_id r = a)
          && (bool_decide (VStr (db_mapping_base.alternative_name r) ∈ alternatives)
              || bool_decide (VInt (db_mapping_base.alternative_id r) ∈ alternatives)))
    (db_mapping_base.alternative_sq db).

(** The alternatives of the database have distinct names and distinct ids. *)
Definition unique_alternatives (db : db_mapping_base.db_map) : Prop :=
  NoDup (map db_mapping_base.alternative_name (db_mapping_base.alternative_sq db))
  ∧ NoDup (map db_mapping_base.alternative_id (db_mapping_base.alternative_sq db)).

(** Every name and id of the list is one of the database, and the list
    repeats no name and no id. *)
Definition resolvable (db : db_mapping_base.db_map) (alternatives : list value) : Prop :=
  unresolved_names db alternatives = []
  ∧ NoDup (omap as_str alternatives)
  ∧ unresolved_ids db alternatives = []
  ∧ NoDup (omap as_int alternatives).

(** [apply_alternative_filter_to_parameter_value_sq] followed by one call
    of the maker it installs. *)
Definition alternative_filter_sq (original : db_mapping_base.subquery)
    (alternatives : option (list value)) : db_mapping_base.M db_mapping_base.subquery :=
  db_mapping_base.bind
    (alternative_value_filter.new_AlternativeFilterState original alternatives)
    alternative_value_filter._make_alternative_filtered_parameter_value_sq.

Section alternative_filter_success.
Import db_mapping_base alternative_value_filter.

Lemma elem_of_omap_as_str (l : list value) (x : string) :
  x ∈ omap as_str l ↔ VStr x ∈ l.
Proof.
  rewrite list_elem_of_omap. split.
  - intros (v & Hv & E). destruct v; try done. by injection E as ->.
  - intros Hx. by exists (VStr x).
Qed.

Lemma elem_of_omap_as_int (l : list value) (x : Z) :
  x ∈ omap as_int l ↔ VInt x ∈ l.
Proof.
  rewrite list_elem_of_omap. split.
  - intros (v & Hv & E). destruct v; try done. by injection E as ->.
  - intros Hx. by exists (VInt x).
Qed.

Lemma filter_twice {A} (f g : A → bool) (l : list A) :
  List.filter f (List.filter g l) = List.filter (λ x, g x && f x) l.
Proof.
  induction l as [|a l IH]; [done|]. cbn [List.filter].
  destruct (g a); cbn [List.filter andb]; [|done].
  destruct (f a); by rewrite IH.
Qed.

Lemma listed_spec (db : db_map) (alternatives : list value) (a : Z) :
  listed db alternatives a = true
  ↔ ∃ r, r ∈ alternative_sq db ∧ alternative_id r = a
         ∧ (VStr (alternative_name r) ∈ alternatives
            ∨ VInt (alternative_id r) ∈ alternatives).
Proof.
  unfold listed. rewrite existsb_exists. split.
  - intros (r & Hr%list_elem_of_In & H). exists r. split; [done|].
    apply andb_true_iff in H as [H1 H2]. apply bool_decide_eq_true in H1.
    split; [done|]. apply orb_true_iff in H2 as [H2|H2];
      apply bool_decide_eq_true in H2; [by left|by right].
  - intros (r & Hr & Ha & H). exists r. rewrite <- list_elem_of_In. split; [done|].
    apply andb_true_iff. split; [by apply bool_decide_eq_true_2|].
    apply orb_true_iff. destruct H; [left|right]; by apply bool_decide_eq_true_2.
Qed.

Lemma listed_extends (db db' : db_map) (alternatives : list value) (a : Z) :
  extends db db' → listed db' alternatives a = listed db alternatives a.
Proof. intros (Ha & _). unfold listed. by rewrite Ha. Qed.

Lemma unique_alternatives_extends (db db' : db_map) :
  extends db db' → unique_alternatives db → unique_alternatives db'.
Proof. intros (Ha & _). unfold unique_alternatives. by rewrite Ha. Qed.

Lemma resolvable_extends (db db' : db_map) (alternatives : list value) :
  extends db db' → resolvable db alternatives → resolvable db' alternatives.
Proof.
  intros (Ha & _). unfold resolvable, unresolved_names, unresolved_ids.
  by rewrite Ha.
Qed.

(** The ids [_alternative_ids] returns for a resolvable list. *)
Lemma alternative_ids_ok (db : db_map) (alternatives : list value) :
  ids_for_in_fresh db →
  unique_alternatives db →
  resolvable db alternatives →
  ∃ ids db',
    _alternative_ids alternatives db = (Ok ids, db')
    ∧ ids_for_in_fresh db'
    ∧ extends db db'
    ∧ (Anyone ∉ ids)
    ∧ ∀ a, VInt a ∈ ids ↔ listed db alternatives a = true.
Proof.
  intros Hfresh [Hnames Hids] (Hun & Hndn & Hui & Hndi).
  unfold _alternative_ids, unresolved_names, unresolved_ids in *.
  set (names := omap as_str alternatives) in *.
  set (ids := omap as_int alternatives) in *.
  destruct (in_frame db (map VStr names) (omap_as_str_no_Anyone _) Hfresh)
    as (cond1 & db1 & Hin1 & Hfresh1 & Hext1 & _ & Hholds1).
  pose proof Hext1 as (Halt1 & _).
  destruct (lookup_report alternative_name (alternative_sq db) names
              (λ r, holds db1 cond1 (VStr (alternative_name r)))) as (Hm1 & _ & Heq1).
  { intros r. rewrite Hholds1. apply bool_decide_ext, elem_of_map_VStr. }
  { exact Hnames. }
  rewrite <- Hm1 in Hun. specialize (Heq1 Hun Hndn).
  destruct (in_frame db1 (map VInt ids) (omap_as_int_no_Anyone _) Hfresh1)
    as (cond2 & db2 & Hin2 & Hfresh2 & Hext2 & _ & Hholds2).
  pose proof Hext2 as (Halt2 & _).
  destruct (lookup_report alternative_id (alternative_sq db) ids
              (λ r, holds db2 cond2 (VInt (alternative_id r)))) as (Hm2 & _ & Heq2).
  { intros r. rewrite Hholds2. apply bool_decide_ext, elem_of_map_VInt. }
  { exact Hids. }
  rewrite <- Hm2 in Hui. specialize (Heq2 Hui Hndi).
  eexists _, db2. split.
  { unfold bind, get, raise, ret. rewrite Hin1. cbv beta iota. rewrite Halt1.
    rewrite length_map, (proj2 (Nat.eqb_eq _ _) Heq1). cbn [negb].
    rewrite Hin2. cbv beta iota. rewrite Halt2, Halt1.
    rewrite (proj2 (Nat.eqb_eq _ _) Heq2). cbn [negb]. reflexivity. }
  split; [done|]. split; [by eapply extends_trans|].
  split; [apply omap_as_int_no_Anyone|].
  intros a. rewrite elem_of_map_VInt, elem_of_app, listed_spec. split.
  - intros [H|H]; apply map_elem_of in H as (r & Hr & Hin);
      apply filter_elem_of in Hin as [Hin Hh]; exists r; (split; [done|]);
      (split; [done|]).
    + left. rewrite Hholds1 in Hh. apply bool_decide_eq_true in Hh.
      apply elem_of_map_VStr in Hh. by apply elem_of_omap_as_str.
    + right. rewrite Hholds2 in Hh. apply bool_decide_eq_true in Hh.
      apply elem_of_map_VInt in Hh. by apply elem_of_omap_as_int.
  - intros (r & Hr & Ha & [H|H]); [left|right]; apply map_elem_of; exists r;
      (split; [done|]); apply filter_elem_of; (split; [done|]).
    + rewrite Hholds1. apply bool_decide_eq_true_2, elem_of_map_VStr.
      by apply elem_of_omap_as_str.
    + rewrite Hholds2. apply bool_decide_eq_true_2, elem_of_map_VInt.
      by apply elem_of_omap_as_int.
Qed.

(** The subquery the filter builds for a resolvable list. *)
Lemma alternative_filter_sq_spec (db : db_map) (original : subquery)
    (alternatives : list value) :
  ids_for_in_fresh db →
  clauses_known db original →
  unique_alternatives db →
  resolvable db alternatives →
  ∃ sq db',
    alternative_filter_sq original (Some alternatives) db = (Ok sq, db')
    ∧ ids_for_in_fresh db'
    ∧ extends db db'
    ∧ clauses_known db' sq
    ∧ all db' sq
      = List.filter (λ v, listed db alternatives (pv_alternative_id v)) (all db original).
Proof.
  intros Hfresh Hknown Huniq Hres.
  destruct (alternative_ids_ok db alternatives Hfresh Huniq Hres)
    as (ids & db1 & Hids & Hfresh1 & Hext1 & Hany & Hlisted).
  destruct (in_frame db1 ids Hany Hfresh1)
    as (cond & db2 & Hin & Hfresh2 & Hext2 & Hk & Hholds).
  assert (Hext : extends db db2) by by eapply extends_trans.
  exists (alternative_filtered_sq original cond), db2. split.
  { unfold alternative_filter_sq, new_AlternativeFilterState,
      _make_alternative_filtered_parameter_value_sq, bind, ret.
    rewrite Hids. cbn [alternative_value_filter.alternatives
      alternative_original_parameter_value_sq]. by rewrite Hin. }
  split; [done|]. split; [done|]. split.
  { cbn [clauses_known]. split; [by eapply clauses_known_extends|done]. }
  cbn [all]. rewrite (all_extends db db2 original Hext Hknown).
  apply filter_ext. intros v. rewrite Hholds.
  destruct (listed db alternatives (pv_alternative_id v)) eqn:E.
  - apply bool_decide_eq_true_2. by apply Hlisted.
  - apply bool_decide_eq_false_2. intros H%Hlisted. congruence.
Qed.

(** Reading through the filter is building the subquery and querying it. *)
Lemma alternative_filtered_view_sq (db : db_map) (original : subquery)
    (alternatives : option (list value)) :
  alternative_filtered_view original alternatives db
  = match alternative_filter_sq original alternatives db with
    | (Ok sq, db') => (Ok (all db' sq), db')
    | (Raise e, db') => (Raise e, db')
    end.
Proof.
  unfold alternative_filtered_view, alternative_filter_sq, bind, get, ret.
  destruct (new_AlternativeFilterState original alternatives db) as [[state|e] db1];
    [|done].
  by destruct (_make_alternative_filtered_parameter_value_sq state db1) as [[sq|e] db2].
Qed.

(** X4: over a database whose alternatives have distinct names and ids,
    the alternative filter applied to a list that names existing
    alternatives only, none twice by name or twice by id, gives exactly the
    rows of the original subquery whose alternative the list names, in
    their order. *)
Theorem alternative_filter_keeps_listed (db : db_map) (original : subquery)
    (alternatives : list value) :
  ids_for_in_fresh db →
  clauses_known db original →
  unique_alternatives db →
  resolvable db alternatives →
  (alternative_filtered_view original (Some alternatives) db).1
  = Ok (List.filter (λ v, listed db alternatives (pv_alternative_id v))
          (all db original)).
Proof.
  intros Hfresh Hknown Huniq Hres.
  destruct (alternative_filter_sq_spec db original alternatives Hfresh Hknown Huniq Hres)
    as (sq & db' & E & _ & _ & _ & Hall).
  by rewrite alternative_filtered_view_sq, E, <- Hall.
Qed.

(** X5: alternative filters stack: a second filter applied over the
    subquery of a first keeps the rows whose alternative both lists name. *)
Theorem alternative_filters_compose (db : db_map) (original : subquery)
    (first second : list value) :
  ids_for_in_fresh db →
  clauses_known db original →
  unique_alternatives db →
  resolvable db first →
  resolvable db second →
  ∃ sq db',
    alternative_filter_sq original (Some first) db = (Ok sq, db')
    ∧ (alternative_filtered_view sq (Some second) db').1
      = Ok (List.filter
              (λ v, listed db first (pv_alternative_id v)
                    && listed db second (pv_alternative_id v))
              (all db original)).
Proof.
  intros Hfresh Hknown Huniq H1 H2.
  destruct (alternative_filter_sq_spec db original first Hfresh Hknown Huniq H1)
    as (sq & db' & E & Hfresh' & Hext & Hknown' & Hall).
  exists sq, db'. split; [done|].
  destruct (alternative_filter_sq_spec db' sq second Hfresh' Hknown'
              (unique_alternatives_extends _ _ Hext Huniq)
              (resolvable_extends _ _ _ Hext H2))
    as (sq2 & db2 & E2 & _ & _ & _ & Hall2).
  rewrite alternative_filtered_view_sq, E2. cbn [fst]. rewrite Hall2, Hall.
  f_equal. rewrite filter_twice. apply filter_ext. intros v.
  by rewrite (listed_extends _ _ _ _ Hext).
Qed.

End alternative_filter_success.

Lemma scenario_example_fresh : ids_for_in_fresh scenario_example.
Proof. intros r Hr. by apply elem_of_nil in Hr. Qed.

Lemma scenario_example_unique : unique_alternatives scenario_example.
Proof. split; apply (bool_decide_unpack _); vm_compute; exact I. Qed.

Lemma alternative_filter_keeps_listed_witness :
  ∃ rows,
    (alternative_value_filter.alternative_filtered_view
       db_mapping_base.parameter_value_sq_default (Some [VStr "A1"]) scenario_example).1
    = Ok rows
    ∧ map db_mapping_base.pv_value rows = ["10"].
Proof.
  eexists. split.
  - apply (alternative_filter_keeps_listed scenario_example
             db_mapping_base.parameter_value_sq_default [VStr "A1"]).
    + exact scenario_example_fresh.
    + exact I.
    + exact scenario_example_unique.
    + split; [reflexivity|]. split; [apply (bool_decide_unpack _); vm_compute; exact I|].
      split; [reflexivity|]. apply (bool_decide_unpack _); vm_compute; exact I.
  - vm_compute. reflexivity.
Defined.

Lemma alternative_filters_compose_witness :
  ∃ sq db',
    alternative_filter_sq db_mapping_base.parameter_value_sq_default
      (Some [VStr "A1"; VInt 3]) scenario_example = (Ok sq, db')
    ∧ ∃ rows,
        (alternative_value_filter.alternative_filtered_view sq (Some [VInt 2]) db').1
        = Ok rows
        ∧ map db_mapping_base.pv_value rows = ["10"].
Proof.
  destruct (alternative_filters_compose scenario_example
              db_mapping_base.parameter_value_sq_default [VStr "A1"; VInt 3] [VInt 2])
    as (sq & db' & E & H).
  - exact scenario_example_fresh.
  - exact I.
  - exact scenario_example_unique.
  - split; [reflexivity|]. split; [apply (bool_decide_unpack _); vm_compute; exact I|].
    split; [reflexivity|]. apply (bool_decide_unpack _); vm_compute; exact I.
  - split; [reflexivity|]. split; [apply (bool_decide_unpack _); vm_compute; exact I|].
    split; [reflexivity|]. apply (bool_decide_unpack _); vm_compute; exact I.
  - exists sq, db'. split; [exact E|]. eexists. split; [exact H|].
    vm_compute. reflexivity.
Defined.

(** ** Lists that repeat an alternative *)

Section repeats.
Context {A B : Type} `{EqDecision B}.

(** Rows with distinct keys cannot be as many as wanted keys with a
    repetition. *)
Lemma found_fewer_repeated (key : A → B) (rows : list A) (wanted : list B) :
  NoDup (map key rows) →
  ¬ NoDup wanted →
  length (List.filter (λ r, bool_decide (key r ∈ wanted)) rows) < length wanted.
Proof.
  intros Hnd Hrep.
  set (found := List.filter _ rows).
  assert (Hfound : NoDup (map key found)) by by apply map_filter_NoDup.
  assert (Hsub : map key found ⊆+ wanted).
  { apply NoDup_submseteq; [done|].
    intros y (r & <- & Hin)%map_elem_of.
    apply filter_elem_of in Hin as [_ Hin]. by apply bool_decide_eq_true in Hin. }
  destruct (decide (length wanted ≤ length (map key found))) as [Hle|Hlt].
  - exfalso. apply Hrep.
    by rewrite <- (submseteq_length_Permutation _ _ Hsub Hle).
  - rewrite length_map in Hlt. lia.
Qed.

End repeats.

Section alternative_filter_repeats.
Import db_mapping_base alternative_value_filter.

(** X6: over a database whose alternatives have distinct names and ids, a
    list that repeats a name is rejected whether or not its names exist:
    the error lists the unresolved names, which are none when all exist.
    Likewise, when the names are fine, for a list that repeats an id. *)
Theorem alternative_filter_rejects_repeats
    (db : db_map) (original : subquery) (alternatives : list value) :
  ids_for_in_fresh db →
  unique_alternatives db →
  (¬ NoDup (omap as_str alternatives) →
   (alternative_filtered_view original (Some alternatives) db).1
   = Raise (SpineDBAPIError
       [Lit "Alternative(s) "; StrTuple (unresolved_names db alternatives);
        Lit " not found"]))
  ∧ (unresolved_names db alternatives = [] →
     NoDup (omap as_str alternatives) →
     ¬ NoDup (omap as_int alternatives) →
     (alternative_filtered_view original (Some alternatives) db).1
     = Raise (SpineDBAPIError
         [Lit "Alternative id(s) "; IntTuple (unresolved_ids db alternatives);
          Lit " not found"])).
Proof.
  intros Hfresh [Hnames Hids].
  unfold alternative_filtered_view, new_AlternativeFilterState, _alternative_ids,
    unresolved_names, unresolved_ids.
  set (names := omap as_str alternatives).
  set (ids := omap as_int alternatives).
  destruct (in_frame db (map VStr names) (omap_as_str_no_Anyone _) Hfresh)
    as (cond1 & db1 & Hin1 & Hfresh1 & Hext1 & _ & Hholds1).
  pose proof Hext1 as (Halt1 & _).
  assert (Hp1 : ∀ r, holds db1 cond1 (VStr (alternative_name r))
                     = bool_decide (alternative_name r ∈ names)).
  { intros r. rewrite Hholds1. apply bool_decide_ext, elem_of_map_VStr. }
  destruct (lookup_report alternative_name (alternative_sq db) names
              (λ r, holds db1 cond1 (VStr (alternative_name r))) Hp1 Hnames)
    as (Hm1 & _ & Heq1).
  split.
  - intros Hrep.
    pose proof (found_fewer_repeated alternative_name (alternative_sq db) names
                  Hnames Hrep) as Hlt.
    rewrite <- (filter_ext _ _ Hp1) in Hlt.
    unfold bind, get, raise, ret. rewrite Hin1. cbv beta iota. rewrite Halt1.
    rewrite length_map.
    rewrite (proj2 (Nat.eqb_neq _ _)) by lia. cbn [negb fst].
    by rewrite Hm1.
  - intros Hnil Hnd Hrep. rewrite <- Hm1 in Hnil. specialize (Heq1 Hnil Hnd).
    destruct (in_frame db1 (map VInt ids) (omap_as_int_no_Anyone _) Hfresh1)
      as (cond2 & db2 & Hin2 & Hfresh2 & Hext2 & _ & Hholds2).
    pose proof Hext2 as (Halt2 & _).
    assert (Hp2 : ∀ r, holds db2 cond2 (VInt (alternative_id r))
                       = bool_decide (alternative_id r ∈ ids)).
    { intros r. rewrite Hholds2. apply bool_decide_ext, elem_of_map_VInt. }
    destruct (lookup_report alternative_id (alternative_sq db) ids
                (λ r, holds db2 cond2 (VInt (alternative_id r))) Hp2 Hids)
      as (Hm2 & _ & _).
    pose proof (found_fewer_repeated alternative_id (alternative_sq db) ids
                  Hids Hrep) as Hlt.
    rewrite <- (filter_ext _ _ Hp2) in Hlt.
    unfold bind, get, raise, ret. rewrite Hin1. cbv beta iota. rewrite Halt1.
    rewrite length_map, (proj2 (Nat.eqb_eq _ _) Heq1). cbn [negb].
    rewrite Hin2. cbv beta iota. rewrite Halt2, Halt1.
    rewrite (proj2 (Nat.eqb_neq _ _)) by lia. cbn [negb fst].
    by rewrite Hm2.
Qed.

End alternative_filter_repeats.

Lemma two_alternatives_fresh : ids_for_in_fresh two_alternatives.
Proof. intros r Hr. by apply elem_of_nil in Hr. Qed.

Lemma two_alternatives_unique : unique_alternatives two_alternatives.
Proof. split; apply (bool_decide_unpack _); vm_compute; exact I. Qed.

Lemma alternative_filter_rejects_repeats_witness :
  (alternative_value_filter.alternative_filtered_view
     db_mapping_base.parameter_value_sq_default
     (Some [VStr "Base"; VStr "Base"]) two_alternatives).1
  = Raise (SpineDBAPIError [Lit "Alternative(s) "; StrTuple []; Lit " not found"])
  ∧ (alternative_value_filter.alternative_filtered_view
       db_mapping_base.parameter_value_sq_default
       (Some [VInt 1; VStr "high"; VInt 1]) two_alternatives).1
    = Raise (SpineDBAPIError [Lit "Alternative id(s) "; IntTuple []; Lit " not found"]).
Proof.
  split.
  - apply (alternative_filter_rejects_repeats two_alternatives
             db_mapping_base.parameter_value_sq_default
             [VStr "Base"; VStr "Base"] two_alternatives_fresh two_alternatives_unique).
    apply (bool_decide_unpack _). vm_compute. exact I.
  - apply (alternative_filter_rejects_repeats two_alternatives
             db_mapping_base.parameter_value_sq_default
             [VInt 1; VStr "high"; VInt 1] two_alternatives_fresh two_alternatives_unique).
    + reflexivity.
    + apply (bool_decide_unpack _). vm_compute. exact I.
    + apply (bool_decide_unpack _). vm_compute. exact I.
Defined.

(** ** The scenario filter at its edges *)

Section scenario_filter_edges.
Import db_mapping_base alternative_value_filter.


(** The one row of a key among rows with distinct keys. *)
Lemma filter_unique {A B} `{EqDecision B} (key : A → B) (rows : list A) (r : A) :
  NoDup (map key rows) → r ∈ rows →
  List.filter (λ x, bool_decide (key x = key r)) rows = [r].
Proof.
  induction rows as [|h t IH]; intros Hnd Hr; [by apply elem_of_nil in Hr|].
  cbn [map] in Hnd. apply NoDup_cons in Hnd as [Hh Hnd]. cbn [List.filter].
  apply elem_of_cons in Hr as [->|Hr].
  - rewrite bool_decide_eq_true_2 by done. f_equal.
    apply filter_nothing. intros x Hx. apply bool_decide_eq_false_2.
    intros E. apply Hh. rewrite <- E. apply map_elem_of. by exists x.
  - rewrite bool_decide_eq_false_2; [by apply IH|].
    intros E. apply Hh. rewrite E. apply map_elem_of. by exists r.
Qed.

(** X8: over a database whose scenarios have distinct names and ids, the
    scenario filter by the name of a scenario and by its id are the same
    filter. *)
Theorem scenario_filter_name_or_id (db : db_map) (original : subquery) (r : scenario_row) :
  NoDup (map scenario_name (scenario_sq db)) →
  NoDup (map scenario_id (scenario_sq db)) →
  r ∈ scenario_sq db →
  scenario_filtered_view original (VStr (scenario_name r)) db
  = scenario_filtered_view original (VInt (scenario_id r)) db
  ∧ ∃ rows, scenario_filtered_view original (VInt (scenario_id r)) db = (Ok rows, db).
Proof.
  intros Hnames Hids Hr.
  assert (H1 : resolves db (VStr (scenario_name r)) (scenario_id r)).
  { cbn [resolves]. by rewrite (filter_unique scenario_name _ r Hnames Hr). }
  assert (H2 : resolves db (VInt (scenario_id r)) (scenario_id r)).
  { cbn [resolves]. split; [done|].
    rewrite (filter_ext _ (λ x, bool_decide (scenario_id x = scenario_id r))).
    - by rewrite (filter_unique scenario_id _ r Hids Hr).
    - intros x. apply bool_decide_ext. split; [by intros [= ->]|by intros ->]. }
  unfold scenario_filtered_view, new_ScenarioFilterState,
    _make_scenario_filtered_parameter_value_sq, bind, ret, get.
  rewrite (scenario_id_resolves _ _ _ H1), (scenario_id_resolves _ _ _ H2).
  split; [done|]. by eexists.
Qed.

End scenario_filter_edges.


Lemma scenario_filter_name_or_id_witness :
  alternative_value_filter.scenario_filtered_view
    db_mapping_base.parameter_value_sq_default (VStr "S") scenario_example
  = alternative_value_filter.scenario_filtered_view
      db_mapping_base.parameter_value_sq_default (VInt 1) scenario_example
  ∧ ∃ rows,
      alternative_value_filter.scenario_filtered_view
        db_mapping_base.parameter_value_sq_default (VInt 1) scenario_example
      = (Ok rows, scenario_example).
Proof.
  apply (scenario_filter_name_or_id scenario_example
           db_mapping_base.parameter_value_sq_default
           {| db_mapping_base.scenario_id := 1; db_mapping_base.scenario_name := "S" |}).
  - apply (bool_decide_unpack _). vm_compute. exact I.
  - apply (bool_decide_unpack _). vm_compute. exact I.
  - apply list_elem_of_here.
Defined.

(** ** Filters only select *)

Section filters_select.
Import db_mapping_base alternative_value_filter.

(** Two rows with the same columns of [parameter_value]. *)
Definition same_columns (v v0 : parameter_value_row) : Prop :=
  pv_id v = pv_id v0
  ∧ pv_parameter_definition_id v = pv_parameter_definition_id v0
  ∧ pv_entity_class_id v = pv_entity_class_id v0
  ∧ pv_entity_id v = pv_entity_id v0
  ∧ pv_value v = pv_value v0
  ∧ pv_alternative_id v = pv_alternative_id v0.

Lemma firsts_elem_of (seen : list (Z * Z))
    (l : list (parameter_value_row * scenario_alternative_row)) (v : parameter_value_row) :
  v ∈ firsts seen l → ∃ a, (v, a) ∈ l.
Proof.
  revert seen. induction l as [|[v' a'] t IH]; intros seen; cbn [firsts fst].
  - by intros ?%elem_of_nil.
  - case_bool_decide.
    + intros (a & Ha)%IH. exists a. by apply list_elem_of_further.
    + intros [->|(a & Ha)%IH]%elem_of_cons.
      * exists a'. apply list_elem_of_here.
      * exists a. by apply list_elem_of_further.
Qed.

(** X9: however the filters are stacked, every row of the filtered
    subquery carries the columns of a row of [parameter_value]: the filters
    select values, they make none up. *)
Theorem filters_only_select (db : db_map) (sq : subquery) (v : parameter_value_row) :
  v ∈ all db sq →
  ∃ v0, v0 ∈ parameter_value_rows db ∧ same_columns v v0.
Proof.
  revert v. induction sq as [|original IH scenario|original IH cond]; intros v; cbn [all].
  - intros Hv. exists v. by repeat split.
  - intros (vn & <- & Hvn)%map_elem_of.
    unfold ext_parameter_value_sq in Hvn. rewrite row_number_firsts in Hvn.
    apply map_elem_of in Hvn as (v1 & <- & Hv1).
    apply firsts_elem_of in Hv1 as (a & Ha).
    apply (proj1 (order_by_rank_desc_elem_of _ _)) in Ha.
    unfold scenario_join in Ha. apply list_elem_of_In, in_flat_map in Ha
      as (v2 & Hv2 & Hin).
    apply in_map_iff in Hin as (a2 & [= -> ->] & _).
    apply list_elem_of_In, IH in Hv2 as (v0 & Hv0 & Hsame).
    exists v0. split; [done|]. exact Hsame.
  - intros [Hv _]%filter_elem_of. by apply IH.
Qed.

End filters_select.

Lemma filters_only_select_witness :
  ∃ v0, v0 ∈ db_mapping_base.parameter_value_rows scenario_example
        ∧ db_mapping_base.pv_value v0 = "20".
Proof.
  destruct (filters_only_select scenario_example
              (db_mapping_base.alternative_filtered_sq
                 (db_mapping_base.scenario_filtered_sq
                    db_mapping_base.parameter_value_sq_default (VInt 1))
                 db_mapping_base.sql_true)
              {| db_mapping_base.pv_id := 2;
                 db_mapping_base.pv_parameter_definition_id := 1;
                 db_mapping_base.pv_entity_class_id := 1;
                 db_mapping_base.pv_entity_id := 1;
                 db_mapping_base.pv_value := "20";
                 db_mapping_base.pv_alternative_id := 3;
                 db_mapping_base.pv_labels := [("max_rank_row_number", 1)] |})
    as (v0 & Hv0 & Hsame).
  - vm_compute. apply list_elem_of_here.
  - exists v0. split; [exact Hv0|]. by destruct Hsame as (_ & _ & _ & _ & <- & _).
Defined.

(** ** Sessions of the commit mixin *)

Section session_laws.
Import db_mapping_commit_mixin.
Context {stmt item : Type}.
Implicit Types (m : mapping stmt item) (db : database stmt item)
  (calls : list (call stmt item)).

Definition is_commit (c : call stmt item) : bool :=
  match c with
  | Commit_session _ _ => true
  | _ => false
  end.

(** The statements a list of writes sends to the database: those with
    items, in order. *)
Definition sent (ws : list (stmt * list item * Z)) : list (stmt * list item) :=
  flat_map (λ w, match w.1.2 with
                 | [] => []
                 | _ => [(w.1.1, w.1.2)]
                 end) ws.

(** Only [commit_session] changes what is stored. *)
Lemma run_no_commit_stored m calls :
  consistent m →
  forallb (λ c, negb (is_commit c)) calls = true →
  stored (run m calls) = stored m.
Proof.
  revert m. induction calls as [|c calls IH]; intros m Hm Hcalls; [done|].
  cbn [forallb] in Hcalls. apply andb_true_iff in Hcalls as [Hc Hcalls].
  destruct (step_consistent m c Hm) as (Hm' & _ & _).
  cbn [run foldl]. unfold run in IH. rewrite (IH _ Hm' Hcalls).
  destruct c as [s items date|comment date|]; cbn [step]; [| done |].
  - by destruct (checked_execute_consistent m s items date Hm) as (_ & _ & _ & ?).
  - by destruct (rollback_session_consistent m Hm) as (_ & _ & _ & ?).
Qed.

(** After [rollback_session], raised or not, the connection sees what is
    stored. *)
Lemma rollback_session_connection m :
  consistent m → connection (rollback_session m).2 = stored m.
Proof.
  unfold consistent, rollback_session.
  by destruct (has_pending_changes m); cbn [negb snd connection].
Qed.

(** X10: whatever a client wrote or rolled back since some point, a call
    of [rollback_session] brings the database back to what was stored
    then: what is stored has not changed, the connection sees just that,
    and no change is pending. *)
Theorem rollback_discards_session (user : string) db history calls :
  forallb (λ c, negb (is_commit c)) calls = true →
  stored (run (run (new user db) history) (calls ++ [Rollback_session]))
  = stored (run (new user db) history)
  ∧ connection (run (run (new user db) history) (calls ++ [Rollback_session]))
    = stored (run (new user db) history)
  ∧ has_pending_changes (run (run (new user db) history) (calls ++ [Rollback_session]))
    = false.
Proof.
  intros Hcalls.
  destruct (run_consistent (new user db) history (consistent_new user db))
    as (Hc0 & _ & _).
  set (m0 := run (new user db) history) in *.
  destruct (run_consistent m0 calls Hc0) as (Hc1 & _ & _).
  pose proof (run_no_commit_stored m0 calls Hc0 Hcalls) as Hs.
  rewrite run_app. cbn [run foldl step]. fold (run m0 calls).
  destruct (rollback_session_consistent _ Hc1) as (_ & Hp & _ & Hs').
  split; [by rewrite Hs', Hs|]. split; [|done].
  by rewrite rollback_session_connection, Hs.
Qed.

(** What the connection has executed after some writes. *)
Lemma run_writes_executed m (ws : list (stmt * list item * Z)) :
  executed (connection (run m (map as_call ws)))
  = executed (connection m) ++ sent ws.
Proof.
  revert m. induction ws as [|[[s items] date] ws IH]; intros m.
  - cbn. by rewrite app_nil_r.
  - cbn [map run foldl step as_call fst snd]. fold (run (_checked_execute s items date m)
      (map as_call ws)).
    rewrite IH. unfold sent at 2. cbn [flat_map fst snd]. fold (sent ws).
    destruct items as [|i items]; [done|].
    unfold _checked_execute.
    destruct (has_pending_changes m); cbn [execute connection executed
      _start_new_transaction]; by rewrite <- app_assoc.
Qed.

(** X11: a session that starts with no change pending and ends with
    [commit_session] stores the statements of its writes that carried
    items, in the order they were made, after what was stored before; the
    writes without items are dropped, and when no write carried items
    nothing is stored. *)
Theorem commit_stores_writes_in_order
    (user : string) db history (ws : list (stmt * list item * Z))
    (comment : string) (date : Z) :
  writes_pending history = false →
  executed (stored (commit_session comment date
                      (run (run (new user db) history) (map as_call ws))).2)
  = executed (stored (run (new user db) history)) ++ sent ws.
Proof.
  intros Hhist.
  destruct (run_consistent (new user db) history (consistent_new user db))
    as (Hc0 & Hp0 & _).
  change (foldl writes_pending_step (has_pending_changes (new user db)) history)
    with (writes_pending history) in Hp0.
  set (m0 := run (new user db) history) in *.
  assert (Hconn : connection m0 = stored m0).
  { unfold consistent in Hc0. by rewrite Hp0, Hhist in Hc0. }
  destruct (run_writes_stored m0 ws Hc0) as [Hc Hs].
  pose proof (run_writes_executed m0 ws) as He.
  set (m := run m0 (map as_call ws)) in *.
  unfold commit_session, consistent in *.
  destruct (has_pending_changes m) eqn:Hp; cbn [negb].
  - destruct Hc as (date0 & -> & _). cbn [snd stored executed].
    by rewrite He, Hconn.
  - cbn [snd]. by rewrite <- Hc, He, Hconn.
Qed.

End session_laws.

Lemma rollback_discards_session_witness :
  db_mapping_commit_mixin.connection
    (db_mapping_commit_mixin.run
       (db_mapping_commit_mixin.run
          (db_mapping_commit_mixin.new "anon"
             {| db_mapping_commit_mixin.commit := [];
                db_mapping_commit_mixin.executed := [] |}) [])
       (map as_call three_adds ++ [db_mapping_commit_mixin.Rollback_session]))
  = {| db_mapping_commit_mixin.commit := []; db_mapping_commit_mixin.executed := [] |}.
Proof.
  refine (proj1 (proj2 (rollback_discards_session "anon"
            {| db_mapping_commit_mixin.commit := [];
               db_mapping_commit_mixin.executed := [] |}
            [] (map as_call three_adds) _))).
  reflexivity.
Defined.

Lemma commit_stores_writes_in_order_witness :
  db_mapping_commit_mixin.executed
    (db_mapping_commit_mixin.stored
       (db_mapping_commit_mixin.commit_session "c" 200
          (db_mapping_commit_mixin.run
             (db_mapping_commit_mixin.run
                (db_mapping_commit_mixin.new "anon"
                   {| db_mapping_commit_mixin.commit := [];
                      db_mapping_commit_mixin.executed := [] |}) [])
             (map as_call
                (("INSERT INTO object_class", []%Z, 99%Z) :: three_adds)))).2)
  = [ ("INSERT INTO object_class", [1; 2]%Z);
      ("INSERT INTO object", [3]%Z);
      ("INSERT INTO relationship", [4; 5; 6]%Z) ].
Proof.
  refine (commit_stores_writes_in_order "anon"
            {| db_mapping_commit_mixin.commit := [];
               db_mapping_commit_mixin.executed := [] |}
            [] (("INSERT INTO object_class", [], 99%Z) :: three_adds) "c" 200 _).
  reflexivity.
Defined.

(** ** More on updates in a staged session *)

Section diff_update_more.
Import diff_db_mapping.
Variable _items_with_type_id : string → list item → list item.
Variable _get_primary_key : string → list string.
Variable columns : string → gset string.

(** The classification stops at the first item without the id. *)
Lemma get_items_loop_key_error (in_diff : gset value) (f : string) (l : list item)
    (acc : list item * list item * gset value * gset value) :
  Exists (λ it : item, it !! f = None) l →
  _get_items_loop in_diff f l acc = Raise KeyError.
Proof.
  intros Hl. revert acc. induction Hl as [it l Hit|it l Hl IH]; intros acc.
  - cbn [_get_items_loop]. by rewrite Hit.
  - cbn [_get_items_loop]. destruct (it !! f) as [id_|]; [|done].
    destruct acc as [[[u i] d] up]. by case_bool_decide.
Qed.

(** X12: when one of the items lacks the id column of the table,
    wherever it stands in the list, [_update_items] raises [KeyError]
    before any statement runs: the shadow tables and the tracked ids are
    as they were, also for the items before it. *)
Theorem update_items_missing_id_changes_nothing
    (tablename : string) (items : list item) (st : diff_db_map) :
  let T := default tablename (real_tablenames !! tablename) in
  let f := id_field T in
  let items' := _items_with_type_id tablename items in
  Exists (λ it : item, it !! f = None) items' →
  _update_items _items_with_type_id _get_primary_key columns tablename items st
  = (Raise KeyError, st).
Proof.
  intros T f items' Hmissing.
  unfold _update_items, _get_items_for_update_and_insert.
  fold T. fold items'. fold f.
  by rewrite (get_items_loop_key_error _ f items' _ Hmissing).
Qed.

(** What [_update_items] does with items that all carry the id. *)
Lemma update_items_spec (tablename : string) (items : list item) (st : diff_db_map) :
  let T := default tablename (real_tablenames !! tablename) in
  let f := id_field T in
  let items' := _items_with_type_id tablename items in
  let in_diff := (added_item_id st !!! T) ∪ (updated_item_id st !!! T) in
  let upd := List.filter (is_staged in_diff f) items' in
  let ins := List.filter (λ it, negb (is_staged in_diff f it)) items' in
  let pk := _get_primary_key T in
  let cols := update_columns columns T upd in
  Forall (λ it : item, is_Some (it !! f)) items' →
  forallb (binds (pk ++ elements cols)) upd = true →
  ∃ st',
    _update_items _items_with_type_id _get_primary_key columns tablename items st
      = (Ok (ids_of f items'), st')
    ∧ diff_tables st' !!! T
      = map (λ row, foldl (λ row it, update_row pk cols it row) row upd)
          (diff_tables st !!! T) ++ ins
    ∧ dirty_item_id st' !!! T = (dirty_item_id st !!! T) ∪ ids_of f ins
    ∧ updated_item_id st' !!! T = (updated_item_id st !!! T) ∪ ids_of f ins
    ∧ added_item_id st' = added_item_id st.
Proof.
  intros T f items' in_diff upd ins pk cols Hids Hbinds.
  destruct (do_update_items_rows _get_primary_key columns T upd ins st Hbinds)
    as (st1 & Hdo & Hrows & Hadded & Hupdated & Hdirty).
  unfold _update_items, _get_items_for_update_and_insert.
  fold T. fold items'. fold f. fold in_diff.
  rewrite (get_items_loop_spec in_diff f items' [] [] ∅ ∅ Hids).
  cbn [app]. fold upd. fold ins. rewrite !(left_id_L ∅ (∪)).
  rewrite Hdo.
  eexists. split; [reflexivity|].
  cbn [update_updated_item_id _mark_as_dirty diff_tables dirty_item_id
       updated_item_id added_item_id].
  rewrite !lookup_total_insert_eq, Hdirty, Hupdated.
  split; [exact Hrows|]. split; [done|]. split; [done|]. exact Hadded.
Qed.

(** X13: once items have been updated, their ids are staged: updating the
    same items again goes through the update statement only, so it adds
    no shadow row and marks nothing more as dirty or updated. *)
Theorem update_items_again_adds_nothing
    (tablename : string) (items : list item) (st : diff_db_map) :
  let T := default tablename (real_tablenames !! tablename) in
  let f := id_field T in
  let items' := _items_with_type_id tablename items in
  let in_diff := (added_item_id st !!! T) ∪ (updated_item_id st !!! T) in
  let upd := List.filter (is_staged in_diff f) items' in
  let pk := _get_primary_key T in
  Forall (λ it : item, is_Some (it !! f)) items' →
  forallb (binds (pk ++ elements (update_columns columns T upd))) upd = true →
  forallb (binds (pk ++ elements (update_columns columns T items'))) items' = true →
  ∃ st' st'',
    _update_items _items_with_type_id _get_primary_key columns tablename items st
      = (Ok (ids_of f items'), st')
    ∧ _update_items _items_with_type_id _get_primary_key columns tablename items st'
      = (Ok (ids_of f items'), st'')
    ∧ length (diff_tables st'' !!! T) = length (diff_tables st' !!! T)
    ∧ dirty_item_id st'' !!! T = dirty_item_id st' !!! T
    ∧ updated_item_id st'' !!! T = updated_item_id st' !!! T
    ∧ added_item_id st'' = added_item_id st'.
Proof.
  intros T f items' in_diff upd pk Hids Hbinds Hbinds'.
  destruct (update_items_spec tablename items st Hids Hbinds)
    as (st' & Heq & _ & _ & Hupdated & Hadded).
  fold T f items' in_diff in Heq, Hupdated.
  set (ins := List.filter (λ it, negb (is_staged in_diff f it)) items') in *.
  set (in_diff' := (added_item_id st' !!! T) ∪ (updated_item_id st' !!! T)).
  assert (Hstaged : ∀ it, it ∈ items' → is_staged in_diff' f it = true).
  { intros it Hit. rewrite Forall_forall in Hids.
    destruct (Hids it Hit) as [id_ Hid]. unfold is_staged. rewrite Hid.
    apply bool_decide_eq_true_2. unfold in_diff'. rewrite Hadded, Hupdated.
    rewrite !elem_of_union.
    destruct (decide (id_ ∈ in_diff)) as [Hin|Hnin].
    - unfold in_diff in Hin. apply elem_of_union in Hin as [Hin|Hin]; auto.
    - right. right.
      apply (proj2 (elem_of_ids_of _items_with_type_id _get_primary_key columns _ _ _)).
      exists it. split; [|done].
      apply filter_elem_of. split; [done|]. unfold is_staged. rewrite Hid.
      by rewrite bool_decide_eq_false_2. }
  assert (Hupd' : List.filter (is_staged in_diff' f) items' = items').
  { by apply filter_all. }
  assert (Hins' : List.filter (λ it, negb (is_staged in_diff' f it)) items' = []).
  { apply filter_nothing. intros it Hit. by rewrite (Hstaged it Hit). }
  destruct (update_items_spec tablename items st') as (st'' & Heq' & Hrows' & Hd' & Hu' & Ha').
  { exact Hids. }
  { fold T f items' in_diff'. by rewrite Hupd'. }
  fold T f items' in_diff' in Heq', Hrows', Hd', Hu'.
  rewrite Hins' in Hrows', Hd', Hu'. rewrite Hupd' in Hrows'.
  exists st', st''. split; [exact Heq|]. split; [exact Heq'|].
  split; [by rewrite Hrows', app_nil_r, length_map|].
  unfold ids_of in Hd', Hu'. cbn in Hd', Hu'.
  rewrite (right_id_L ∅ (∪)) in Hd', Hu'. done.
Qed.

End diff_update_more.

Lemma update_items_missing_id_changes_nothing_witness :
  diff_db_mapping._update_items (λ _ items, items) (λ _, ["id"])
    (λ _, {[ "id"; "name" ]}) "alternative"
    [ {[ "id" := VInt 2; "name" := VStr "higher" ]}; {[ "name" := VStr "base" ]} ]
    staged_alternatives
  = (Raise KeyError, staged_alternatives).
Proof.
  apply (update_items_missing_id_changes_nothing
           (λ _ items, items) (λ _, ["id"]) (λ _, {[ "id"; "name" ]}) "alternative"
           [ {[ "id" := VInt 2; "name" := VStr "higher" ]}; {[ "name" := VStr "base" ]} ]
           staged_alternatives).
  apply Exists_cons_tl, Exists_cons_hd. reflexivity.
Defined.

Lemma update_items_again_adds_nothing_witness :
  ∃ st' st'',
    diff_db_mapping._update_items (λ _ items, items) (λ _, ["id"])
      (λ _, {[ "id"; "name" ]}) "alternative" renamed_alternatives staged_alternatives
    = (Ok {[ VInt 1; VInt 2 ]}, st')
    ∧ diff_db_mapping._update_items (λ _ items, items) (λ _, ["id"])
        (λ _, {[ "id"; "name" ]}) "alternative" renamed_alternatives st'
      = (Ok {[ VInt 1; VInt 2 ]}, st'')
    ∧ length (diff_db_mapping.diff_tables st'' !!! "alternative")
      = length (diff_db_mapping.diff_tables st' !!! "alternative")
    ∧ diff_db_mapping.dirty_item_id st'' !!! "alternative"
      = diff_db_mapping.dirty_item_id st' !!! "alternative".
Proof.
  destruct (update_items_again_adds_nothing
              (λ _ items, items) (λ _, ["id"]) (λ _, {[ "id"; "name" ]})
              "alternative" renamed_alternatives staged_alternatives)
    as (st' & st'' & H1 & H2 & Hlen & Hdirty & _).
  - repeat constructor; by eexists.
  - vm_compute. reflexivity.
  - vm_compute. reflexivity.
  - exists st', st''. split; [|split; [|split]].
    + rewrite H1. reflexivity.
    + rewrite H2. reflexivity.
    + exact Hlen.
    + exact Hdirty.
Defined.

(** ** Allocations, one after the other *)

Section allocations.
Import add_diff_database_mapping.
Variable flush_ok : nat → bool.
Variable write_ok : nat → bool.

(** A client's allocations in turn, with what each of them gave. *)
Fixpoint allocate_all (calls : list (list (gmap string value) * Z)) (m : mapping)
    : list (result (gset Z)) * mapping :=
  match calls with
  | [] => ([], m)
  | call :: rest =>
    let r := _add_object_classes flush_ok write_ok call.1 call.2 m in
    let rs := allocate_all rest r.2 in
    (r.1 :: rs.1, rs.2)
  end.

(** The number of items of the allocations that went through. *)
Fixpoint granted (calls : list (list (gmap string value) * Z))
    (rs : list (result (gset Z))) : nat :=
  match calls, rs with
  | call :: calls, Ok _ :: rs => length call.1 + granted calls rs
  | _ :: calls, Raise _ :: rs => granted calls rs
  | _, _ => 0
  end.

(** Between allocations: the session holds what is stored, [next_id] has
    at most its one row, and the next id to hand out is positive. *)
Definition settled (m : mapping) : Prop :=
  session m = stored m
  ∧ length (next_id (session m)) ≤ 1
  ∧ (0 < start_id m)%Z.

Lemma start_id_session (m m' : mapping) :
  session m' = session m → start_id m' = start_id m.
Proof. unfold start_id, session_counter. by intros ->. Qed.

(** One allocation from a settled mapping: it hands out the ids from the
    next one on and moves the counter past them, or fails and leaves the
    tables and the counter as they were. *)
Lemma add_object_classes_settled (kwargs_list : list (gmap string value)) (date : Z)
    (m : mapping) :
  settled m →
  settled (_add_object_classes flush_ok write_ok kwargs_list date m).2
  ∧ match (_add_object_classes flush_ok write_ok kwargs_list date m).1 with
    | Ok ids =>
      ids = list_to_set (seqZ (start_id m) (Z.of_nat (length kwargs_list)))
      ∧ start_id (_add_object_classes flush_ok write_ok kwargs_list date m).2
        = (start_id m + Z.of_nat (length kwargs_list))%Z
    | Raise _ =>
      start_id (_add_object_classes flush_ok write_ok kwargs_list date m).2 = start_id m
      ∧ stored (_add_object_classes flush_ok write_ok kwargs_list date m).2 = stored m
    end.
Proof.
  intros (Hs & Hrows & Hpos).
  destruct (flush_ok (flushes m)) eqn:Hflush.
  - destruct (write_ok (writes m)) eqn:Hwrite.
    + destruct (add_object_classes_ok flush_ok write_ok kwargs_list date m
                  Hrows Hflush Hwrite)
        as (m' & Heq & Hpc & Hsc & Hrows' & _).
      assert (Hstart : start_id m' = (start_id m + Z.of_nat (length kwargs_list))%Z).
      { unfold start_id at 1. rewrite Hsc. cbn [truthy default].
        rewrite bool_decide_eq_false_2; [done|lia]. }
      assert (Hss : session m' = stored m').
      { revert Heq. unfold _add_object_classes, next_id_with_lock.
        destruct (next_id (session m)) as [|row [|row' rows]];
          [| |cbn in Hrows; lia]; rewrite Hflush;
          cbn [with_session writes]; rewrite Hwrite; by intros [= _ <-]. }
      rewrite Heq. cbn [fst snd]. split; [|done].
      split; [done|]. split; [done|]. rewrite Hstart. lia.
    + assert (Heq : ∃ e m',
                _add_object_classes flush_ok write_ok kwargs_list date m = (Raise e, m')
                ∧ session m' = stored m ∧ stored m' = stored m).
      { unfold _add_object_classes, next_id_with_lock.
        destruct (next_id (session m)) as [|row [|row' rows]];
          [| |cbn in Hrows; lia]; rewrite Hflush;
          cbn [with_session writes]; rewrite Hwrite; by eexists _, _. }
      destruct Heq as (e & m' & -> & Hs' & Hst'). cbn [fst snd].
      assert (Hsame : session m' = session m) by congruence.
      rewrite (start_id_session _ _ Hsame). split; [|done].
      split; [congruence|]. split; [by rewrite Hsame|].
      by rewrite (start_id_session _ _ Hsame).
  - rewrite (add_object_classes_flush_fails flush_ok write_ok kwargs_list date m
               Hrows Hflush). cbn [fst snd].
    match goal with |- context [start_id ?x] => set (m' := x) end.
    assert (Hsame : session m' = session m) by (symmetry; exact Hs).
    rewrite (start_id_session _ _ Hsame). split; [|done].
    split; [done|]. split; [by rewrite Hsame|].
    by rewrite (start_id_session _ _ Hsame).
Qed.

(** What a run of allocations hands out. *)
Lemma allocate_all_settled (calls : list (list (gmap string value) * Z)) (m : mapping) :
  settled m →
  settled (allocate_all calls m).2
  ∧ start_id (allocate_all calls m).2
    = (start_id m + Z.of_nat (granted calls (allocate_all calls m).1))%Z
  ∧ ∀ x : Z,
      (∃ ids, Ok ids ∈ (allocate_all calls m).1 ∧ x ∈ ids)
      ↔ (start_id m ≤ x < start_id m + Z.of_nat (granted calls (allocate_all calls m).1))%Z.
Proof.
  revert m. induction calls as [|[kwargs_list date] calls IH]; intros m Hm.
  - cbn [allocate_all granted fst snd]. split; [done|]. split; [lia|].
    intros x. split; [|lia]. by intros (ids & ?%elem_of_nil & _).
  - cbn [allocate_all fst snd].
    destruct (add_object_classes_settled kwargs_list date m Hm) as [Hm1 Hr].
    destruct (_add_object_classes flush_ok write_ok kwargs_list date m) as [r m1].
    cbn [fst snd] in *.
    destruct (IH m1 Hm1) as (Hm2 & Hstart & Hx).
    destruct (allocate_all calls m1) as [rs m2]. cbn [fst snd] in *.
    split; [done|].
    destruct r as [ids|e]; cbn [granted fst].
    + destruct Hr as [-> Hs1]. rewrite Hs1 in Hstart, Hx.
      split; [lia|]. intros x. split.
      * intros (ids & [[= ->]|Hin]%elem_of_cons & Hxin).
        -- apply elem_of_list_to_set, elem_of_seqZ in Hxin. lia.
        -- assert (∃ ids, Ok ids ∈ rs ∧ x ∈ ids) as H%Hx by by exists ids. lia.
      * intros Hrange.
        destruct (decide (x < start_id m + Z.of_nat (length kwargs_list))%Z) as [Hlt|Hge].
        -- eexists. split; [apply list_elem_of_here|].
           apply elem_of_list_to_set, elem_of_seqZ. lia.
        -- destruct (proj2 (Hx x)) as (ids & Hin & Hxin); [lia|].
           exists ids. split; [by apply list_elem_of_further|done].
    + destruct Hr as [Hs1 _]. rewrite Hs1 in Hstart, Hx.
      split; [done|]. intros x. rewrite <- Hx. split.
      * intros (ids & [[=]|Hin]%elem_of_cons & Hxin). by exists ids.
      * intros (ids & Hin & Hxin). exists ids.
        split; [by apply list_elem_of_further|done].
Qed.

(** X14: a client's allocations, run one after the other from a settled
    mapping, whichever of them the engine lets fail: the ids handed out are
    exactly the next ones, as many as the successful allocations have items,
    without a gap; the counter ends past them; and no id is handed out by
    two allocations.  A failed allocation uses up no id. *)
Theorem allocations_hand_out_consecutive_ids
    (calls : list (list (gmap string value) * Z)) (m : mapping) :
  settled m →
  start_id (allocate_all calls m).2
  = (start_id m + Z.of_nat (granted calls (allocate_all calls m).1))%Z
  ∧ (∀ x : Z,
       (∃ ids, Ok ids ∈ (allocate_all calls m).1 ∧ x ∈ ids)
       ↔ (start_id m ≤ x
          < start_id m + Z.of_nat (granted calls (allocate_all calls m).1))%Z)
  ∧ ∀ (i j : nat) (ids ids' : gset Z),
      i < j →
      (allocate_all calls m).1 !! i = Some (Ok ids) →
      (allocate_all calls m).1 !! j = Some (Ok ids') →
      ids ## ids'.
Proof.
  intros Hm.
  destruct (allocate_all_settled calls m Hm) as (_ & Hstart & Hx).
  split; [exact Hstart|]. split; [exact Hx|]. clear Hstart Hx.
  revert m Hm. induction calls as [|[kwargs_list date] calls IH]; intros m Hm i j ids ids' Hij.
  - cbn [allocate_all fst]. by destruct i.
  - cbn [allocate_all fst snd].
    destruct (add_object_classes_settled kwargs_list date m Hm) as [Hm1 Hr].
    destruct (_add_object_classes flush_ok write_ok kwargs_list date m) as [r m1].
    cbn [fst snd] in *.
    destruct j as [|j]; [lia|]. destruct i as [|i].
    + cbn [lookup list_lookup]. intros [= ->] Hj.
      destruct Hr as [-> Hs1].
      destruct (allocate_all_settled calls m1 Hm1) as (_ & _ & Hx).
      apply elem_of_disjoint. intros x Hx1 Hx2.
      apply elem_of_list_to_set, elem_of_seqZ in Hx1.
      assert (∃ ids, Ok ids ∈ (allocate_all calls m1).1 ∧ x ∈ ids) as H%Hx.
      { exists ids'. split; [|done]. by eapply list_elem_of_lookup_2. }
      lia.
    + cbn [lookup list_lookup]. apply (IH m1 Hm1). lia.
Qed.

End allocations.

(** Four allocations of two classes each over the three classes, of which
    the engine fails the third: the ids 6 to 11 are handed out and the
    counter ends at 12. *)
Lemma allocations_hand_out_consecutive_ids_witness :
  settled three_classes
  ∧ start_id
      (allocate_all third_flush_fails (λ _, true)
         [ (two_new_classes, 100%Z); (two_new_classes, 101%Z);
           (two_new_classes, 102%Z); (two_new_classes, 103%Z) ] three_classes).2
    = 12%Z.
Proof.
  assert (H : settled three_classes).
  { split; [reflexivity|]. split; [vm_compute; lia|]. vm_compute. reflexivity. }
  split; [exact H|].
  etrans.
  - apply (allocations_hand_out_consecutive_ids third_flush_fails (λ _, true)
             [ (two_new_classes, 100%Z); (two_new_classes, 101%Z);
               (two_new_classes, 102%Z); (two_new_classes, 103%Z) ] three_classes H).
  - vm_compute. reflexivity.
Defined.

(** ** check_functions.py: further checks *)

Module more_check_functions.

(** A scenario alternative item: the keys the check reads, each present or
    not. *)
Record scenario_alternative_item := {
  sai_scenario_id : option Z;
  sai_alternative_id : option Z;
  sai_rank : option Z }.

(** [check_scenario_alternative]; the dictionaries are keyed by tuples of
    ids, the names by id. *)
Definition check_scenario_alternative (item : scenario_alternative_item)
    (ids_by_alt_id ids_by_rank : gmap (Z * Z) Z)
    (scenario_names alternative_names : gmap Z string) : result unit :=
  match sai_scenario_id item with
  | None => Raise (SpineIntegrityError [Lit "Missing scenario identifier."] None)
  | Some scen_id =>
  match sai_alternative_id item with
  | None => Raise (SpineIntegrityError [Lit "Missing alternative identifier."] None)
  | Some alt_id =>
  match sai_rank item with
  | None => Raise (SpineIntegrityError [Lit "Missing scenario alternative rank."] None)
  | Some rank =>
  match scenario_names !! scen_id with
  | None =>
    Raise (SpineIntegrityError
      [Lit "Scenario with id "; Int scen_id; Lit " does not have a name."] None)
  | Some scen_name =>
  match alternative_names !! alt_id with
  | None =>
    Raise (SpineIntegrityError
      [Lit "Alternative with id "; Int alt_id; Lit " does not have a name."] None)
  | Some alt_name =>
  match ids_by_alt_id !! (scen_id, alt_id) with
  | Some dup_id =>
    Raise (SpineIntegrityError
      [Lit "Alternative "; Str alt_name; Lit " already exists in scenario ";
       Str scen_name; Lit "."] (Some dup_id))
  | None =>
  match ids_by_rank !! (scen_id, rank) with
  | Some dup_id =>
    Raise (SpineIntegrityError
      [Lit "Rank "; Int rank; Lit " already exists in scenario "; Str scen_name;
       Lit ". Cannot give the same rank for alternative "; Str alt_name; Lit "."]
      (Some dup_id))
  | None => Ok ()
  end end end end end end end.

(** The keys of a dictionary of the objects in the database: the callers
    key it by [(class_id, name)] tuples; a lookup by a bare name is a lookup
    by another key. *)
Inductive object_key :=
| by_name (name : string)
| by_class_and_name (class_id : Z) (name : string).

#[global] Instance object_key_eq_dec : EqDecision object_key.
Proof. solve_decision. Defined.

#[global] Instance object_key_countable : Countable object_key.
Proof.
  refine (inj_countable'
            (λ k, match k with
                  | by_name n => inl n
                  | by_class_and_name c n => inr (c, n)
                  end)
            (λ x, match x with
                  | inl n => by_name n
                  | inr (c, n) => by_class_and_name c n
                  end) _).
  by intros [].
Defined.

Record object_check_item := {
  o_name : option string;
  o_type_id : option Z;
  o_class_id : option Z }.

(** [check_object]. *)
Definition check_object (item : object_check_item)
    (current_items : gmap object_key Z) (object_class_ids : list Z)
    (object_entity_type : Z) : result unit :=
  match o_name item with
  | None =>
    Raise (SpineIntegrityError
      [Lit "Python KeyError: There is no dictionary key for the object name. Probably a bug, please report."]
      None)
  | Some name =>
    if bool_decide (name = "") then
      Raise (SpineIntegrityError
        [Lit "Object name is an empty string and therefore not valid"] None)
    else if match o_type_id item with
            | Some type_id => negb (bool_decide (type_id = object_entity_type))
            | None => false
            end then
      (* the argument [id=current_items[name]] is evaluated first *)
      match current_items !! by_name name with
      | None => Raise KeyError
      | Some id =>
        Raise (SpineIntegrityError
          [Lit "Object '"; Str name; Lit "' does not have entity type of and object"]
          (Some id))
      end
    else
      match o_class_id item with
      | None =>
        Raise (SpineIntegrityError
          [Lit "Object '"; Str name; Lit "' does not have an object class id."] None)
      | Some class_id =>
        if negb (bool_decide (class_id ∈ object_class_ids)) then
          Raise (SpineIntegrityError
            [Lit "Object class id for object '"; Str name; Lit "' not found."] None)
        else
          match current_items !! by_class_and_name class_id name with
          | Some id =>
            Raise (SpineIntegrityError
              [Lit "There's already an object called '"; Str name;
               Lit "' in the same object class."] (Some id))
          | None => Ok ()
          end
      end
  end.

(** A wide parameter value list item. *)
Record wide_parameter_value_list_item := {
  pvl_name : option string;
  pvl_value_list : option (list string) }.

Section parameter_value.
(** [from_database(value, value_type=None)] of [parameter_value], which is
    not among the sources: the text of the [ParameterValueFormatError] it
    raises for a value, or [None] when it returns. *)
Variable from_database : string → option string.

(** The loop over the values. *)
Fixpoint check_values (value_list : list string) : result unit :=
  match value_list with
  | [] => Ok ()
  | value :: rest =>
    match from_database value with
    | Some err =>
      Raise (SpineIntegrityError
        [Lit "Invalid value '"; Str value; Lit "': "; Str err] None)
    | None => check_values rest
    end
  end.

(** [check_wide_parameter_value_list]. *)
Definition check_wide_parameter_value_list (wide_item : wide_parameter_value_list_item)
    (current_items : gmap string Z) : result unit :=
  match pvl_name wide_item with
  | None => Raise (SpineIntegrityError [Lit "Missing parameter value list name."] None)
  | Some name =>
    match current_items !! name with
    | Some id =>
      Raise (SpineIntegrityError
        [Lit "There can't be more than one parameter value_list called '"; Str name;
         Lit "'."] (Some id))
    | None =>
      match pvl_value_list wide_item with
      | None => Raise (SpineIntegrityError [Lit "Missing list of values."] None)
      | Some value_list =>
        if negb (Nat.eqb (length value_list)
                   (size (list_to_set value_list : gset string))) then
          Raise (SpineIntegrityError [Lit "Values must be unique."] None)
        else check_values value_list
      end
    end
  end.

End parameter_value.

(** *** Features, tool features and their methods *)

(** A value under a key of an item: the key may be missing, and a value
    may be [None]. *)
Definition field := option (option Z).

(** [d[k]] and [d.get(k)] for a dictionary keyed by ids, and for one keyed
    by pairs of ids: [None] is no key of theirs. *)
Definition at_id {A} (d : gmap Z A) (k : option Z) : option A :=
  match k with
  | Some k => d !! k
  | None => None
  end.

Definition at_ids {A} (d : gmap (Z * Z) A) (k1 k2 : option Z) : option A :=
  match k1, k2 with
  | Some k1, Some k2 => d !! (k1, k2)
  | _, _ => None
  end.

(** The entries of the dictionaries the callers hand over, with the keys
    the checks read. *)
Record parameter_definition_entry := {
  pd_name : string;
  pd_parameter_value_list_id : option Z }.

Record tool_entry := { tool_name : string }.

Record feature_entry := {
  feature_name : string;
  feature_parameter_value_list_id : option Z }.

Record tool_feature_entry := { tf_parameter_value_list_id : option Z }.

Record parameter_value_list_entry := { value_index_list : list Z }.

Record feature_item := {
  fi_parameter_definition_id : field;
  fi_parameter_value_list_id : field }.

Record tool_feature_item := {
  tfi_tool_id : field;
  tfi_feature_id : field;
  tfi_parameter_value_list_id : field }.

Record tool_feature_method_item := {
  tfm_tool_feature_id : field;
  tfm_parameter_value_list_id : field;
  tfm_method_index : field }.

(** [check_feature]. *)
Definition check_feature (item : feature_item) (current_items : gmap Z Z)
    (parameter_definitions : gmap Z parameter_definition_entry) : result unit :=
  match fi_parameter_definition_id item with
  | None => Raise (SpineIntegrityError [Lit "Missing parameter identifier."] None)
  | Some parameter_definition_id =>
  match fi_parameter_value_list_id item with
  | None =>
    Raise (SpineIntegrityError [Lit "Missing parameter value list identifier."] None)
  | Some parameter_value_list_id =>
  match at_id parameter_definitions parameter_definition_id with
  | None => Raise (SpineIntegrityError [Lit "Parameter not found."] None)
  | Some parameter_definition =>
  match parameter_value_list_id with
  | None =>
    Raise (SpineIntegrityError
      [Lit "Parameter '"; Str (pd_name parameter_definition);
       Lit "' doesn't have a value list."] None)
  | Some _ =>
  if negb (bool_decide
             (parameter_value_list_id = pd_parameter_value_list_id parameter_definition))
  then
    Raise (SpineIntegrityError
      [Lit "Parameter definition and value list don't match."] None)
  else
  match at_id current_items parameter_definition_id with
  | Some id =>
    Raise (SpineIntegrityError
      [Lit "There's already a feature defined for parameter '";
       Str (pd_name parameter_definition); Lit "'."] (Some id))
  | None => Ok ()
  end end end end end.

(** [check_tool_feature]. *)
Definition check_tool_feature (item : tool_feature_item)
    (current_items : gmap (Z * Z) Z) (tools : gmap Z tool_entry)
    (features : gmap Z feature_entry) : result unit :=
  match tfi_tool_id item with
  | None => Raise (SpineIntegrityError [Lit "Missing tool identifier."] None)
  | Some tool_id =>
  match tfi_feature_id item with
  | None => Raise (SpineIntegrityError [Lit "Missing feature identifier."] None)
  | Some feature_id =>
  match tfi_parameter_value_list_id item with
  | None =>
    Raise (SpineIntegrityError [Lit "Missing parameter value list identifier."] None)
  | Some parameter_value_list_id =>
  match at_id tools tool_id with
  | None => Raise (SpineIntegrityError [Lit "Tool not found."] None)
  | Some tool =>
  match at_id features feature_id with
  | None => Raise (SpineIntegrityError [Lit "Feature not found."] None)
  | Some feature =>
  match at_ids current_items tool_id feature_id with
  | Some dup_id =>
    Raise (SpineIntegrityError
      [Lit "Tool '"; Str (tool_name tool); Lit "' already has feature '";
       Str (feature_name feature); Lit "'."] (Some dup_id))
  | None =>
  if negb (bool_decide
             (parameter_value_list_id = feature_parameter_value_list_id feature))
  then
    Raise (SpineIntegrityError [Lit "Feature and parameter value list don't match."] None)
  else Ok ()
  end end end end end end.

(** [check_tool_feature_method]. *)
Definition check_tool_feature_method (item : tool_feature_method_item)
    (current_items : gmap (Z * Z) Z) (tool_features : gmap Z tool_feature_entry)
    (parameter_value_lists : gmap Z parameter_value_list_entry) : result unit :=
  match tfm_tool_feature_id item with
  | None => Raise (SpineIntegrityError [Lit "Missing tool feature identifier."] None)
  | Some tool_feature_id =>
  match tfm_parameter_value_list_id item with
  | None =>
    Raise (SpineIntegrityError [Lit "Missing parameter value list identifier."] None)
  | Some parameter_value_list_id =>
  match tfm_method_index item with
  | None => Raise (SpineIntegrityError [Lit "Missing method index."] None)
  | Some method_index =>
  match at_id tool_features tool_feature_id with
  | None => Raise (SpineIntegrityError [Lit "Tool feature not found."] None)
  | Some tool_feature =>
  match at_id parameter_value_lists parameter_value_list_id with
  | None => Raise (SpineIntegrityError [Lit "Parameter value list not found."] None)
  | Some parameter_value_list =>
  match at_ids current_items tool_feature_id method_index with
  | Some dup_id =>
    Raise (SpineIntegrityError [Lit "Tool feature already has the given method."]
             (Some dup_id))
  | None =>
  if negb (bool_decide
             (parameter_value_list_id = tf_parameter_value_list_id tool_feature))
  then
    Raise (SpineIntegrityError [Lit "Feature and parameter value list don't match."] None)
  else if negb (match method_index with
                | Some i => bool_decide (i ∈ value_index_list parameter_value_list)
                | None => false
                end)
  then Raise (SpineIntegrityError [Lit "Invalid method for tool feature."] None)
  else Ok ()
  end end end end end end.

(** *** Relationship classes *)

(** A wide relationship class item: the keys the check and the insertion
    read. *)
Record wide_relationship_class_kwargs := {
  wrc_name : option string;
  wrc_object_class_id_list : option (list Z);
  wrc_type_id : option Z }.

(** [check_wide_relationship_class]. *)
Definition check_wide_relationship_class (wide_item : wide_relationship_class_kwargs)
    (current_items : gmap string Z) (object_class_ids : list Z)
    (relationship_class_type : Z) : result unit :=
  match wrc_name wide_item with
  | None =>
    Raise (SpineIntegrityError
      [Lit "Python KeyError: There is no dictionary key for the relationship class name. Probably a bug, please report."]
      None)
  | Some name =>
  if bool_decide (name = "") then
    Raise (SpineIntegrityError [Lit "Name '"; Str name; Lit "' is not valid"] None)
  else
  match wrc_object_class_id_list wide_item with
  | None =>
    Raise (SpineIntegrityError
      [Lit "Python KeyError: There is no dictionary keys for the object class ids of relationship class '";
       Str name; Lit "'. Probably a bug, please report."] None)
  | Some given_object_class_id_list =>
  match given_object_class_id_list with
  | [] =>
    Raise (SpineIntegrityError
      [Lit "At least one object class is needed for the relationship class '";
       Str name; Lit "'."] None)
  | _ =>
  if negb (forallb (λ id_, bool_decide (id_ ∈ object_class_ids))
             given_object_class_id_list) then
    Raise (SpineIntegrityError
      [Lit "At least one of the object class ids of the relationship class '";
       Str name; Lit "' is not in the database."] None)
  else if match wrc_type_id wide_item with
          | Some type_id => negb (bool_decide (type_id = relationship_class_type))
          | None => false
          end then
    (* the argument [id=current_items[name]] is evaluated first *)
    match current_items !! name with
    | None => Raise KeyError
    | Some id =>
      Raise (SpineIntegrityError
        [Lit "Relationship class '"; Str name; Lit "' must have correct type_id ."]
        (Some id))
    end
  else
    match current_items !! name with
    | Some id =>
      Raise (SpineIntegrityError
        [Lit "There can't be more than one relationship class with the name '";
         Str name; Lit "'."] (Some id))
    | None => Ok ()
    end
  end end end.

End more_check_functions.

(** The database with one more scenario alternative. *)
Definition add_scenario_alternative (db : db_mapping_base.db_map)
    (row : db_mapping_base.scenario_alternative_row) : db_mapping_base.db_map :=
  {| db_mapping_base.alternative_sq := db_mapping_base.alternative_sq db;
     db_mapping_base.scenario_sq := db_mapping_base.scenario_sq db;
     db_mapping_base.scenario_alternative_sq :=
       db_mapping_base.scenario_alternative_sq db ++ [row];
     db_mapping_base.parameter_value_rows := db_mapping_base.parameter_value_rows db;
     db_mapping_base.ids_for_in := db_mapping_base.ids_for_in db;
     db_mapping_base._ids_for_in_clause_id := db_mapping_base._ids_for_in_clause_id db |}.

Section check_scenario_alternative_properties.
Import db_mapping_base more_check_functions.

(** X15: the check guards what the scenario filter relies on.  When the
    dictionaries handed to [check_scenario_alternative] have an entry for
    every scenario alternative of the database, an item the check accepts
    names a scenario and an alternative that exist, an alternative the
    scenario does not have yet, and a rank the scenario does not use yet: in
    the database with the new row, the ranks within every scenario are
    still pairwise different. *)
Theorem check_scenario_alternative_keeps_ranks_unique
    (db : db_map) (item : scenario_alternative_item)
    (ids_by_alt_id ids_by_rank : gmap (Z * Z) Z)
    (scenario_names alternative_names : gmap Z string) (new_id : Z) :
  (∀ a, a ∈ scenario_alternative_sq db →
        is_Some (ids_by_alt_id !! (sa_scenario_id a, sa_alternative_id a))
        ∧ is_Some (ids_by_rank !! (sa_scenario_id a, sa_rank a))) →
  check_scenario_alternative item ids_by_alt_id ids_by_rank
    scenario_names alternative_names = Ok () →
  ∃ scen_id alt_id rank,
    item = {| sai_scenario_id := Some scen_id; sai_alternative_id := Some alt_id;
              sai_rank := Some rank |}
    ∧ is_Some (scenario_names !! scen_id)
    ∧ is_Some (alternative_names !! alt_id)
    ∧ (∀ a, a ∈ scenario_alternative_sq db → sa_scenario_id a = scen_id →
            sa_alternative_id a ≠ alt_id ∧ sa_rank a ≠ rank)
    ∧ ∀ S, unique_ranks db S →
           unique_ranks
             (add_scenario_alternative db
                {| sa_id := new_id; sa_scenario_id := scen_id;
                   sa_alternative_id := alt_id; sa_rank := rank |}) S.
Proof.
  intros Hcover. unfold check_scenario_alternative.
  destruct item as [[scen_id|] [alt_id|] [rank|]]; cbn [sai_scenario_id
    sai_alternative_id sai_rank]; try done.
  destruct (scenario_names !! scen_id) as [scen_name|] eqn:Hs; [|done].
  destruct (alternative_names !! alt_id) as [alt_name|] eqn:Ha; [|done].
  destruct (ids_by_alt_id !! (scen_id, alt_id)) as [?|] eqn:Halt; [done|].
  destruct (ids_by_rank !! (scen_id, rank)) as [?|] eqn:Hrank; [done|].
  intros _. exists scen_id, alt_id, rank.
  assert (Hnew : ∀ a, a ∈ scenario_alternative_sq db → sa_scenario_id a = scen_id →
            sa_alternative_id a ≠ alt_id ∧ sa_rank a ≠ rank).
  { intros a Hin <-. destruct (Hcover a Hin) as [[? H1] [? H2]].
    split; intros <-; congruence. }
  split; [done|]. split; [done|]. split; [done|]. split; [exact Hnew|].
  intros S. unfold unique_ranks, add_scenario_alternative.
  cbn [scenario_alternative_sq]. rewrite List.filter_app, map_app.
  cbn [List.filter sa_scenario_id]. case_bool_decide as HS.
  - subst S. cbn [map sa_rank]. intros Hnd. apply NoDup_app.
    split; [done|]. split; [|apply NoDup_singleton].
    intros r (a & Hr & Hin)%map_elem_of ->%list_elem_of_singleton.
    apply filter_elem_of in Hin as [Hin Hscen].
    apply bool_decide_eq_true in Hscen.
    by destruct (Hnew a Hin Hscen) as [_ ?].
  - cbn [map]. by rewrite app_nil_r.
Qed.

End check_scenario_alternative_properties.

(** A third alternative for the scenario of the example, at rank 3. *)
Lemma check_scenario_alternative_keeps_ranks_unique_witness :
  unique_ranks
    (add_scenario_alternative scenario_example
       {| db_mapping_base.sa_id := 3; db_mapping_base.sa_scenario_id := 1;
          db_mapping_base.sa_alternative_id := 1; db_mapping_base.sa_rank := 3 |}) 1.
Proof.
  destruct (check_scenario_alternative_keeps_ranks_unique scenario_example
              {| more_check_functions.sai_scenario_id := Some 1%Z;
                 more_check_functions.sai_alternative_id := Some 1%Z;
                 more_check_functions.sai_rank := Some 3%Z |}
              {[ (1, 2) := 1; (1, 3) := 2 ]}%Z {[ (1, 1) := 1; (1, 2) := 2 ]}%Z
              {[ 1%Z := "S" ]} {[ 1%Z := "Base"; 2%Z := "A1"; 3%Z := "A2" ]} 3%Z)
    as (scen_id & alt_id & rank & Hitem & _ & _ & _ & Hranks).
  - intros a Ha. cbn in Ha.
    apply elem_of_cons in Ha as [->|Ha]; [by split; eexists|].
    apply elem_of_cons in Ha as [->|Ha]; [by split; eexists|].
    by apply elem_of_nil in Ha.
  - reflexivity.
  - injection Hitem as <- <- <-. apply Hranks.
    apply (bool_decide_unpack _). vm_compute. exact I.
Defined.

Section check_object_properties.
Import more_check_functions.

(** X16: with the objects in the database keyed by [(class_id, name)], as
    the callers hand them over, an object item with a name and a type id
    other than the object entity type is never reported as an integrity
    error: the check raises [KeyError], whatever else the item and the
    database hold. *)
Theorem check_object_wrong_type_key_error
    (item : object_check_item) (current_items : gmap object_key Z)
    (object_class_ids : list Z) (object_entity_type : Z)
    (name : string) (type_id : Z) :
  (∀ k, is_Some (current_items !! k) → ∃ c n, k = by_class_and_name c n) →
  o_name item = Some name →
  name ≠ "" →
  o_type_id item = Some type_id →
  type_id ≠ object_entity_type →
  check_object item current_items object_class_ids object_entity_type = Raise KeyError.
Proof.
  intros Hkeys Hname Hne Htype Hwrong. unfold check_object.
  rewrite Hname, Htype, (bool_decide_eq_false_2 _ Hne),
    (bool_decide_eq_false_2 _ Hwrong). cbn [negb].
  destruct (current_items !! by_name name) as [id|] eqn:E; [|done].
  by destruct (Hkeys (by_name name)) as (c & n & ?); [by eexists|].
Qed.

End check_object_properties.

Lemma check_object_wrong_type_key_error_witness :
  more_check_functions.check_object
    {| more_check_functions.o_name := Some "nemo";
       more_check_functions.o_type_id := Some 2%Z;
       more_check_functions.o_class_id := Some 1%Z |}
    {[ more_check_functions.by_class_and_name 1 "nemo" := 7%Z ]} [1%Z] 1%Z
  = Raise KeyError.
Proof.
  apply (check_object_wrong_type_key_error _ _ _ _ "nemo" 2%Z).
  - intros k [id Hk]. apply lookup_singleton_Some in Hk as [<- _]. by eexists _, _.
  - reflexivity.
  - discriminate.
  - reflexivity.
  - discriminate.
Defined.

Section check_wide_parameter_value_list_properties.
Import more_check_functions.
Variable from_database : string → option string.

Lemma size_list_to_set_le (l : list string) :
  size (list_to_set l : gset string) ≤ length l.
Proof.
  induction l as [|x l IH]; [done|]. cbn [list_to_set length].
  rewrite size_union_alt, size_singleton.
  assert (size (list_to_set l ∖ {[x]} : gset string) ≤ size (list_to_set l : gset string)).
  { apply subseteq_size, subseteq_difference_l. done. }
  lia.
Qed.

(** [len(value_list) == len(set(value_list))] says that no value is
    repeated. *)
Lemma size_list_to_set_NoDup (l : list string) :
  length l = size (list_to_set l : gset string) ↔ NoDup l.
Proof.
  split; [|intros H; symmetry; by apply size_list_to_set].
  induction l as [|x l IH]; [constructor|]. cbn [list_to_set length]. intros Hlen.
  pose proof (size_list_to_set_le l) as Hle.
  destruct (decide (x ∈ l)) as [Hin|Hnin].
  - exfalso.
    assert (({[x]} ∪ list_to_set l : gset string) = list_to_set l) as Heq.
    { apply set_eq. intros y. rewrite elem_of_union, elem_of_singleton,
        elem_of_list_to_set. split; [by intros [->|?]|by right]. }
    rewrite Heq in Hlen. lia.
  - apply NoDup_cons. split; [done|]. apply IH.
    rewrite size_union in Hlen; [|by apply disjoint_singleton_l; rewrite elem_of_list_to_set].
    rewrite size_singleton in Hlen. lia.
Qed.

Lemma check_values_ok (value_list : list string) :
  check_values from_database value_list = Ok ()
  ↔ Forall (λ v, from_database v = None) value_list.
Proof.
  induction value_list as [|v l IH]; cbn [check_values].
  - by split.
  - rewrite Forall_cons. destruct (from_database v).
    + split; [done|]. by intros [? _].
    + rewrite IH. split; [by split|by intros [_ ?]].
Qed.

(** X17: [check_wide_parameter_value_list] accepts an item exactly when it
    has a name that no value list of the database has, and a list of values
    none of which is repeated and all of which [from_database] reads. *)
Theorem check_wide_parameter_value_list_accepts_iff
    (wide_item : wide_parameter_value_list_item) (current_items : gmap string Z) :
  check_wide_parameter_value_list from_database wide_item current_items = Ok ()
  ↔ ∃ name value_list,
      wide_item = {| pvl_name := Some name; pvl_value_list := Some value_list |}
      ∧ current_items !! name = None
      ∧ NoDup value_list
      ∧ Forall (λ v, from_database v = None) value_list.
Proof.
  unfold check_wide_parameter_value_list.
  destruct wide_item as [[name|] [value_list|]]; cbn [pvl_name pvl_value_list].
  - destruct (current_items !! name) as [id|] eqn:Hcur.
    + split; [done|]. intros (n & l & [= <- <-] & ? & _). congruence.
    + destruct (Nat.eqb _ _) eqn:E; cbn [negb].
      * apply Nat.eqb_eq, size_list_to_set_NoDup in E. rewrite check_values_ok.
        split; [intros ?; by exists name, value_list|].
        by intros (n & l & [= <- <-] & _ & _ & ?).
      * apply Nat.eqb_neq in E. rewrite size_list_to_set_NoDup in E.
        split; [done|]. by intros (n & l & [= <- <-] & _ & ? & _).
  - destruct (current_items !! name); (split; [done|]); by intros (? & ? & [=] & _).
  - split; [done|]. by intros (? & ? & [=] & _).
  - split; [done|]. by intros (? & ? & [=] & _).
Qed.

End check_wide_parameter_value_list_properties.

Section feature_chain.
Import more_check_functions.

(** What each of the three checks has made sure of when it accepts. *)
Lemma check_feature_ok (item : feature_item) (current_items : gmap Z Z)
    (parameter_definitions : gmap Z parameter_definition_entry) :
  check_feature item current_items parameter_definitions = Ok () →
  ∃ pd_id l pd,
    fi_parameter_definition_id item = Some (Some pd_id)
    ∧ fi_parameter_value_list_id item = Some (Some l)
    ∧ parameter_definitions !! pd_id = Some pd
    ∧ pd_parameter_value_list_id pd = Some l
    ∧ current_items !! pd_id = None.
Proof.
  unfold check_feature.
  destruct (fi_parameter_definition_id item) as [[pd_id|]|]; [| |done].
  - destruct (fi_parameter_value_list_id item) as [[l|]|]; [| |done]; cbn [at_id].
    + destruct (parameter_definitions !! pd_id) as [pd|] eqn:Hpd; [|done].
      case_bool_decide as Hl; [|done]. cbn [negb].
      destruct (current_items !! pd_id) eqn:Hc; [done|].
      intros _. exists pd_id, l, pd. by rewrite <- Hl.
    + by destruct (parameter_definitions !! pd_id).
  - by destruct (fi_parameter_value_list_id item).
Qed.

Lemma check_tool_feature_ok (item : tool_feature_item)
    (current_items : gmap (Z * Z) Z) (tools : gmap Z tool_entry)
    (features : gmap Z feature_entry) :
  check_tool_feature item current_items tools features = Ok () →
  ∃ tool_id feature_id feature,
    tfi_tool_id item = Some (Some tool_id)
    ∧ tfi_feature_id item = Some (Some feature_id)
    ∧ is_Some (tools !! tool_id)
    ∧ features !! feature_id = Some feature
    ∧ tfi_parameter_value_list_id item = Some (feature_parameter_value_list_id feature)
    ∧ current_items !! (tool_id, feature_id) = None.
Proof.
  unfold check_tool_feature.
  destruct (tfi_tool_id item) as [tool_id|]; [|done].
  destruct (tfi_feature_id item) as [feature_id|]; [|done].
  destruct (tfi_parameter_value_list_id item) as [l|]; [|done].
  destruct tool_id as [tool_id|]; cbn [at_id]; [|done].
  destruct (tools !! tool_id) as [tool|] eqn:Ht; [|done].
  destruct feature_id as [feature_id|]; cbn [at_id]; [|done].
  destruct (features !! feature_id) as [feature|] eqn:Hf; [|done]. cbn [at_ids].
  destruct (current_items !! (tool_id, feature_id)) eqn:Hc; [done|].
  case_bool_decide as Hl; [|done]. intros _.
  exists tool_id, feature_id, feature. rewrite Hl. by repeat split.
Qed.

Lemma check_tool_feature_method_ok (item : tool_feature_method_item)
    (current_items : gmap (Z * Z) Z) (tool_features : gmap Z tool_feature_entry)
    (parameter_value_lists : gmap Z parameter_value_list_entry) :
  check_tool_feature_method item current_items tool_features parameter_value_lists
  = Ok () →
  ∃ tool_feature_id l i tool_feature parameter_value_list,
    tfm_tool_feature_id item = Some (Some tool_feature_id)
    ∧ tfm_parameter_value_list_id item = Some (Some l)
    ∧ tfm_method_index item = Some (Some i)
    ∧ tool_features !! tool_feature_id = Some tool_feature
    ∧ tf_parameter_value_list_id tool_feature = Some l
    ∧ parameter_value_lists !! l = Some parameter_value_list
    ∧ i ∈ value_index_list parameter_value_list
    ∧ current_items !! (tool_feature_id, i) = None.
Proof.
  unfold check_tool_feature_method.
  destruct (tfm_tool_feature_id item) as [tool_feature_id|]; [|done].
  destruct (tfm_parameter_value_list_id item) as [l|]; [|done].
  destruct (tfm_method_index item) as [i|]; [|done].
  destruct tool_feature_id as [tool_feature_id|]; cbn [at_id]; [|done].
  destruct (tool_features !! tool_feature_id) as [tool_feature|] eqn:Htf; [|done].
  destruct l as [l|]; cbn [at_id]; [|done].
  destruct (parameter_value_lists !! l) as [parameter_value_list|] eqn:Hvl; [|done].
  destruct i as [i|]; cbn [at_ids].
  - destruct (current_items !! (tool_feature_id, i)) eqn:Hc; [done|].
    case_bool_decide as Hl; [|done]. cbn [negb].
    case_bool_decide as Hi; [|done]. intros _.
    exists tool_feature_id, l, i, tool_feature, parameter_value_list.
    by repeat split.
  - by case_bool_decide.
Qed.

(** X18: the three checks chain.  For a feature the check accepted, a tool
    feature accepted for that feature, and a method accepted for that tool
    feature, where the dictionaries hold the feature and the tool feature
    with the value list ids of their items: the method index is one of the
    indexes of the value list of the parameter definition the feature was
    defined for. *)
Theorem accepted_method_indexes_the_value_list_of_the_parameter
    (feature : feature_item) (tool_feature : tool_feature_item)
    (method : tool_feature_method_item)
    (current_features : gmap Z Z) (current_tool_features current_methods : gmap (Z * Z) Z)
    (parameter_definitions : gmap Z parameter_definition_entry)
    (tools : gmap Z tool_entry) (features : gmap Z feature_entry)
    (tool_features : gmap Z tool_feature_entry)
    (parameter_value_lists : gmap Z parameter_value_list_entry)
    (feature_id tool_feature_id : Z)
    (feature_in_db : feature_entry) (tool_feature_in_db : tool_feature_entry) :
  check_feature feature current_features parameter_definitions = Ok () →
  features !! feature_id = Some feature_in_db →
  fi_parameter_value_list_id feature
  = Some (feature_parameter_value_list_id feature_in_db) →
  check_tool_feature tool_feature current_tool_features tools features = Ok () →
  tfi_feature_id tool_feature = Some (Some feature_id) →
  tool_features !! tool_feature_id = Some tool_feature_in_db →
  tfi_parameter_value_list_id tool_feature
  = Some (tf_parameter_value_list_id tool_feature_in_db) →
  check_tool_feature_method method current_methods tool_features parameter_value_lists
  = Ok () →
  tfm_tool_feature_id method = Some (Some tool_feature_id) →
  ∃ pd_id pd l value_list i,
    fi_parameter_definition_id feature = Some (Some pd_id)
    ∧ parameter_definitions !! pd_id = Some pd
    ∧ pd_parameter_value_list_id pd = Some l
    ∧ parameter_value_lists !! l = Some value_list
    ∧ tfm_method_index method = Some (Some i)
    ∧ i ∈ value_index_list value_list.
Proof.
  intros Hf Hfdb Hfl Htf Htff Htfdb Htfl Hm Hmtf.
  apply check_feature_ok in Hf as (pd_id & l & pd & Hpd & Hl & Hpds & Hpdl & _).
  apply check_tool_feature_ok in Htf
    as (tool_id & fid & f & _ & Hfid & _ & Hfs & Htfl' & _).
  apply check_tool_feature_method_ok in Hm
    as (tfid & l' & i & tf & vl & Htfid & _ & Hi & Htfs & Htfl'' & Hvl & Hin & _).
  exists pd_id, pd, l, vl, i.
  split; [done|]. split; [done|]. split; [done|]. split; [|done].
  assert (l' = l) as ->; [|done].
  simplify_eq. congruence.
Qed.

End feature_chain.

Lemma accepted_method_indexes_the_value_list_of_the_parameter_witness :
  ∃ pd_id pd l value_list i,
    ({[ 4%Z := {| more_check_functions.pd_name := "fuel";
                  more_check_functions.pd_parameter_value_list_id := Some 9%Z |} ]}
       : gmap Z more_check_functions.parameter_definition_entry) !! pd_id = Some pd
    ∧ more_check_functions.pd_parameter_value_list_id pd = Some l
    ∧ ({[ 9%Z := {| more_check_functions.value_index_list := [0; 1; 2]%Z |} ]}
         : gmap Z more_check_functions.parameter_value_list_entry) !! l = Some value_list
    ∧ i = 2%Z
    ∧ i ∈ more_check_functions.value_index_list value_list.
Proof.
  destruct (accepted_method_indexes_the_value_list_of_the_parameter
              {| more_check_functions.fi_parameter_definition_id := Some (Some 4%Z);
                 more_check_functions.fi_parameter_value_list_id := Some (Some 9%Z) |}
              {| more_check_functions.tfi_tool_id := Some (Some 1%Z);
                 more_check_functions.tfi_feature_id := Some (Some 5%Z);
                 more_check_functions.tfi_parameter_value_list_id := Some (Some 9%Z) |}
              {| more_check_functions.tfm_tool_feature_id := Some (Some 6%Z);
                 more_check_functions.tfm_parameter_value_list_id := Some (Some 9%Z);
                 more_check_functions.tfm_method_index := Some (Some 2%Z) |}
              ∅ ∅ ∅
              {[ 4%Z := {| more_check_functions.pd_name := "fuel";
                           more_check_functions.pd_parameter_value_list_id := Some 9%Z |} ]}
              {[ 1%Z := {| more_check_functions.tool_name := "planner" |} ]}
              {[ 5%Z := {| more_check_functions.feature_name := "fuel";
                           more_check_functions.feature_parameter_value_list_id := Some 9%Z |} ]}
              {[ 6%Z := {| more_check_functions.tf_parameter_value_list_id := Some 9%Z |} ]}
              {[ 9%Z := {| more_check_functions.value_index_list := [0; 1; 2]%Z |} ]}
              5%Z 6%Z
              {| more_check_functions.feature_name := "fuel";
                 more_check_functions.feature_parameter_value_list_id := Some 9%Z |}
              {| more_check_functions.tf_parameter_value_list_id := Some 9%Z |})
    as (pd_id & pd & l & vl & i & _ & Hpd & Hl & Hvl & Hi & Hin);
    [reflexivity..|].
  exists pd_id, pd, l, vl, i.
  split; [exact Hpd|]. split; [exact Hl|]. split; [exact Hvl|].
  split; [by injection Hi as <-|exact Hin].
Defined.

(** ** _add_diff_database_mapping.py: relationship classes *)

Module more_add_diff_database_mapping.
Import more_check_functions.

(** A row of [DiffRelationshipClass]. *)
Record narrow_kwargs := {
  nk_id : Z;
  nk_dimension : nat;
  nk_object_class_id : Z;
  nk_name : string }.

(** The inner loop of [_add_wide_relationship_classes], over
    [enumerate(wide_kwargs["object_class_id_list"])]; the name is read once
    per member class. *)
Definition narrow_rows (id : Z) (wide_kwargs : wide_relationship_class_kwargs)
    : result (list narrow_kwargs) :=
  match wrc_object_class_id_list wide_kwargs with
  | None => Raise KeyError
  | Some [] => Ok []
  | Some object_class_id_list =>
    match wrc_name wide_kwargs with
    | None => Raise KeyError
    | Some name =>
      Ok (imap (λ dimension object_class_id,
                  {| nk_id := id; nk_dimension := dimension;
                     nk_object_class_id := object_class_id; nk_name := name |})
            object_class_id_list)
    end
  end.

(** The outer loop: the rows gathered so far and the next id. *)
Fixpoint _add_wide_relationship_classes_loop (id : Z)
    (wide_kwargs_list : list wide_relationship_class_kwargs)
    (item_list : list narrow_kwargs) : result (list narrow_kwargs * Z) :=
  match wide_kwargs_list with
  | [] => Ok (item_list, id)
  | wide_kwargs :: rest =>
    match narrow_rows id wide_kwargs with
    | Raise e => Raise e
    | Ok rows => _add_wide_relationship_classes_loop (id + 1) rest (item_list ++ rows)
    end
  end.

(** What [_add_wide_relationship_classes] hands to the session from the
    first id on: the set of ids it returns, the rows it inserts and the
    value it leaves in the counter. *)
Definition _add_wide_relationship_classes_items (id : Z)
    (wide_kwargs_list : list wide_relationship_class_kwargs)
    : result (gset Z * list narrow_kwargs * Z) :=
  let id_list : gset Z := list_to_set (seqZ id (Z.of_nat (length wide_kwargs_list))) in
  match _add_wide_relationship_classes_loop id wide_kwargs_list [] with
  | Raise e => Raise e
  | Ok (item_list, id) => Ok (id_list, item_list, id)
  end.

End more_add_diff_database_mapping.

Section narrow_rows_properties.
Import more_check_functions more_add_diff_database_mapping.

(** The rows of one wide item, when it has its keys. *)
Definition rows_of (id : Z) (wide_kwargs : wide_relationship_class_kwargs)
    : list narrow_kwargs :=
  match wrc_name wide_kwargs, wrc_object_class_id_list wide_kwargs with
  | Some name, Some l =>
    imap (λ dimension object_class_id,
            {| nk_id := id; nk_dimension := dimension;
               nk_object_class_id := object_class_id; nk_name := name |}) l
  | _, _ => []
  end.

(** An item has what the insertion reads. *)
Definition insertable (wide_kwargs : wide_relationship_class_kwargs) : Prop :=
  is_Some (wrc_name wide_kwargs) ∧ is_Some (wrc_object_class_id_list wide_kwargs).

Lemma narrow_rows_insertable (id : Z) (wide_kwargs : wide_relationship_class_kwargs) :
  insertable wide_kwargs → narrow_rows id wide_kwargs = Ok (rows_of id wide_kwargs).
Proof.
  intros [[name Hn] [l Hl]]. unfold narrow_rows, rows_of. rewrite Hn, Hl.
  by destruct l.
Qed.

Lemma rows_of_id (id : Z) (wide_kwargs : wide_relationship_class_kwargs)
    (r : narrow_kwargs) :
  r ∈ rows_of id wide_kwargs → nk_id r = id.
Proof.
  unfold rows_of. destruct (wrc_name wide_kwargs) as [name|]; [|by intros ?%elem_of_nil].
  destruct (wrc_object_class_id_list wide_kwargs) as [l|]; [|by intros ?%elem_of_nil].
  intros Hr. apply elem_of_lookup_imap in Hr as (i & c & -> & _). done.
Qed.

Lemma loop_insertable (id : Z) (wide_kwargs_list : list wide_relationship_class_kwargs)
    (item_list : list narrow_kwargs) :
  Forall insertable wide_kwargs_list →
  _add_wide_relationship_classes_loop id wide_kwargs_list item_list
  = Ok (item_list
          ++ concat (imap (λ i wide_kwargs, rows_of (id + Z.of_nat i) wide_kwargs)
                       wide_kwargs_list),
        (id + Z.of_nat (length wide_kwargs_list))%Z).
Proof.
  intros H. revert id item_list.
  induction H as [|w l Hw Hl IH]; intros id item_list.
  - cbn. by rewrite app_nil_r, Z.add_0_r.
  - cbn [_add_wide_relationship_classes_loop]. rewrite (narrow_rows_insertable _ _ Hw).
    rewrite IH. cbn [imap concat length]. rewrite Z.add_0_r, <- app_assoc.
    f_equal. apply pair_equal_spec. split; [|lia]. do 3 f_equal.
    apply imap_ext. intros i x _. cbn. f_equal. lia.
Qed.

Lemma filter_rows_other (id id' : Z) (wide_kwargs : wide_relationship_class_kwargs) :
  id ≠ id' →
  List.filter (λ r, bool_decide (nk_id r = id')) (rows_of id wide_kwargs) = [].
Proof.
  intros Hne. apply filter_nothing. intros r Hr%rows_of_id.
  apply bool_decide_eq_false_2. congruence.
Qed.

Lemma filter_rows_same (id : Z) (wide_kwargs : wide_relationship_class_kwargs) :
  List.filter (λ r, bool_decide (nk_id r = id)) (rows_of id wide_kwargs)
  = rows_of id wide_kwargs.
Proof.
  apply filter_all. intros r Hr%rows_of_id. by apply bool_decide_eq_true_2.
Qed.

Lemma filter_concat_rows (id : Z) (l : list wide_relationship_class_kwargs)
    (i : nat) (wide_kwargs : wide_relationship_class_kwargs) :
  l !! i = Some wide_kwargs →
  List.filter (λ r, bool_decide (nk_id r = (id + Z.of_nat i)%Z))
    (concat (imap (λ j w, rows_of (id + Z.of_nat j) w) l))
  = rows_of (id + Z.of_nat i) wide_kwargs.
Proof.
  revert id i. induction l as [|w l IH]; intros id i Hi; [done|].
  cbn [imap concat]. rewrite List.filter_app.
  assert (Hrest : ∀ j,
            List.filter (λ r, bool_decide (nk_id r = (id + Z.of_nat (S j))%Z))
              (concat (imap ((λ j w, rows_of (id + Z.of_nat j) w) ∘ S) l))
            = List.filter (λ r, bool_decide (nk_id r = (id + 1 + Z.of_nat j)%Z))
                (concat (imap (λ j w, rows_of (id + 1 + Z.of_nat j) w) l))).
  { intros j. replace (id + Z.of_nat (S j))%Z with (id + 1 + Z.of_nat j)%Z by lia.
    do 2 f_equal. apply imap_ext. intros k x _. cbn. f_equal. lia. }
  destruct i as [|i]; cbn [lookup list_lookup] in Hi.
  - injection Hi as ->. rewrite filter_rows_same.
    rewrite filter_nothing; [by rewrite app_nil_r|].
    intros r (rows & Hrows & Hr)%list_elem_of_In%in_concat.
    apply list_elem_of_In, elem_of_lookup_imap in Hrows as (k & x & -> & _).
    apply list_elem_of_In in Hr.
    apply rows_of_id in Hr. apply bool_decide_eq_false_2. cbn in Hr. lia.
  - rewrite filter_rows_other by lia. cbn [app].
    rewrite Hrest, (IH (id + 1)%Z i Hi). f_equal. lia.
Qed.

(** An item the check accepts has a name and at least one member class. *)
Lemma check_wide_relationship_class_ok (wide_item : wide_relationship_class_kwargs)
    (current_items : gmap string Z) (object_class_ids : list Z)
    (relationship_class_type : Z) :
  check_wide_relationship_class wide_item current_items object_class_ids
    relationship_class_type = Ok () →
  ∃ name c l,
    wrc_name wide_item = Some name
    ∧ name ≠ ""
    ∧ wrc_object_class_id_list wide_item = Some (c :: l)
    ∧ Forall (λ id_, id_ ∈ object_class_ids) (c :: l)
    ∧ current_items !! name = None.
Proof.
  unfold check_wide_relationship_class.
  destruct (wrc_name wide_item) as [name|]; [|done].
  case_bool_decide as Hname; [done|].
  destruct (wrc_object_class_id_list wide_item) as [[|c l]|]; [done| |done].
  destruct (forallb _ (c :: l)) eqn:Hall; [|done]. cbn [negb].
  destruct (match wrc_type_id wide_item with Some _ => _ | None => _ end).
  - by destruct (current_items !! name).
  - destruct (current_items !! name) eqn:Hcur; [done|]. intros _.
    exists name, c, l. split; [done|]. split; [done|]. split; [done|]. split; [|done].
    apply Forall_forall. intros x Hx. rewrite forallb_forall in Hall.
    apply list_elem_of_In, Hall in Hx. by apply bool_decide_eq_true in Hx.
Qed.

(** X19: for wide items that [check_wide_relationship_class] accepted,
    the insertion hands out one id per item, in order from the first id,
    and leaves the counter after them; grouping the rows it inserts by id
    gives the member classes of each item back, in order and numbered from
    0, under the name of the item, and every id handed out has at least one
    row. *)
Theorem narrow_rows_round_trip (id : Z)
    (wide_kwargs_list : list wide_relationship_class_kwargs) :
  Forall (λ wide_item,
            ∃ current_items object_class_ids relationship_class_type,
              check_wide_relationship_class wide_item current_items object_class_ids
                relationship_class_type = Ok ()) wide_kwargs_list →
  ∃ item_list,
    _add_wide_relationship_classes_items id wide_kwargs_list
    = Ok (list_to_set (seqZ id (Z.of_nat (length wide_kwargs_list))), item_list,
          (id + Z.of_nat (length wide_kwargs_list))%Z)
    ∧ ∀ (i : nat) wide_item,
        wide_kwargs_list !! i = Some wide_item →
        ∃ name object_class_id_list,
          wrc_name wide_item = Some name
          ∧ wrc_object_class_id_list wide_item = Some object_class_id_list
          ∧ object_class_id_list ≠ []
          ∧ map (λ r, (nk_dimension r, nk_object_class_id r, nk_name r))
              (List.filter (λ r, bool_decide (nk_id r = (id + Z.of_nat i)%Z)) item_list)
            = imap (λ dimension object_class_id, (dimension, object_class_id, name))
                object_class_id_list.
Proof.
  intros Hchecked.
  assert (Hins : Forall insertable wide_kwargs_list).
  { eapply Forall_impl; [exact Hchecked|]. cbn.
    intros w (cur & ids & t & Hok).
    apply check_wide_relationship_class_ok in Hok as (name & c & l & Hn & _ & Hl & _).
    split; by eexists. }
  unfold _add_wide_relationship_classes_items.
  rewrite (loop_insertable id wide_kwargs_list [] Hins). cbn [app].
  eexists. split; [reflexivity|].
  intros i w Hi. rewrite (filter_concat_rows id wide_kwargs_list i w Hi).
  rewrite Forall_forall in Hchecked.
  destruct (Hchecked w) as (cur & ids & t & Hok); [by eapply list_elem_of_lookup_2|].
  apply check_wide_relationship_class_ok in Hok as (name & c & l & Hn & _ & Hl & _).
  exists name, (c :: l). split; [done|]. split; [done|]. split; [done|].
  unfold rows_of. rewrite Hn, Hl.
  generalize (c :: l). intros l'. clear.
  change (map ?f ?l) with (f <$> l). rewrite fmap_imap. by apply imap_ext.
Qed.

End narrow_rows_properties.

(** Two relationship classes, inserted from id 7 on. *)
Definition two_relationship_classes
    : list more_check_functions.wide_relationship_class_kwargs :=
  [ {| more_check_functions.wrc_name := Some "fish__dog";
       more_check_functions.wrc_object_class_id_list := Some [1; 2]%Z;
       more_check_functions.wrc_type_id := None |};
    {| more_check_functions.wrc_name := Some "dog__dog";
       more_check_functions.wrc_object_class_id_list := Some [2; 2]%Z;
       more_check_functions.wrc_type_id := Some 2%Z |} ].

Lemma narrow_rows_round_trip_witness :
  ∃ ids item_list,
    more_add_diff_database_mapping._add_wide_relationship_classes_items 7
      two_relationship_classes
    = Ok (ids, item_list, 9%Z)
    ∧ map (λ r, (more_add_diff_database_mapping.nk_dimension r,
                 more_add_diff_database_mapping.nk_object_class_id r,
                 more_add_diff_database_mapping.nk_name r))
        (List.filter
           (λ r, bool_decide (more_add_diff_database_mapping.nk_id r = 8%Z)) item_list)
      = [ (0, 2%Z, "dog__dog"); (1, 2%Z, "dog__dog") ].
Proof.
  destruct (narrow_rows_round_trip 7 two_relationship_classes)
    as (item_list & Heq & Hrows).
  - repeat constructor; exists ∅, [1; 2]%Z, 2%Z; reflexivity.
  - eexists _, item_list. split; [exact Heq|].
    destruct (Hrows 1 _ eq_refl) as (name & l & Hn & Hl & _ & Hmap).
    injection Hn as <-. injection Hl as <-. exact Hmap.
Defined.

(** ** db_mapping_base.py: the cached parameter value subquery *)

Module subquery_cache.
Import db_mapping_base alternative_value_filter.

(** What [_make_parameter_value_sq] is bound to: the method of the class,
    or one of the two filtering functions with its state
    ([partial(..., state=state)]). *)
Inductive maker :=
| default_maker
| scenario_filtering (state : _ScenarioFilterState)
| alternative_filtering (state : _AlternativeFilterState).

(** A [DatabaseMappingBase] with the attributes the property
    [parameter_value_sq] and [override_parameter_value_sq_maker] use.  Of
    the subquery attributes only [_parameter_value_sq] is kept: setting
    another one to [None] changes nothing here. *)
Record mapping := {
  db : db_map;
  _parameter_value_sq : option subquery;
  _make_parameter_value_sq : maker;
  _table_to_sq_attr : gmap string (list string) }.

(** [__init__] leaves the subquery unset, the maker as the class has it
    and the dictionary [_table_to_sq_attr] empty. *)
Definition new (db : db_map) : mapping :=
  {| db := db; _parameter_value_sq := None;
     _make_parameter_value_sq := default_maker; _table_to_sq_attr := ∅ |}.

Definition with_db (s : mapping) (db' : db_map) : mapping :=
  {| db := db'; _parameter_value_sq := _parameter_value_sq s;
     _make_parameter_value_sq := _make_parameter_value_sq s;
     _table_to_sq_attr := _table_to_sq_attr s |}.

(** Code of the filters, run on the mapping. *)
Definition lift {A} (m : M A) (s : mapping) : result A * mapping :=
  let r := m (db s) in (r.1, with_db s r.2).

(** [self._make_parameter_value_sq()]. *)
Definition call_maker (s : mapping) : result subquery * mapping :=
  match _make_parameter_value_sq s with
  | default_maker => (Ok parameter_value_sq_default, s)
  | scenario_filtering state =>
    lift (_make_scenario_filtered_parameter_value_sq state) s
  | alternative_filtering state =>
    lift (_make_alternative_filtered_parameter_value_sq state) s
  end.

(** The property [parameter_value_sq]. *)
Definition parameter_value_sq (s : mapping) : result subquery * mapping :=
  match _parameter_value_sq s with
  | Some sq => (Ok sq, s)
  | None =>
    match call_maker s with
    | (Ok sq, s) =>
      (Ok sq,
       {| db := db s; _parameter_value_sq := Some sq;
          _make_parameter_value_sq := _make_parameter_value_sq s;
          _table_to_sq_attr := _table_to_sq_attr s |})
    | (Raise e, s) => (Raise e, s)
    end
  end.

(** [_clear_subqueries], called with table names. *)
Definition _clear_subqueries (tablenames : list string) (s : mapping) : mapping :=
  let attrs := flat_map (λ table, default [] (_table_to_sq_attr s !! table)) tablenames in
  if bool_decide ("_parameter_value_sq" ∈ attrs) then
    {| db := db s; _parameter_value_sq := None;
       _make_parameter_value_sq := _make_parameter_value_sq s;
       _table_to_sq_attr := _table_to_sq_attr s |}
  else s.

(** [override_parameter_value_sq_maker(method)]. *)
Definition override_parameter_value_sq_maker (method : maker) (s : mapping) : mapping :=
  _clear_subqueries ["parameter_value"]
    {| db := db s; _parameter_value_sq := _parameter_value_sq s;
       _make_parameter_value_sq := method;
       _table_to_sq_attr := _table_to_sq_attr s |}.

(** [apply_scenario_filter_to_parameter_value_sq(db_map, scenario)]: the
    state is built first, from a read of the property and the scenario. *)
Definition apply_scenario_filter_to_parameter_value_sq (scenario : value)
    (s : mapping) : result unit * mapping :=
  match parameter_value_sq s with
  | (Raise e, s) => (Raise e, s)
  | (Ok original, s) =>
    match lift (new_ScenarioFilterState original scenario) s with
    | (Raise e, s) => (Raise e, s)
    | (Ok state, s) =>
      (Ok (), override_parameter_value_sq_maker (scenario_filtering state) s)
    end
  end.


End subquery_cache.

(** Whether clearing the subqueries of [parameter_value] resets the
    attribute [_parameter_value_sq]. *)
Definition registered (s : subquery_cache.mapping) : bool :=
  bool_decide ("_parameter_value_sq"
               ∈ default [] (subquery_cache._table_to_sq_attr s !! "parameter_value")).

Section subquery_cache_properties.
Import db_mapping_base alternative_value_filter subquery_cache.

Lemma clear_parameter_value (s : mapping) :
  _clear_subqueries ["parameter_value"] s
  = if registered s then
      {| db := db s; _parameter_value_sq := None;
         _make_parameter_value_sq := _make_parameter_value_sq s;
         _table_to_sq_attr := _table_to_sq_attr s |}
    else s.
Proof.
  unfold _clear_subqueries, registered. cbn [flat_map]. by rewrite app_nil_r.
Qed.

(** A read of the property leaves the subquery it gave in the cache. *)
Lemma parameter_value_sq_cached (s s' : mapping) (sq : subquery) :
  parameter_value_sq s = (Ok sq, s') →
  _parameter_value_sq s' = Some sq
  ∧ _table_to_sq_attr s' = _table_to_sq_attr s
  ∧ alternative_sq (db s') = alternative_sq (db s)
  ∧ scenario_sq (db s') = scenario_sq (db s).
Proof.
  unfold parameter_value_sq.
  destruct (_parameter_value_sq s) as [sq0|] eqn:Hc.
  - by intros [= <- <-].
  - unfold call_maker.
    destruct (_make_parameter_value_sq s) as [|state|state].
    + by intros [= <- <-].
    + unfold lift, _make_scenario_filtered_parameter_value_sq, ret. cbn.
      by intros [= <- <-].
    + unfold lift, _make_alternative_filtered_parameter_value_sq.
      destruct (alternative_value_filter.alternatives state) as [ids|];
        [|by cbn; intros [=]].
      unfold bind, ret, in_. case_bool_decide.
      * cbn. by intros [= <- <-].
      * destruct ids; cbn; by intros [= <- <-].
Qed.

(** X20: the scenario filter takes effect through the cache only.  When a
    read of [parameter_value_sq] gives [original] and the scenario is one
    of the database, applying the scenario filter succeeds, and the next
    read of the property gives the subquery filtered by the scenario if
    the attribute [_parameter_value_sq] is listed under [parameter_value]
    in [_table_to_sq_attr], and still [original] if it is not; a further
    read gives the same again. *)
Theorem scenario_filter_needs_registered_attribute
    (s s0 : mapping) (original : subquery) (scenario : value) (S : Z) :
  parameter_value_sq s = (Ok original, s0) →
  resolves (db s0) scenario S →
  ∃ s1 s2,
    apply_scenario_filter_to_parameter_value_sq scenario s = (Ok (), s1)
    ∧ parameter_value_sq s1
      = (Ok (if registered s then scenario_filtered_sq original (VInt S) else original),
         s2)
    ∧ parameter_value_sq s2
      = (Ok (if registered s then scenario_filtered_sq original (VInt S) else original),
         s2).
Proof.
  intros Hread Hres.
  destruct (parameter_value_sq_cached s s0 original Hread) as (Hcache & Hreg & _).
  assert (Hregistered : ∀ d c mk,
            registered {| db := d; _parameter_value_sq := c;
                          _make_parameter_value_sq := mk;
                          _table_to_sq_attr := _table_to_sq_attr s0 |}
            = registered s).
  { intros. unfold registered. cbn [_table_to_sq_attr]. by rewrite Hreg. }
  unfold apply_scenario_filter_to_parameter_value_sq. rewrite Hread.
  unfold lift, new_ScenarioFilterState, bind, ret.
  rewrite (scenario_id_resolves _ _ _ Hres). cbn [fst snd].
  unfold override_parameter_value_sq_maker. rewrite clear_parameter_value.
  cbn [with_db db _parameter_value_sq _make_parameter_value_sq _table_to_sq_attr].
  rewrite Hregistered.
  destruct (registered s) eqn:E.
  - eexists _, _. split; [reflexivity|]. split; reflexivity.
  - eexists _, _. split; [reflexivity|].
    unfold parameter_value_sq. cbn [_parameter_value_sq]. rewrite Hcache.
    split; reflexivity.
Qed.

End subquery_cache_properties.

(** Over the example: a mapping fresh from [__init__] keeps giving the
    unfiltered subquery after the filter of scenario [S] is applied; with
    the attribute listed, the read gives the filtered one. *)
Lemma scenario_filter_needs_registered_attribute_witness :
  (∃ s1 s2,
     subquery_cache.apply_scenario_filter_to_parameter_value_sq (VStr "S")
       (subquery_cache.new scenario_example) = (Ok (), s1)
     ∧ subquery_cache.parameter_value_sq s1
       = (Ok db_mapping_base.parameter_value_sq_default, s2))
  ∧ ∃ s1 s2,
      subquery_cache.apply_scenario_filter_to_parameter_value_sq (VStr "S")
        {| subquery_cache.db := scenario_example;
           subquery_cache._parameter_value_sq := None;
           subquery_cache._make_parameter_value_sq := subquery_cache.default_maker;
           subquery_cache._table_to_sq_attr :=
             {[ "parameter_value" := ["_parameter_value_sq"] ]} |} = (Ok (), s1)
      ∧ subquery_cache.parameter_value_sq s1
        = (Ok (db_mapping_base.scenario_filtered_sq
                 db_mapping_base.parameter_value_sq_default (VInt 1)), s2).
Proof.
  split.
  - destruct (scenario_filter_needs_registered_attribute
                (subquery_cache.new scenario_example) _
                db_mapping_base.parameter_value_sq_default (VStr "S") 1 eq_refl eq_refl)
      as (s1 & s2 & H1 & H2 & _).
    by exists s1, s2.
  - destruct (scenario_filter_needs_registered_attribute
                {| subquery_cache.db := scenario_example;
                   subquery_cache._parameter_value_sq := None;
                   subquery_cache._make_parameter_value_sq := subquery_cache.default_maker;
                   subquery_cache._table_to_sq_attr :=
                     {[ "parameter_value" := ["_parameter_value_sq"] ]} |} _
                db_mapping_base.parameter_value_sq_default (VStr "S") 1 eq_refl eq_refl)
      as (s1 & s2 & H1 & H2 & _).
    by exists s1, s2.
Defined.

(** ** The filters and the cached subquery *)

Section filters_and_cache.
Import db_mapping_base alternative_value_filter subquery_cache.





End filters_and_cache.



(** ** db_mapping_base.py: the linked scenario alternatives *)

Module linked_scenario_alternatives.
Import db_mapping_base.

(** A row of [linked_scenario_alternative_sq]. *)
Record linked_row := {
  l_id : Z;
  l_scenario_id : Z;
  l_alternative_id : Z;
  l_next_alternative_id : option Z }.

(** The condition of the outer join: [b] is of the scenario of [a], one
    rank above. *)
Definition is_next (a b : scenario_alternative_row) : bool :=
  bool_decide (sa_scenario_id b = sa_scenario_id a)
  && bool_decide (sa_rank b = (sa_rank a + 1)%Z).

(** [.outerjoin(scenario_next_alternative, ...)]: every row with each of
    its matches, or once with nulls when it has none. *)
Definition outerjoin_next (sa : list scenario_alternative_row)
    : list (scenario_alternative_row * option scenario_alternative_row) :=
  flat_map (λ a, match List.filter (is_next a) sa with
                 | [] => [(a, None)]
                 | bs => map (λ b, (a, Some b)) bs
                 end) sa.

(** [.order_by(scenario_id, rank)]: insertion sort, smallest first. *)
Definition before (x y : scenario_alternative_row * option scenario_alternative_row)
    : bool :=
  (sa_scenario_id x.1 <? sa_scenario_id y.1)%Z
  || ((sa_scenario_id x.1 =? sa_scenario_id y.1)%Z && (sa_rank x.1 <? sa_rank y.1)%Z).

Fixpoint insert_by_scenario_and_rank
    (r : scenario_alternative_row * option scenario_alternative_row)
    (l : list (scenario_alternative_row * option scenario_alternative_row)) :=
  match l with
  | [] => [r]
  | h :: t =>
    if before r h then r :: h :: t else h :: insert_by_scenario_and_rank r t
  end.

Definition order_by_scenario_and_rank
    (l : list (scenario_alternative_row * option scenario_alternative_row)) :=
  foldr insert_by_scenario_and_rank [] l.

(** The property [linked_scenario_alternative_sq], queried. *)
Definition linked_scenario_alternative_sq (db : db_map) : list linked_row :=
  map (λ ab, {| l_id := sa_id ab.1;
                l_scenario_id := sa_scenario_id ab.1;
                l_alternative_id := sa_alternative_id ab.1;
                l_next_alternative_id := sa_alternative_id <$> ab.2 |})
    (order_by_scenario_and_rank (outerjoin_next (scenario_alternative_sq db))).

End linked_scenario_alternatives.

Section linked_properties.
Import db_mapping_base linked_scenario_alternatives.

Abbreviation linked := (scenario_alternative_row * option scenario_alternative_row)%type.

Lemma insert_by_scenario_and_rank_Permutation (r : linked) (l : list linked) :
  insert_by_scenario_and_rank r l ≡ₚ r :: l.
Proof.
  induction l as [|h t IH]; [done|]. cbn [insert_by_scenario_and_rank].
  destruct (before r h); [done|]. rewrite IH. apply perm_swap.
Qed.

Lemma order_by_scenario_and_rank_Permutation (l : list linked) :
  order_by_scenario_and_rank l ≡ₚ l.
Proof.
  induction l as [|h t IH]; [done|]. cbn [order_by_scenario_and_rank foldr].
  rewrite insert_by_scenario_and_rank_Permutation. by f_equiv.
Qed.

(** With distinct ranks within a scenario, a scenario alternative has at
    most one successor. *)
Lemma at_most_one_next (db : db_map) (a : scenario_alternative_row) :
  unique_ranks db (sa_scenario_id a) →
  length (List.filter (is_next a) (scenario_alternative_sq db)) ≤ 1.
Proof.
  unfold unique_ranks. set (sa := scenario_alternative_sq db). clearbody sa.
  induction sa as [|b sa IH]; [cbn; lia|]. cbn [List.filter].
  case_bool_decide as Hs; cbn [map].
  - intros [Hb Hnd]%NoDup_cons. specialize (IH Hnd).
    unfold is_next at 1. rewrite (bool_decide_eq_true_2 _ Hs). cbn [andb].
    case_bool_decide as Hr; [|done]. cbn [length].
    rewrite filter_nothing; [cbn; lia|].
    intros c Hc. apply not_true_iff_false. intros Hnext.
    apply andb_true_iff in Hnext as [Hcs Hcr].
    apply bool_decide_eq_true in Hcs. apply bool_decide_eq_true in Hcr.
    apply Hb, map_elem_of. exists c. split; [congruence|].
    apply filter_elem_of. split; [done|]. by apply bool_decide_eq_true_2.
  - intros Hnd. unfold is_next at 1. rewrite (bool_decide_eq_false_2 _ Hs).
    cbn [andb]. by apply IH.
Qed.

Lemma outerjoin_firsts (all sa : list scenario_alternative_row) :
  (∀ a, length (List.filter (is_next a) all) ≤ 1) →
  map fst (flat_map (λ a, match List.filter (is_next a) all with
                          | [] => [(a, None)]
                          | bs => map (λ b, (a, Some b)) bs
                          end) sa) = sa.
Proof.
  intros H. induction sa as [|a sa IH]; [done|]. cbn [flat_map].
  rewrite map_app, IH. specialize (H a).
  destruct (List.filter (is_next a) all) as [|b [|c bs]]; [done..|].
  cbn [length] in H. lia.
Qed.

Lemma outerjoin_next_firsts (db : db_map) :
  (∀ S, unique_ranks db S) →
  map fst (outerjoin_next (scenario_alternative_sq db)) = scenario_alternative_sq db.
Proof.
  intros Hranks. apply outerjoin_firsts. intros a. apply at_most_one_next, Hranks.
Qed.

Lemma outerjoin_next_elem_of (sa : list scenario_alternative_row)
    (a : scenario_alternative_row) (next : option scenario_alternative_row) :
  (a, next) ∈ outerjoin_next sa →
  a ∈ sa
  ∧ match next with
    | Some b => b ∈ sa ∧ is_next a b = true
    | None => ∀ b, b ∈ sa → is_next a b = false
    end.
Proof.
  unfold outerjoin_next. intros (a' & Ha' & Hin)%list_elem_of_In%in_flat_map.
  apply list_elem_of_In in Ha'.
  destruct (List.filter (is_next a') sa) as [|b bs] eqn:E.
  - destruct Hin as [[= <- <-]|[]]. split; [done|].
    intros b Hb. apply not_true_iff_false. intros Hnext.
    assert (b ∈ List.filter (is_next a') sa) as Hf.
    { apply filter_elem_of. by split. }
    rewrite E in Hf. by apply elem_of_nil in Hf.
  - apply in_map_iff in Hin as (b' & [= <- <-] & Hb'). split; [done|].
    rewrite <- E in Hb'. by apply list_elem_of_In, filter_elem_of in Hb'.
Qed.

(** X21: in a database where the ranks within every scenario are pairwise
    different, [linked_scenario_alternative_sq] has one row for every
    scenario alternative, and the next alternative of a row is the
    alternative of the same scenario that ranks exactly one higher, or null
    when the scenario has none at that rank: so the last alternative of a
    scenario has no next, and neither has one below a gap in the ranks. *)
Theorem linked_scenario_alternatives_follow_ranks (db : db_map) :
  (∀ S, unique_ranks db S) →
  map l_id (linked_scenario_alternative_sq db)
  ≡ₚ map sa_id (scenario_alternative_sq db)
  ∧ ∀ r, r ∈ linked_scenario_alternative_sq db →
      ∃ a, a ∈ scenario_alternative_sq db
           ∧ l_id r = sa_id a
           ∧ l_scenario_id r = sa_scenario_id a
           ∧ l_alternative_id r = sa_alternative_id a
           ∧ match l_next_alternative_id r with
             | Some next =>
               ∃ b, b ∈ scenario_alternative_sq db
                    ∧ sa_scenario_id b = sa_scenario_id a
                    ∧ sa_rank b = (sa_rank a + 1)%Z
                    ∧ sa_alternative_id b = next
             | None =>
               ∀ b, b ∈ scenario_alternative_sq db →
                    sa_scenario_id b = sa_scenario_id a →
                    sa_rank b ≠ (sa_rank a + 1)%Z
             end.
Proof.
  intros Hranks. unfold linked_scenario_alternative_sq. split.
  - rewrite map_map. cbn [l_id].
    rewrite <- (map_map fst sa_id).
    change (map sa_id (map fst ?l)) with (sa_id <$> (fst <$> l)).
    rewrite order_by_scenario_and_rank_Permutation.
    change (fst <$> ?l) with (map fst l). by rewrite (outerjoin_next_firsts db Hranks).
  - intros r ([a next] & <- & Hin)%map_elem_of. cbn [fst snd].
    assert (Hin' : (a, next) ∈ outerjoin_next (scenario_alternative_sq db)).
    { by rewrite <- (order_by_scenario_and_rank_Permutation _). }
    apply outerjoin_next_elem_of in Hin' as [Ha Hnext].
    exists a. split; [done|]. split; [done|]. split; [done|]. split; [done|].
    cbn [l_next_alternative_id]. destruct next as [b|]; cbn [fmap option_fmap option_map].
    + destruct Hnext as [Hb Hn]. apply andb_true_iff in Hn as [H1 H2].
      apply bool_decide_eq_true in H1. apply bool_decide_eq_true in H2. by exists b.
    + intros b Hb Hs Hr. specialize (Hnext b Hb). unfold is_next in Hnext.
      by rewrite (bool_decide_eq_true_2 _ Hs), (bool_decide_eq_true_2 _ Hr) in Hnext.
Qed.

End linked_properties.

(** In the example, [A1] at rank 1 is followed by [A2] at rank 2, which
    has no next. *)
Lemma linked_scenario_alternatives_follow_ranks_witness :
  map linked_scenario_alternatives.l_id
    (linked_scenario_alternatives.linked_scenario_alternative_sq scenario_example)
  ≡ₚ [1; 2]%Z
  ∧ map linked_scenario_alternatives.l_next_alternative_id
      (linked_scenario_alternatives.linked_scenario_alternative_sq scenario_example)
    = [Some 3%Z; None].
Proof.
  split; [|reflexivity].
  refine (proj1 (linked_scenario_alternatives_follow_ranks scenario_example _)).
  intros S. unfold unique_ranks. cbn [db_mapping_base.scenario_alternative_sq scenario_example].
  cbn [List.filter db_mapping_base.sa_scenario_id].
  destruct (bool_decide (1%Z = S)); cbn [map db_mapping_base.sa_rank];
    [|constructor].
  apply (bool_decide_unpack _). vm_compute. exact I.
Defined.

(** ** diff_db_mapping.py: updates of wide relationships *)

Module more_diff_db_mapping.
Import diff_db_mapping.

(** A wide relationship item: the dictionary without its two list-valued
    keys, and these two, each present or not. *)
Record wide_relationship := {
  fields : item;
  object_class_id_list : option (list value);
  object_id_list : option (list value) }.

(** The body of the inner loop of [_update_wide_relationships]: the row of
    [relationship_entity] for one member. *)
Definition rel_ent_item (ent_item : item) (dimension : nat) (member : value * value)
    : item :=
  let it := <["entity_class_id" := default VNone (ent_item !! "class_id")]>
              (delete "class_id" ent_item) in
  let it := <["entity_id" := default VNone (it !! "id")]> (delete "id" it) in
  <["member_id" := member.2]>
    (<["member_class_id" := member.1]>
       (<["dimension" := VInt (Z.of_nat dimension)]> it)).

(** The inner loop, over [enumerate(zip(object_class_id_list, object_id_list))];
    a missing list is popped as the empty one. *)
Definition rel_ent_items_of (wide_item : wide_relationship) : list item :=
  imap (rel_ent_item (fields wide_item))
    (zip (default [] (object_class_id_list wide_item))
         (default [] (object_id_list wide_item))).

Section mapping.
Variable _items_with_type_id : string → list wide_relationship → list wide_relationship.
Variable _get_primary_key : string → list string.
Variable columns : string → gset string.

(** [_update_wide_relationships]; the mapping is changed in place, so an
    exception leaves what was done before it. *)
Definition _update_wide_relationships (items : list wide_relationship)
    (st : diff_db_map) : result (gset value) * diff_db_map :=
  let items := _items_with_type_id "relationship" items in
  let ent_items := map fields items in
  let rel_ent_items := flat_map rel_ent_items_of items in
  match _get_items_for_update_and_insert st "entity" ent_items with
  | Raise e => (Raise e, st)
  | Ok (ents_for_update, ents_for_insert, dirty_ent_ids, updated_ent_ids) =>
    match _get_items_for_update_and_insert st "relationship_entity" rel_ent_items with
    | Raise e => (Raise e, st)
    | Ok (rel_ents_for_update, rel_ents_for_insert, dirty_rel_ent_ids,
          updated_rel_ent_ids) =>
      match _do_update_items _get_primary_key columns "entity"
              ents_for_update ents_for_insert st with
      | Raise e => (Raise e, st)
      | Ok st =>
        let st := _mark_as_dirty "entity" dirty_ent_ids st in
        let st := update_updated_item_id "entity" dirty_ent_ids st in
        match _do_update_items _get_primary_key columns "relationship_entity"
                rel_ents_for_update rel_ents_for_insert st with
        | Raise e => (Raise e, st)
        | Ok st =>
          let st := _mark_as_dirty "relationship_entity" dirty_rel_ent_ids st in
          let st := update_updated_item_id "relationship_entity" dirty_rel_ent_ids st in
          (Ok (updated_ent_ids ∪ updated_rel_ent_ids), st)
        end
      end
    end
  end.

End mapping.

End more_diff_db_mapping.

Section update_wide_relationships_properties.
Import diff_db_mapping more_diff_db_mapping.
Variable _items_with_type_id : string → list wide_relationship → list wide_relationship.
Variable _get_primary_key : string → list string.
Variable columns : string → gset string.

Lemma rel_ent_item_entity_id (ent_item : item) (dimension : nat) (member : value * value) :
  rel_ent_item ent_item dimension member !! "entity_id"
  = Some (default VNone (ent_item !! "id")).
Proof.
  unfold rel_ent_item.
  rewrite !lookup_insert_ne by done. rewrite lookup_insert_eq.
  by rewrite lookup_insert_ne, lookup_delete_ne by done.
Qed.

Lemma rel_ent_items_entity_id (items : list wide_relationship) (it : item) :
  it ∈ flat_map rel_ent_items_of items →
  ∃ w, w ∈ items ∧ it !! "entity_id" = Some (default VNone (fields w !! "id")).
Proof.
  intros (w & Hw & Hit)%list_elem_of_In%in_flat_map.
  exists w. split; [by apply list_elem_of_In|].
  apply list_elem_of_In, elem_of_lookup_imap in Hit as (d & m & -> & _).
  apply rel_ent_item_entity_id.
Qed.

Lemma ids_of_members (items : list wide_relationship) :
  Forall (λ w, is_Some (fields w !! "id")) items →
  ids_of "entity_id" (flat_map rel_ent_items_of items) ⊆ ids_of "id" (map fields items).
Proof.
  intros Hids id_ Hin.
  apply (elem_of_ids_of (λ _ l, l) _get_primary_key columns) in Hin as (it & Hit & Hid).
  apply rel_ent_items_entity_id in Hit as (w & Hw & Hit).
  rewrite Forall_forall in Hids. destruct (Hids w Hw) as [i Hi].
  rewrite Hi in Hit. cbn in Hit.
  apply (elem_of_ids_of (λ _ l, l) _get_primary_key columns).
  exists (fields w). split; [|congruence].
  apply map_elem_of. by exists w.
Qed.

(** X22: [_update_wide_relationships] over relationship items that all
    carry their id, when the two update statements bind their parameters.
    The call returns exactly the ids of the relationships; the shadow rows
    of [entity] and of [relationship_entity] are the old ones, updated where
    they stand, followed by the new ones; and the rows built for the
    members of a relationship pair its class and object id lists up to the
    shorter of the two, all under the id of the relationship as
    [entity_id]. *)
Theorem update_wide_relationships_returns_relationship_ids
    (items : list wide_relationship) (st : diff_db_map) :
  let items' := _items_with_type_id "relationship" items in
  let ent_items := map fields items' in
  let rel_ent_items := flat_map rel_ent_items_of items' in
  let staged T := (added_item_id st !!! T) ∪ (updated_item_id st !!! T) in
  let ent_upd := List.filter (is_staged (staged "entity") "id") ent_items in
  let ent_ins := List.filter (λ it, negb (is_staged (staged "entity") "id" it)) ent_items in
  let rel_upd :=
    List.filter (is_staged (staged "relationship_entity") "entity_id") rel_ent_items in
  let rel_ins :=
    List.filter (λ it, negb (is_staged (staged "relationship_entity") "entity_id" it))
      rel_ent_items in
  Forall (λ w, is_Some (fields w !! "id")) items' →
  forallb (binds (_get_primary_key "entity"
                    ++ elements (update_columns columns "entity" ent_upd))) ent_upd = true →
  forallb (binds (_get_primary_key "relationship_entity"
                    ++ elements (update_columns columns "relationship_entity" rel_upd)))
    rel_upd = true →
  ∃ st',
    _update_wide_relationships _items_with_type_id _get_primary_key columns items st
    = (Ok (ids_of "id" ent_items), st')
    ∧ diff_tables st' !!! "entity"
      = map (λ row, foldl (λ row it,
                 update_row (_get_primary_key "entity")
                   (update_columns columns "entity" ent_upd) it row) row ent_upd)
          (diff_tables st !!! "entity") ++ ent_ins
    ∧ diff_tables st' !!! "relationship_entity"
      = map (λ row, foldl (λ row it,
                 update_row (_get_primary_key "relationship_entity")
                   (update_columns columns "relationship_entity" rel_upd) it row)
               row rel_upd)
          (diff_tables st !!! "relationship_entity") ++ rel_ins
    ∧ ∀ w, w ∈ items' →
        length (rel_ent_items_of w)
        = length (default [] (object_class_id_list w))
          `min` length (default [] (object_id_list w))
        ∧ ∀ it, it ∈ rel_ent_items_of w → it !! "entity_id" = fields w !! "id".
Proof.
  intros items' ent_items rel_ent_items staged ent_upd ent_ins rel_upd rel_ins
    Hids Hbe Hbr.
  assert (Hent : Forall (λ it : item, is_Some (it !! "id")) ent_items).
  { unfold ent_items. rewrite Forall_forall. intros it (w & <- & Hw)%map_elem_of.
    rewrite Forall_forall in Hids. by apply Hids. }
  assert (Hrel : Forall (λ it : item, is_Some (it !! "entity_id")) rel_ent_items).
  { rewrite Forall_forall. intros it (w & _ & ->)%rel_ent_items_entity_id. by eexists. }
  destruct (do_update_items_rows _get_primary_key columns "entity" ent_upd ent_ins st Hbe)
    as (st1 & Hdo1 & Hrows1 & Hadded1 & Hupdated1 & Hdirty1).
  set (de := ids_of "id" ent_ins).
  set (st1' := update_updated_item_id "entity" de (_mark_as_dirty "entity" de st1)).
  assert (Hrel1 : diff_tables st1' !!! "relationship_entity"
                  = diff_tables st !!! "relationship_entity").
  { cbn [st1' update_updated_item_id _mark_as_dirty diff_tables].
    revert Hdo1. unfold _do_update_items.
    destruct ent_upd as [|first upd']; [|destruct (execute_update _ _ _ _); [|done]];
      destruct ent_ins; intros [= <-]; cbn [set_diff_table diff_tables];
      by rewrite ?lookup_total_insert_ne. }
  destruct (do_update_items_rows _get_primary_key columns "relationship_entity"
              rel_upd rel_ins st1' Hbr)
    as (st2 & Hdo2 & Hrows2 & Hadded2 & Hupdated2 & Hdirty2).
  assert (Hent2 : diff_tables st2 !!! "entity" = diff_tables st1 !!! "entity").
  { revert Hdo2. unfold _do_update_items.
    destruct rel_upd as [|first upd']; [|destruct (execute_update _ _ _ _); [|done]];
      destruct rel_ins; intros [= <-]; cbn [set_diff_table diff_tables];
      by rewrite ?lookup_total_insert_ne. }
  unfold _update_wide_relationships, _get_items_for_update_and_insert.
  fold items'. fold ent_items. fold rel_ent_items.
  change (id_field "entity") with "id".
  change (id_field "relationship_entity") with "entity_id".
  change (added_item_id st !!! "entity" ∪ updated_item_id st !!! "entity")
    with (staged "entity").
  change (added_item_id st !!! "relationship_entity"
          ∪ updated_item_id st !!! "relationship_entity")
    with (staged "relationship_entity").
  rewrite (get_items_loop_spec _ "id" ent_items [] [] ∅ ∅ Hent).
  rewrite (get_items_loop_spec _ "entity_id" rel_ent_items [] [] ∅ ∅ Hrel).
  cbn [app]. fold ent_upd ent_ins rel_upd rel_ins. rewrite !(left_id_L ∅ (∪)).
  rewrite Hdo1. fold de. fold st1'. rewrite Hdo2.
  eexists. split; [|split; [|split]].
  - f_equal. f_equal. apply (anti_symm (⊆)); [|apply union_subseteq_l].
    apply union_least; [done|]. by apply ids_of_members.
  - cbn [update_updated_item_id _mark_as_dirty diff_tables]. by rewrite Hent2, Hrows1.
  - cbn [update_updated_item_id _mark_as_dirty diff_tables]. by rewrite Hrows2, Hrel1.
  - intros w Hw. split.
    + unfold rel_ent_items_of. by rewrite length_imap, length_zip.
    + intros it Hit. unfold rel_ent_items_of in Hit.
      apply elem_of_lookup_imap in Hit as (d & m & -> & _).
      rewrite rel_ent_item_entity_id. rewrite Forall_forall in Hids.
      by destruct (Hids w Hw) as [i ->].
Qed.

(** X23: the two tables are written one after the other.  When the
    statement that updates [relationship_entity] fails to bind an item,
    [_update_wide_relationships] raises with the changes of [entity] already
    made: its shadow rows are updated and extended and its new ids marked
    dirty, while [relationship_entity] is as it was. *)
Theorem update_wide_relationships_fails_half_way
    (items : list wide_relationship) (st : diff_db_map) :
  let items' := _items_with_type_id "relationship" items in
  let ent_items := map fields items' in
  let rel_ent_items := flat_map rel_ent_items_of items' in
  let staged T := (added_item_id st !!! T) ∪ (updated_item_id st !!! T) in
  let ent_upd := List.filter (is_staged (staged "entity") "id") ent_items in
  let ent_ins := List.filter (λ it, negb (is_staged (staged "entity") "id" it)) ent_items in
  let rel_upd :=
    List.filter (is_staged (staged "relationship_entity") "entity_id") rel_ent_items in
  Forall (λ w, is_Some (fields w !! "id")) items' →
  forallb (binds (_get_primary_key "entity"
                    ++ elements (update_columns columns "entity" ent_upd))) ent_upd = true →
  forallb (binds (_get_primary_key "relationship_entity"
                    ++ elements (update_columns columns "relationship_entity" rel_upd)))
    rel_upd = false →
  ∃ st',
    _update_wide_relationships _items_with_type_id _get_primary_key columns items st
    = (Raise StatementError, st')
    ∧ diff_tables st' !!! "entity"
      = map (λ row, foldl (λ row it,
                 update_row (_get_primary_key "entity")
                   (update_columns columns "entity" ent_upd) it row) row ent_upd)
          (diff_tables st !!! "entity") ++ ent_ins
    ∧ dirty_item_id st' !!! "entity"
      = (dirty_item_id st !!! "entity") ∪ ids_of "id" ent_ins
    ∧ diff_tables st' !!! "relationship_entity"
      = diff_tables st !!! "relationship_entity".
Proof.
  intros items' ent_items rel_ent_items staged ent_upd ent_ins rel_upd Hids Hbe Hbr.
  assert (Hent : Forall (λ it : item, is_Some (it !! "id")) ent_items).
  { unfold ent_items. rewrite Forall_forall. intros it (w & <- & Hw)%map_elem_of.
    rewrite Forall_forall in Hids. by apply Hids. }
  assert (Hrel : Forall (λ it : item, is_Some (it !! "entity_id")) rel_ent_items).
  { rewrite Forall_forall. intros it (w & _ & ->)%rel_ent_items_entity_id. by eexists. }
  destruct (do_update_items_rows _get_primary_key columns "entity" ent_upd ent_ins st Hbe)
    as (st1 & Hdo1 & Hrows1 & Hadded1 & Hupdated1 & Hdirty1).
  set (de := ids_of "id" ent_ins).
  set (st1' := update_updated_item_id "entity" de (_mark_as_dirty "entity" de st1)).
  assert (Hrel1 : diff_tables st1' !!! "relationship_entity"
                  = diff_tables st !!! "relationship_entity").
  { cbn [st1' update_updated_item_id _mark_as_dirty diff_tables].
    revert Hdo1. unfold _do_update_items.
    destruct ent_upd as [|first upd']; [|destruct (execute_update _ _ _ _); [|done]];
      destruct ent_ins; intros [= <-]; cbn [set_diff_table diff_tables];
      by rewrite ?lookup_total_insert_ne. }
  unfold _update_wide_relationships, _get_items_for_update_and_insert.
  fold items'. fold ent_items. fold rel_ent_items.
  change (id_field "entity") with "id".
  change (id_field "relationship_entity") with "entity_id".
  change (added_item_id st !!! "entity" ∪ updated_item_id st !!! "entity")
    with (staged "entity").
  change (added_item_id st !!! "relationship_entity"
          ∪ updated_item_id st !!! "relationship_entity")
    with (staged "relationship_entity").
  rewrite (get_items_loop_spec _ "id" ent_items [] [] ∅ ∅ Hent).
  rewrite (get_items_loop_spec _ "entity_id" rel_ent_items [] [] ∅ ∅ Hrel).
  cbn [app]. fold ent_upd ent_ins rel_upd. rewrite !(left_id_L ∅ (∪)).
  rewrite Hdo1. fold de. fold st1'.
  exists st1'. split; [|split; [|split]].
  - unfold _do_update_items. destruct rel_upd as [|first upd'] eqn:E; [done|].
    unfold execute_update. cbn [update_columns] in Hbr. by rewrite Hbr.
  - by cbn [st1' update_updated_item_id _mark_as_dirty diff_tables].
  - cbn [st1' update_updated_item_id _mark_as_dirty dirty_item_id].
    by rewrite lookup_total_insert_eq, Hdirty1.
  - exact Hrel1.
Qed.

End update_wide_relationships_properties.

(** A relationship of class 3 between the objects 10 and 11; a third
    object id has no member class and is dropped. *)
Definition pluto_nemo_update : more_diff_db_mapping.wide_relationship :=
  {| more_diff_db_mapping.fields :=
       {[ "id" := VInt 5; "class_id" := VInt 3; "name" := VStr "pluto__nemo" ]};
     more_diff_db_mapping.object_class_id_list := Some [VInt 1; VInt 2];
     more_diff_db_mapping.object_id_list := Some [VInt 10; VInt 11; VInt 12] |}.

Definition nothing_staged : diff_db_mapping.diff_db_map :=
  {| diff_db_mapping.added_item_id := ∅;
     diff_db_mapping.updated_item_id := ∅;
     diff_db_mapping.dirty_item_id := ∅;
     diff_db_mapping.diff_tables := ∅;
     diff_db_mapping.has_pending_changes := false |}.

Lemma update_wide_relationships_returns_relationship_ids_witness :
  ∃ st',
    more_diff_db_mapping._update_wide_relationships (λ _ items, items)
      (λ _, ["id"]) (λ _, {[ "id"; "name" ]}) [pluto_nemo_update] nothing_staged
    = (Ok {[ VInt 5 ]}, st')
    ∧ map (λ it : gmap string value, (it !! "dimension", it !! "member_id"))
        (diff_db_mapping.diff_tables st' !!! "relationship_entity")
      = [ (Some (VInt 0), Some (VInt 10)); (Some (VInt 1), Some (VInt 11)) ].
Proof.
  destruct (update_wide_relationships_returns_relationship_ids
              (λ _ items, items) (λ _, ["id"]) (λ _, {[ "id"; "name" ]})
              [pluto_nemo_update] nothing_staged)
    as (st' & Heq & _ & Hrel & _).
  - repeat constructor. by eexists.
  - reflexivity.
  - reflexivity.
  - exists st'. split.
    + rewrite Heq. reflexivity.
    + rewrite Hrel. vm_compute. reflexivity.
Defined.

(** The relationship 5 has member rows staged already, and is updated
    with members that lack the [dimension] the update statement binds: the
    entity row is staged all the same. *)
Definition members_staged : diff_db_mapping.diff_db_map :=
  {| diff_db_mapping.added_item_id := {[ "relationship_entity" := {[ VInt 5 ]} ]};
     diff_db_mapping.updated_item_id := ∅;
     diff_db_mapping.dirty_item_id := ∅;
     diff_db_mapping.diff_tables := ∅;
     diff_db_mapping.has_pending_changes := true |}.

Lemma update_wide_relationships_fails_half_way_witness :
  ∃ st',
    more_diff_db_mapping._update_wide_relationships (λ _ items, items)
      (λ _, ["entity_id"; "position"]) (λ _, {[ "name" ]})
      [pluto_nemo_update] members_staged
    = (Raise StatementError, st')
    ∧ length (diff_db_mapping.diff_tables st' !!! "entity") = 1
    ∧ diff_db_mapping.dirty_item_id st' !!! "entity" = {[ VInt 5 ]}.
Proof.
  destruct (update_wide_relationships_fails_half_way
              (λ _ items, items) (λ _, ["entity_id"; "position"]) (λ _, {[ "name" ]})
              [pluto_nemo_update] members_staged)
    as (st' & Heq & Hent & Hdirty & _).
  - repeat constructor. by eexists.
  - reflexivity.
  - vm_compute. reflexivity.
  - exists st'. split; [exact Heq|]. split.
    + rewrite Hent. reflexivity.
    + rewrite Hdirty. vm_compute. reflexivity.
Defined.
